(** * Graph.py: adjacency graph of a QGIS vector layer, grouped by a field

    A shallow embedding of [src/Graph.py] (a QGIS 2 / Python 2 processing
    script) and the properties of its functions.

    Conventions of the embedding:
    - Python exceptions are values of [PyError]; a function that can raise
      returns [Result A].
    - Coordinates are Python floats in the script.  Only comparisons
      ([min], [max], [<], [>]) are ever applied to them, so they are
      modelled as rationals [Q] compared with [Qle_bool].
    - Python dicts are [gmap]s; a Python [set] of strings is the [list] of
      its elements in iteration order (the script iterates the same,
      unmodified set several times, which yields the same order each time).
    - The QGIS objects the script only calls into (geometry test, expression
      engine) are the fields of the class [Host]. *)

From Stdlib Require Import Ascii QArith Lqa.
From stdpp Require Import gmap strings list fin_maps pretty.

Local Open Scope string_scope.
Local Open Scope list_scope.

(** ** Python exceptions and the error monad *)

Inductive PyKey :=
| KStr (s : string)
| KInt (z : Z).

Inductive PyError :=
| PyException (msg : string)       (* raise Exception(...) *)
| ValueError (msg : string)
| IndexError (msg : string)
| KeyError (k : PyKey)
| TypeError (msg : string)
| UnicodeEncodeError.

Inductive Result (A : Type) :=
| Ok (a : A)
| Err (e : PyError).
Arguments Ok {A} a.
Arguments Err {A} e.

#[global] Instance Result_ret : MRet Result := fun A a => Ok a.
#[global] Instance Result_bind : MBind Result := fun A B k m =>
  match m with
  | Ok a => k a
  | Err e => Err e
  end.

(** [for x in l: acc = body(acc, x)] where the body may raise. *)
Fixpoint foldM {A S} (body : S -> A -> Result S) (acc : S) (l : list A)
  : Result S :=
  match l with
  | [] => Ok acc
  | a :: l' => acc' ← body acc a; foldM body acc' l'
  end.

Definition isOk {A} (r : Result A) : bool :=
  match r with Ok _ => true | Err _ => false end.

(** ** Python builtins on floats: [min], [max] *)

(** [a < b] on floats. *)
Definition Qlt_bool (a b : Q) : bool := negb (Qle_bool b a).

Definition min_empty : PyError := ValueError "min() arg is an empty sequence".
Definition max_empty : PyError := ValueError "max() arg is an empty sequence".

(** CPython keeps the first item and replaces it by a later item only when
    that item compares strictly smaller (resp. larger). *)
Fixpoint min_from (m : Q) (l : list Q) : Q :=
  match l with
  | [] => m
  | v :: l' => min_from (if Qlt_bool v m then v else m) l'
  end.

Fixpoint max_from (m : Q) (l : list Q) : Q :=
  match l with
  | [] => m
  | v :: l' => max_from (if Qlt_bool m v then v else m) l'
  end.

Definition py_min (l : list Q) : Result Q :=
  match l with
  | [] => Err min_empty
  | v :: l' => Ok (min_from v l')
  end.

Definition py_max (l : list Q) : Result Q :=
  match l with
  | [] => Err max_empty
  | v :: l' => Ok (max_from v l')
  end.

(** Two-argument forms [min(a, b)] and [max(a, b)]. *)
Definition py_min2 (a b : Q) : Q := min_from a [b].
Definition py_max2 (a b : Q) : Q := max_from a [b].

(** [l[i]] on a Python list. *)
Definition py_index {A} (l : list A) (i : nat) : Result A :=
  match nth_error l i with
  | Some a => Ok a
  | None => Err (IndexError "list index out of range")
  end.

(** ** QGIS value types: points, rectangles, geometries *)

Record QgsPoint := mkPoint { pt_x : Q; pt_y : Q }.

Record QgsRectangle := mkRect {
  xMinimum : Q;
  yMinimum : Q;
  xMaximum : Q;
  yMaximum : Q
}.

(** QGIS API: the four-argument constructor [QgsRectangle(xmin, ymin, xmax,
    ymax)] stores the values and normalises, swapping the two bounds of an
    axis when the minimum is larger than the maximum. *)
Definition newQgsRectangle (xmin ymin xmax ymax : Q) : QgsRectangle :=
  let '(x0, x1) := if Qlt_bool xmax xmin then (xmax, xmin) else (xmin, xmax) in
  let '(y0, y1) := if Qlt_bool ymax ymin then (ymax, ymin) else (ymin, ymax) in
  mkRect x0 y0 x1 y1.

(** QGIS API: [r1.intersects(r2)].  The test is on closed intervals: it is
    false only when the larger minimum exceeds the smaller maximum on some
    axis, so rectangles that merely touch intersect (the corner-touching
    squares of the specification's scenario yield an edge). *)
Definition rect_intersects (r1 r2 : QgsRectangle) : bool :=
  let x1 := if Qlt_bool (xMinimum r2) (xMinimum r1) then xMinimum r1 else xMinimum r2 in
  let x2 := if Qlt_bool (xMaximum r1) (xMaximum r2) then xMaximum r1 else xMaximum r2 in
  if Qlt_bool x2 x1 then false
  else
    let y1 := if Qlt_bool (yMinimum r2) (yMinimum r1) then yMinimum r1 else yMinimum r2 in
    let y2 := if Qlt_bool (yMaximum r1) (yMaximum r2) then yMaximum r1 else yMaximum r2 in
    if Qlt_bool y2 y1 then false else true.

(** A geometry is a polygon, given by its rings (the outer boundary first,
    then the holes), or some other geometry of which only the bounding box
    matters here. *)
Inductive QgsGeometry :=
| Polygon (rings : list (list QgsPoint))
| NotPolygon (bbox : QgsRectangle).

(** QGIS API: [geometry.asPolygon()] is the list of rings of a polygon and
    the empty list for every other geometry. *)
Definition asPolygon (g : QgsGeometry) : list (list QgsPoint) :=
  match g with
  | Polygon rings => rings
  | NotPolygon _ => []
  end.

(** QGIS API: [geometry.boundingBox()]; for a polygon the box of its outer
    ring, and the null rectangle when there is no point. *)
Definition pointsBox (pts : list QgsPoint) : QgsRectangle :=
  match pts with
  | [] => mkRect 0 0 0 0
  | p :: pts' =>
      mkRect (min_from (pt_x p) (map pt_x pts')) (min_from (pt_y p) (map pt_y pts'))
             (max_from (pt_x p) (map pt_x pts')) (max_from (pt_y p) (map pt_y pts'))
  end.

Definition boundingBox (g : QgsGeometry) : QgsRectangle :=
  match g with
  | Polygon (ring0 :: _) => pointsBox ring0
  | Polygon [] => mkRect 0 0 0 0
  | NotPolygon bbox => bbox
  end.

(** ** [rectBounds] (lines 12-29) *)

(** The list [[xMin, yMin, xMax, yMax]] built by [rectBounds],
    [boundsAndIndexDict] and read by [findEdges] and [smallRectangle]. *)
Record Bounds := mkBounds { b0 : Q; b1 : Q; b2 : Q; b3 : Q }.

(** The loop of lines 26-28: [i] ranges over [range(len(coordList))], the
    number of rings, and reads the [i]-th point of ring 0. *)
Definition rectBounds_points (coordList : list (list QgsPoint))
  : Result (list QgsPoint) :=
  foldM (fun pts i =>
           ring0 ← py_index coordList 0;
           p ← py_index ring0 i;
           Ok (pts ++ [p]))
        [] (seq 0 (length coordList)).

Definition rectBounds (geometry : QgsGeometry) : Result Bounds :=
  let coordList := asPolygon geometry in
  pts ← rectBounds_points coordList;
  let x := map pt_x pts in
  let y := map pt_y pts in
  xmin ← py_min x;
  ymin ← py_min y;
  xmax ← py_max x;
  ymax ← py_max y;
  Ok (mkBounds xmin ymin xmax ymax).

(** ** Python floats and strings: [float(...)] and [str(...)] *)

(** The value of a Python float as far as the script can observe it: the
    script stores it, and never computes with it.  The rounding of a decimal
    literal to the nearest double is not modelled. *)
Inductive pyfloat :=
| PFinite (q : Q)
| PInf (negative : bool)
| PNaN.

Definition not_a_float : PyError := ValueError "could not convert string to float".

Definition is_space (c : ascii) : bool :=
  let n := nat_of_ascii c in
  Nat.eqb n 32 || (Nat.leb 9 n && Nat.leb n 13).

Definition is_digit (c : ascii) : bool :=
  let n := nat_of_ascii c in Nat.leb 48 n && Nat.leb n 57.

Definition lower (c : ascii) : ascii :=
  let n := nat_of_ascii c in
  if Nat.leb 65 n && Nat.leb n 90 then ascii_of_nat (n + 32) else c.

Fixpoint lstrip (l : list ascii) : list ascii :=
  match l with
  | c :: l' => if is_space c then lstrip l' else l
  | [] => []
  end.

Definition strip (l : list ascii) : list ascii := rev (lstrip (rev (lstrip l))).

(** Longest prefix of digits, and the rest. *)
Fixpoint span_digits (l : list ascii) : list ascii * list ascii :=
  match l with
  | c :: l' =>
      if is_digit c then let '(d, r) := span_digits l' in (c :: d, r)
      else ([], l)
  | [] => ([], [])
  end.

Definition digits_value (d : list ascii) : Z :=
  fold_left (fun acc c => (acc * 10 + (Z.of_nat (nat_of_ascii c) - 48))%Z) d 0%Z.

Definition take_sign (l : list ascii) : bool * list ascii :=
  match l with
  | "-"%char :: l' => (true, l')
  | "+"%char :: l' => (false, l')
  | _ => (false, l)
  end.

Definition scale10 (m e : Z) : Q :=
  if (0 <=? e)%Z then inject_Z (m * 10 ^ e)
  else (m # Z.to_pos (10 ^ (- e)))%Q.

(** [digits [. digits] [(e|E) [sign] digits]] with at least one digit in
    the mantissa and nothing after it. *)
Definition parse_decimal (l : list ascii) : option Q :=
  let '(ip, r1) := span_digits l in
  let '(fp, r2) :=
    match r1 with
    | "."%char :: r => span_digits r
    | _ => ([], r1)
    end in
  if Nat.eqb (length ip + length fp) 0 then None
  else
    let m := digits_value (ip ++ fp) in
    let shift := Z.of_nat (length fp) in
    match r2 with
    | [] => Some (scale10 m (- shift))
    | c :: r =>
        if Ascii.eqb (lower c) "e"%char then
          let '(neg, r') := take_sign r in
          let '(ed, r3) := span_digits r' in
          match ed, r3 with
          | _ :: _, [] =>
              let e := digits_value ed in
              Some (scale10 m ((if neg then - e else e) - shift))
          | _, _ => None
          end
        else None
    end.

(** [float(s)] on a string (Python 2.7, ASCII input): surrounding white
    space is ignored, then an optional sign, then [inf], [infinity], [nan]
    in any case, or a decimal number. *)
Definition float_of_string (s : string) : Result pyfloat :=
  let '(neg, body) := take_sign (strip (String.list_ascii_of_string s)) in
  let word := String.string_of_list_ascii (map lower body) in
  if String.eqb word "inf" || String.eqb word "infinity" then Ok (PInf neg)
  else if String.eqb word "nan" then Ok PNaN
  else
    match parse_decimal body with
    | Some q => Ok (PFinite (if neg then - q else q)%Q)
    | None => Err not_a_float
    end.

(** A value of the attribute table as the Python bindings hand it over. *)
Inductive QVariant :=
| VNull                       (* the NULL object *)
| VInt (n : Z)
| VDouble (d : pyfloat)
| VString (s : string).       (* a unicode object *)

(** [float(v)]. *)
Definition py_float (v : QVariant) : Result pyfloat :=
  match v with
  | VNull => Err (TypeError "float() argument must be a string or a number")
  | VInt n => Ok (PFinite (inject_Z n))
  | VDouble d => Ok d
  | VString s => float_of_string s
  end.

Definition is_ascii_string (s : string) : bool :=
  forallb (fun c => Nat.ltb (nat_of_ascii c) 128) (String.list_ascii_of_string s).

(** ** Features, layers and expressions *)

Record QgsFeature := mkFeature {
  fid : Z;                                  (* feature.id() *)
  attrs : list (string * QVariant);         (* the attribute table row *)
  geometry : QgsGeometry                    (* feature.geometry() *)
}.

Fixpoint assoc (k : string) (l : list (string * QVariant)) : option QVariant :=
  match l with
  | [] => None
  | (k', v) :: l' => if String.eqb k k' then Some v else assoc k l'
  end.

(** [feature[field]]. *)
Definition getitem (f : option QgsFeature) (field : string) : Result QVariant :=
  match f with
  | None => Err (TypeError "'NoneType' object has no attribute '__getitem__'")
  | Some f =>
      match assoc field (attrs f) with
      | Some v => Ok v
      | None => Err (KeyError (KStr field))
      end
  end.

Record QgsVectorLayer := mkLayer {
  getFeatures : list QgsFeature;            (* in the provider's order *)
  pendingFields : list string               (* the field names *)
}.

(** What [exp.evaluate(feature)] followed by [exp.hasEvalError()] and
    [bool(value)] gives. *)
Inductive EvalResult :=
| EvalValue (truth : bool)
| EvalError (msg : string).

Record QgsExpression := mkExpression {
  hasParserError : bool;
  parserErrorString : string;
  evaluate : QgsFeature -> EvalResult
}.

(** The collaborators the script calls into and does not define: the exact
    intersection test of the geometry engine, the expression engine that
    parses a string into an expression, and Python's formatting of a float. *)
Class Host := {
  geom_intersects : QgsGeometry -> QgsGeometry -> bool;  (* g1.intersects(g2) *)
  parseExpression : string -> QgsExpression;             (* QgsExpression(text) *)
  float_str : pyfloat -> string                          (* str(x) for a float x *)
}.

(** [str(v)]: a unicode object is encoded with the ASCII codec. *)
Definition py_str `{Host} (v : QVariant) : Result string :=
  match v with
  | VNull => Ok "NULL"
  | VInt n => Ok (pretty n)
  | VDouble d => Ok (float_str d)
  | VString s => if is_ascii_string s then Ok s else Err UnicodeEncodeError
  end.

(** ** Generators *)

(** A finite generator: what each [next()] gives until it stops or raises. *)
Inductive Gen (A : Type) :=
| GStop
| GRaise (e : PyError)
| GYield (a : A) (rest : Gen A).
Arguments GStop {A}.
Arguments GRaise {A} e.
Arguments GYield {A} a rest.

(** [for a in g: acc = body(acc, a)]. *)
Fixpoint forGen {A S} (body : S -> A -> Result S) (acc : S) (g : Gen A)
  : Result S :=
  match g with
  | GStop => Ok acc
  | GRaise e => Err e
  | GYield a rest => acc' ← body acc a; forGen body acc' rest
  end.

(** The features a generator yields before it stops or raises. *)
Fixpoint yielded {A} (g : Gen A) : list A :=
  match g with
  | GYield a rest => a :: yielded rest
  | _ => []
  end.

(** ** [filter] (lines 32-53) and [quickFilter] (lines 56-80) *)

Fixpoint filter_loop (exp : QgsExpression) (fs : list QgsFeature)
  : Gen QgsFeature :=
  match fs with
  | [] => GStop
  | feature :: fs' =>
      match evaluate exp feature with
      | EvalError msg => GRaise (ValueError msg)
      | EvalValue true => GYield feature (filter_loop exp fs')
      | EvalValue false => filter_loop exp fs'
      end
  end.

Definition filter (layer : QgsVectorLayer) (exp : QgsExpression)
  : Gen QgsFeature :=
  if hasParserError exp then GRaise (PyException (parserErrorString exp))
  else filter_loop exp (getFeatures layer).

(** The loop falls off the end of the function when no feature matches, and
    the function then returns [None]. *)
Fixpoint quickFilter_loop (exp : QgsExpression) (fs : list QgsFeature)
  : Result (option QgsFeature) :=
  match fs with
  | [] => Ok None
  | feature :: fs' =>
      match evaluate exp feature with
      | EvalError msg => Err (ValueError msg)
      | EvalValue true => Ok (Some feature)
      | EvalValue false => quickFilter_loop exp fs'
      end
  end.

Definition quickFilter (layer : QgsVectorLayer) (exp : QgsExpression)
  : Result (option QgsFeature) :=
  if hasParserError exp then Err (PyException (parserErrorString exp))
  else quickFilter_loop exp (getFeatures layer).

(** ** [buildExpression] (lines 83-99) *)

Definition buildExpression_text (field value : string) : string :=
  match float_of_string value with
  | Ok _ => field +:+ "=" +:+ value
  | Err _ => field +:+ "='" +:+ value +:+ "'"
  end.

Definition buildExpression `{Host} (field value : string) : QgsExpression :=
  parseExpression (buildExpression_text field value).

(** ** The graph dictionary and [updateEdges] (lines 102-115) *)

(** A value stored by [addAttributesDict]: a float or a [str]. *)
Inductive AttrValue :=
| Number (x : pyfloat)
| Text (s : string).

(** The dictionary of one vertex: the key ['edges'] is set when the vertex
    is created, the key ['attributes'] only by [addAttributesDict]. *)
Record Vertex := mkVertex {
  edges : list string;
  attributes : option (gmap string AttrValue)
}.

(** [d[k]] on a dict with string keys. *)
Definition dict_get {A} (d : gmap string A) (k : string) : Result A :=
  match d !! k with
  | Some a => Ok a
  | None => Err (KeyError (KStr k))
  end.

(** [dictionary[k]['edges'].append(v)]. *)
Definition appendEdge (dictionary : gmap string Vertex) (k v : string)
  : Result (gmap string Vertex) :=
  vx ← dict_get dictionary k;
  Ok (<[k := mkVertex (edges vx ++ [v]) (attributes vx)]> dictionary).

Definition updateEdges (dictionary : gmap string Vertex)
    (fieldValue1 fieldValue2 : string) : Result (gmap string Vertex) :=
  d1 ← appendEdge dictionary fieldValue1 fieldValue2;
  appendEdge d1 fieldValue2 fieldValue1.

(** ** The spatial index *)

(** QGIS API: a [QgsSpatialIndex] holds the identifier and the bounding box
    of every inserted feature; [index.intersects(rect)] lists the
    identifiers whose box intersects [rect].  The order of that list does
    not matter to any property below; insertion order is used. *)
Definition QgsSpatialIndex : Type := list (Z * QgsRectangle).

Definition insertFeature (index : QgsSpatialIndex) (feature : QgsFeature)
  : QgsSpatialIndex :=
  index ++ [(fid feature, boundingBox (geometry feature))].

Definition index_intersects (index : QgsSpatialIndex) (rect : QgsRectangle)
  : list Z :=
  map fst (List.filter (fun e => rect_intersects (snd e) rect) index).

(** ** [smallRectangle] (lines 275-289) *)

Definition smallRectangle (bounds1 bounds2 : Bounds) : QgsRectangle :=
  let xMin := py_max2 (b0 bounds1) (b0 bounds2) in
  let yMin := py_max2 (b1 bounds1) (b1 bounds2) in
  let xMax := py_min2 (b2 bounds1) (b2 bounds2) in
  let yMax := py_min2 (b3 bounds1) (b3 bounds2) in
  newQgsRectangle xMin yMin xMax yMax.

(** ** [findEdges] (lines 118-168) *)

(** [QgsRectangle(bounds[0], bounds[1], bounds[2], bounds[3])], lines 144
    and 149. *)
Definition rectangleOf (bounds : Bounds) : QgsRectangle :=
  newQgsRectangle (b0 bounds) (b1 bounds) (b2 bounds) (b3 bounds).

(** The prefilter of line 151 on the rectangles of lines 144 and 149. *)
Definition prefilter (bounds tempBounds : Bounds) : bool :=
  rect_intersects (rectangleOf bounds) (rectangleOf tempBounds).

(** [features[id]] on the dict of all features. *)
Definition features_get (features : gmap Z QgsFeature) (id : Z)
  : Result QgsFeature :=
  match features !! id with
  | Some f => Ok f
  | None => Err (KeyError (KInt id))
  end.

(** [s.remove(v)] on a set. *)
Definition set_remove (v : string) (s : list string) : Result (list string) :=
  if existsb (String.eqb v) s
  then Ok (List.filter (fun w => negb (String.eqb v w)) s)
  else Err (KeyError (KStr v)).

(** Lines 157-167: [findEdges_test] is the body of the loop over [ids2],
    [findEdges_row] the body of the loop over [ids1].  [finish] is set to [True] on line 167 as soon as the two
    [for] loops have run to their end, so the body of the [while] loop runs
    exactly once; inside the [for] loops nothing reads [finish] and nothing
    leaves them early, so every candidate pair is tested and every
    intersecting pair calls [updateEdges]. *)
Definition findEdges_test `{Host} (features : gmap Z QgsFeature)
    (value1 value2 : string) (feature1 : QgsFeature)
    (graphDict : gmap string Vertex) (id2 : Z) : Result (gmap string Vertex) :=
  feature2 ← features_get features id2;
  if geom_intersects (geometry feature2) (geometry feature1)
  then updateEdges graphDict value1 value2
  else Ok graphDict.

Definition findEdges_row `{Host} (features : gmap Z QgsFeature)
    (value1 value2 : string) (ids2 : list Z)
    (graphDict : gmap string Vertex) (id1 : Z) : Result (gmap string Vertex) :=
  feature1 ← features_get features id1;
  foldM (findEdges_test features value1 value2 feature1) graphDict ids2.

Definition findEdges_candidates `{Host} (features : gmap Z QgsFeature)
    (value1 value2 : string) (ids1 ids2 : list Z)
    (graphDict : gmap string Vertex) : Result (gmap string Vertex) :=
  foldM (findEdges_row features value1 value2 ids2) graphDict ids1.

(** The body of the inner loop (lines 147-167) for one [value2]. *)
Definition findEdges_pair `{Host}
    (boundsIndexDict : gmap string (Bounds * QgsSpatialIndex))
    (features : gmap Z QgsFeature)
    (value1 : string) (bounds : Bounds) (index1 : QgsSpatialIndex)
    (rectangle1 : QgsRectangle)
    (graphDict : gmap string Vertex) (value2 : string)
  : Result (gmap string Vertex) :=
  '(tempBounds, index2) ← dict_get boundsIndexDict value2;
  let rectangle2 := rectangleOf tempBounds in
  if rect_intersects rectangle1 rectangle2 then
    let rectangle3 := smallRectangle bounds tempBounds in
    let ids1 := index_intersects index1 rectangle3 in
    let ids2 := index_intersects index2 rectangle3 in
    findEdges_candidates features value1 value2 ids1 ids2 graphDict
  else Ok graphDict.

(** The body of the outer loop (lines 141-167) for one [value1].  The state
    carries [valueSet2], which line 141 shrinks and nothing reads: the inner
    loop of line 146 runs over [valueSet]. *)
Definition findEdges_outer `{Host} (valueSet : list string)
    (boundsIndexDict : gmap string (Bounds * QgsSpatialIndex))
    (features : gmap Z QgsFeature)
    (st : list string * gmap string Vertex) (value1 : string)
  : Result (list string * gmap string Vertex) :=
  let '(valueSet2, graphDict) := st in
  valueSet2 ← set_remove value1 valueSet2;
  '(bounds, index1) ← dict_get boundsIndexDict value1;
  let rectangle1 := rectangleOf bounds in
  graphDict ← foldM (findEdges_pair boundsIndexDict features value1 bounds
                                    index1 rectangle1)
                    graphDict valueSet;
  Ok (valueSet2, graphDict).

Definition findEdges `{Host} (valueSet : list string)
    (boundsIndexDict : gmap string (Bounds * QgsSpatialIndex))
    (graphDict : gmap string Vertex) (features : gmap Z QgsFeature)
  : Result (gmap string Vertex) :=
  let valueSet2 := valueSet in
  '(_, graphDict) ← foldM (findEdges_outer valueSet boundsIndexDict features)
                          (valueSet2, graphDict) valueSet;
  Ok graphDict.

(** ** [processParameters] (lines 171-200) *)

(** [s.add(v)] on a set; first-occurrence order stands for the iteration
    order of the set. *)
Definition set_add (v : string) (s : list string) : list string :=
  if existsb (String.eqb v) s then s else s ++ [v].

(** Lines 190-191 for one feature.  The script reads the global [Field] on
    line 190; [runInputs] passes the same value as the parameter [field]. *)
Definition processParameters_feature `{Host} (Field : string)
    (st : list string * gmap Z QgsFeature) (feature : QgsFeature)
  : Result (list string * gmap Z QgsFeature) :=
  let '(fieldValues, allFeatures) := st in
  v ← getitem (Some feature) Field;
  s ← py_str v;
  Ok (set_add s fieldValues, <[fid feature := feature]> allFeatures).

(** Lines 196-198. *)
Definition emptyGraph (fieldValues : list string) : gmap string Vertex :=
  fold_left (fun g value => <[value := mkVertex [] None]> g)
            fieldValues (∅ : gmap string Vertex).

Definition processParameters `{Host} (inputLayer : QgsVectorLayer)
    (Field : string)
  : Result (gmap Z QgsFeature * list string * gmap string Vertex
            * list string) :=
  '(fieldValues, allFeatures) ←
    foldM (processParameters_feature Field) ([], ∅) (getFeatures inputLayer);
  layerFields ←
    foldM (fun layerFields name =>
             s ← py_str (VString name);
             Ok (layerFields ++ [s]))
          [] (pendingFields inputLayer);
  let graphDictionary := emptyGraph fieldValues in
  Ok (allFeatures, fieldValues, graphDictionary, layerFields).

(** ** [boundsAndIndexDict] (lines 203-239) *)

(** The body of the loop of lines 230-235 for one yielded feature. *)
Definition boundsAndIndexDict_feature
    (st : QgsSpatialIndex * list Q * list Q) (feature : QgsFeature)
  : Result (QgsSpatialIndex * list Q * list Q) :=
  let '(spatialIndex, x, y) := st in
  let geom := geometry feature in
  let spatialIndex := insertFeature spatialIndex feature in
  featureBounds ← rectBounds geom;
  Ok (spatialIndex,
      x ++ [b0 featureBounds; b2 featureBounds],
      y ++ [b1 featureBounds; b3 featureBounds]).

(** Lines 225-237 for one [value]: the entry stored under it. *)
Definition boundsAndIndexDict_value `{Host} (layer : QgsVectorLayer)
    (field value : string) : Result (Bounds * QgsSpatialIndex) :=
  let expression := buildExpression field value in
  '(spatialIndex, x, y) ←
    forGen boundsAndIndexDict_feature ([], [], []) (filter layer expression);
  xmin ← py_min x;
  ymin ← py_min y;
  xmax ← py_max x;
  ymax ← py_max y;
  Ok (mkBounds xmin ymin xmax ymax, spatialIndex).

(** One pass of the loop of line 224. *)
Definition boundsAndIndexDict_step `{Host} (layer : QgsVectorLayer)
    (field : string)
    (boundsIndexDict : gmap string (Bounds * QgsSpatialIndex)) (value : string)
  : Result (gmap string (Bounds * QgsSpatialIndex)) :=
  entry ← boundsAndIndexDict_value layer field value;
  Ok (<[value := entry]> boundsIndexDict).

Definition boundsAndIndexDict `{Host} (layer : QgsVectorLayer)
    (valueSet : list string) (field : string)
  : Result (gmap string (Bounds * QgsSpatialIndex)) :=
  foldM (boundsAndIndexDict_step layer field) ∅ valueSet.

(** ** [addAttributesDict] (lines 242-272) *)

(** Lines 267-270 for one [field]: the [try] covers the lookup and the
    conversion to float; the [except] clause redoes the lookup and converts
    to [str], and what it raises is not caught. *)
Definition addAttributesDict_field `{Host} (featureInstance : option QgsFeature)
    (attributesDictionary : gmap string AttrValue) (field : string)
  : Result (gmap string AttrValue) :=
  match (v ← getitem featureInstance field; py_float v) with
  | Ok x => Ok (<[field := Number x]> attributesDictionary)
  | Err _ =>
      v ← getitem featureInstance field;
      s ← py_str v;
      Ok (<[field := Text s]> attributesDictionary)
  end.

(** Lines 263-271 for one [key]. *)
Definition addAttributesDict_key `{Host} (layer : QgsVectorLayer)
    (vertexField : string) (layerFields : list string)
    (graphDictionary : gmap string Vertex) (key : string)
  : Result (gmap string Vertex) :=
  let expression := buildExpression vertexField key in
  featureInstance ← quickFilter layer expression;
  attributesDictionary ←
    foldM (addAttributesDict_field featureInstance) ∅ layerFields;
  vx ← dict_get graphDictionary key;
  Ok (<[key := mkVertex (edges vx) (Some attributesDictionary)]> graphDictionary).

(** The keys of a dict in iteration order. *)
Definition dict_keys {A} (d : gmap string A) : list string :=
  (map_to_list d).*1.

Definition addAttributesDict `{Host} (layer : QgsVectorLayer)
    (vertexField : string) (layerFields : list string)
    (graphDictionary : gmap string Vertex) : Result (gmap string Vertex) :=
  foldM (addAttributesDict_key layer vertexField layerFields)
        graphDictionary (dict_keys graphDictionary).

(** ** [buildGraph] (lines 292-317) *)

Definition buildGraph `{Host} (layer : QgsVectorLayer) (field : string)
  : Result (gmap string Vertex) :=
  '(allFeatures, fieldValues, graphDict, layerFields) ←
    processParameters layer field;
  bdsIdxDict ← boundsAndIndexDict layer fieldValues field;
  graphDict ← findEdges fieldValues bdsIdxDict graphDict allFeatures;
  addAttributesDict layer field layerFields graphDict.

(** ** [nxEdgeTuples] (lines 340-354) and [nxGraph] (lines 320-337) *)

Definition nxEdgeTuples (vertex : string) (edgeList : list string)
  : list (string * string) :=
  fold_left (fun edgeTuples edge => edgeTuples ++ [(vertex, edge)]) edgeList [].

(** networkx API: [nx.Graph()] is an undirected graph without parallel
    edges.  [nx_node] is its dictionary [graph.node], from a node to the
    attribute dictionary of the node, of which the script sets only the key
    ['attributes'] ([None] while that key is absent); [nx_adj] is its
    dictionary [graph.adj], from a node to its neighbours (the edges carry
    no data here). *)
Record NxGraph := mkNx {
  nx_node : gmap string (option (gmap string AttrValue));
  nx_adj : gmap string (gset string)
}.

Definition nx_Graph : NxGraph := mkNx ∅ ∅.

(** [graph.adj[n]], empty for a node the graph does not have. *)
Definition neighbours (graph : NxGraph) (n : string) : gset string :=
  default ∅ (nx_adj graph !! n).

(** networkx API: [graph.add_node(n)] gives a new node an empty attribute
    dictionary and an empty neighbour dictionary, and leaves a node the
    graph already has as it is. *)
Definition add_node (graph : NxGraph) (n : string) : NxGraph :=
  match nx_node graph !! n with
  | Some _ => graph
  | None => mkNx (<[n := None]> (nx_node graph)) (<[n := ∅]> (nx_adj graph))
  end.

(** networkx API: one step of [graph.add_edges_from(ebunch)] for the tuple
    [(u, v)]: both ends become nodes if they are not, then
    [adj[u][v] = {}] and [adj[v][u] = {}]. *)
Definition add_edge (graph : NxGraph) (e : string * string) : NxGraph :=
  let '(u, v) := e in
  let graph := add_node (add_node graph u) v in
  let adj1 := <[u := neighbours graph u ∪ {[v]}]> (nx_adj graph) in
  let adj2 := <[v := default ∅ (adj1 !! v) ∪ {[u]}]> adj1 in
  mkNx (nx_node graph) adj2.

Definition add_edges_from (graph : NxGraph) (ebunch : list (string * string))
  : NxGraph :=
  fold_left add_edge ebunch graph.

(** Lines 332-335 for one item of [graphDict.iteritems()].  On line 335
    [data['attributes']] is evaluated first. *)
Definition nxGraph_item (graph : NxGraph) (item : string * Vertex)
  : Result NxGraph :=
  let '(vertex, data) := item in
  let graph := add_node graph vertex in
  let edgeList := nxEdgeTuples vertex (edges data) in
  let graph := add_edges_from graph edgeList in
  attrs ← match attributes data with
          | Some attrs => Ok attrs
          | None => Err (KeyError (KStr "attributes"))
          end;
  _ ← dict_get (nx_node graph) vertex;
  Ok (mkNx (<[vertex := Some attrs]> (nx_node graph)) (nx_adj graph)).

Definition nxGraph (graphDict : gmap string Vertex) : Result NxGraph :=
  foldM nxGraph_item nx_Graph (map_to_list graphDict).

(** ** [runInputs] (lines 362-365) *)

(** The graph that [runInputs] hands to [pickleDump]; the writing of the
    file is not modelled. *)
Definition runInputs `{Host} (vector : QgsVectorLayer) (field : string)
  : Result NxGraph :=
  graph ← buildGraph vector field;
  nxGraph graph.

(** ** Notions used in the statements *)

(** What lines 267-270 store for the value [v] of a field. *)
Definition storedValue `{Host} (v : QVariant) : Result AttrValue :=
  match py_float v with
  | Ok x => Ok (Number x)
  | Err _ => s ← py_str v; Ok (Text s)
  end.

(** How many times [b] occurs in the edge list of vertex [a]. *)
Definition edgeCount (graphDict : gmap string Vertex) (a b : string) : nat :=
  match graphDict !! a with
  | Some vx => count_occ String.string_dec (edges vx) b
  | None => 0
  end.

(** [(a, b)] is one of the two list entries a call
    [updateEdges(d, v1, v2)] appends: [v2] to the list of [v1], or [v1] to
    the list of [v2]. *)
Definition entryOf (a b v1 v2 : string) : Prop :=
  (a = v1 /\ b = v2) \/ (a = v2 /\ b = v1).

(** No candidate pair of the two identifier lists intersects. *)
Definition noHit `{Host} (features : gmap Z QgsFeature) (ids1 ids2 : list Z)
  : Prop :=
  forall id1 id2 f1 f2,
    In id1 ids1 -> In id2 ids2 ->
    features !! id1 = Some f1 -> features !! id2 = Some f2 ->
    geom_intersects (geometry f2) (geometry f1) = false.

(** [g'] has the keys of [g], and every edge list of [g'] mentions every
    key at least as often as the list in [g]. *)
Definition grows (g g' : gmap string Vertex) : Prop :=
  (forall k, is_Some (g' !! k) <-> is_Some (g !! k)) /\
  (forall a b, edgeCount g a b <= edgeCount g' a b).

(** What [boundsAndIndexDict] stores for a value: bounds with
    [xMin <= xMax] and [yMin <= yMax], and an index of features of the
    layer, one of which has a box meeting the rectangle of the bounds. *)
Definition goodEntry (layer : QgsVectorLayer) (entry : Bounds * QgsSpatialIndex)
  : Prop :=
  let '(B, index) := entry in
  (b0 B <= b2 B)%Q /\ (b1 B <= b3 B)%Q /\
  (forall e, In e index ->
     exists f, In f (getFeatures layer) /\ e = (fid f, boundingBox (geometry f))) /\
  (exists f, In f (getFeatures layer) /\
             In (fid f, boundingBox (geometry f)) index /\
             rect_intersects (boundingBox (geometry f))
                             (mkRect (b0 B) (b1 B) (b2 B) (b3 B)) = true).

(** Every identifier of the list is a key of [features]. *)
Definition knownIds (features : gmap Z QgsFeature) (ids : list Z) : Prop :=
  forall id, In id ids -> is_Some (features !! id).

(** Both values are keys of the graph dictionary. *)
Definition hasKeys (v1 v2 : string) (d : gmap string Vertex) : Prop :=
  is_Some (d !! v1) /\ is_Some (d !! v2).

(** One evaluation of the ordered pair [(value1, value2)]: lines 142-144 and
    the body of the inner loop. *)
Definition findEdges_at `{Host}
    (boundsIndexDict : gmap string (Bounds * QgsSpatialIndex))
    (features : gmap Z QgsFeature)
    (graphDict : gmap string Vertex) (pair : string * string)
  : Result (gmap string Vertex) :=
  '(bounds, index1) ← dict_get boundsIndexDict pair.1;
  findEdges_pair boundsIndexDict features pair.1 bounds index1
                 (rectangleOf bounds) graphDict pair.2.

(** Every value of the set is a key of the graph dictionary. *)
Definition allKeys (valueSet : list string) (d : gmap string Vertex) : Prop :=
  forall w, In w valueSet -> is_Some (d !! w).

(** ** A small host, for running the script on concrete layers *)

Module SmallHost.

(** Exact for axis-parallel rectangles, the only polygons of the examples:
    two of them intersect when their boxes do. *)
Definition box_intersects (g1 g2 : QgsGeometry) : bool :=
  rect_intersects (boundingBox g1) (boundingBox g2).

Fixpoint split_eq (l : list ascii) : option (list ascii * list ascii) :=
  match l with
  | [] => None
  | c :: l' =>
      if Ascii.eqb c "="%char then Some ([], l')
      else match split_eq l' with
           | Some (a, b) => Some (c :: a, b)
           | None => None
           end
  end.

Definition pyfloat_eqb (a b : pyfloat) : bool :=
  match a, b with
  | PFinite p, PFinite q => Qeq_bool p q
  | PInf s, PInf t => Bool.eqb s t
  | _, _ => false
  end.

(** [column = 'text']: NULL compares false, numbers by their decimal form. *)
Definition eq_text (column lit : string) (f : QgsFeature) : EvalResult :=
  match assoc column (attrs f) with
  | None => EvalError ("Column not found: " +:+ column)
  | Some (VString s) => EvalValue (String.eqb s lit)
  | Some (VInt n) => EvalValue (String.eqb (pretty n) lit)
  | Some _ => EvalValue false
  end.

(** [column = number]: both sides are compared as numbers. *)
Definition eq_number (column : string) (x : pyfloat) (f : QgsFeature)
  : EvalResult :=
  match assoc column (attrs f) with
  | None => EvalError ("Column not found: " +:+ column)
  | Some v =>
      match py_float v with
      | Ok y => EvalValue (pyfloat_eqb x y)
      | Err _ => EvalValue false
      end
  end.

(** Parses the two forms [buildExpression] writes; a quote inside the
    quoted text ends the literal early and is a syntax error. *)
Definition parse (text : string) : QgsExpression :=
  let bad := mkExpression true "syntax error" (fun _ => EvalError "syntax error") in
  match split_eq (String.list_ascii_of_string text) with
  | None => bad
  | Some (col, rhs) =>
      let column := String.string_of_list_ascii col in
      match rhs, rev (tail rhs) with
      | "'"%char :: _, "'"%char :: inner =>
          let lit := rev inner in
          if existsb (Ascii.eqb "'"%char) lit then bad
          else mkExpression false "" (eq_text column (String.string_of_list_ascii lit))
      | _, _ =>
          match float_of_string (String.string_of_list_ascii rhs) with
          | Ok x => mkExpression false "" (eq_number column x)
          | Err _ => bad
          end
      end
  end.

(** Exact for integral values only; no example formats another float. *)
Definition show_float (d : pyfloat) : string :=
  match d with
  | PFinite q => pretty (Qnum q / Z.pos (Qden q))%Z +:+ ".0"
  | PInf false => "inf"
  | PInf true => "-inf"
  | PNaN => "nan"
  end.

#[export] Instance host : Host := {|
  geom_intersects := box_intersects;
  parseExpression := parse;
  float_str := show_float
|}.

(** The axis-parallel square of side 1 with lower left corner [(x, y)],
    its ring starting (and ending) at the corner number [start], counted
    counter-clockwise from the lower left one. *)
Definition corners (x y : Q) : list QgsPoint :=
  [mkPoint x y; mkPoint (x + 1) y; mkPoint (x + 1) (y + 1); mkPoint x (y + 1)].

Definition square (x y : Z) (start : nat) : QgsGeometry :=
  let cs := corners (inject_Z x) (inject_Z y) in
  let ring := drop start cs ++ take start cs in
  Polygon [ring ++ take 1 ring].

Definition feature (id : Z) (name : string) (g : QgsGeometry) : QgsFeature :=
  mkFeature id [("name", VString name)] g.

End SmallHost.

Import SmallHost.

(** ** Example layers *)

Definition unit_square : QgsGeometry :=
  Polygon [[mkPoint 0 0; mkPoint 1 0; mkPoint 1 1; mkPoint 0 1; mkPoint 0 0]].

Import SmallHost.

(** Two corner-touching squares, one per group. *)
Definition layer_ab : QgsVectorLayer :=
  mkLayer [feature 1 "a" (square 0 0 2); feature 2 "b" (square 1 1 0)] ["name"].

(** Group "x" has two disjoint squares; the only square of group "y" touches
    the second one at the corner (4, 1). *)
Definition layer_xy : QgsVectorLayer :=
  mkLayer [feature 1 "x" (square 0 0 0); feature 2 "x" (square 3 0 2);
           feature 3 "y" (square 4 1 0)] ["name"].

(** A feature whose grouping attribute is NULL. *)
Definition layer_null : QgsVectorLayer :=
  mkLayer [mkFeature 1 [("name", VNull)] unit_square] ["name"].

(** A feature whose geometry is not a polygon. *)
Definition layer_point : QgsVectorLayer :=
  mkLayer [feature 1 "a" (NotPolygon (mkRect 2 2 2 2))] ["name"].

(** Attribute values that look like a number and that do not. *)
Definition layer_attrs : QgsVectorLayer :=
  mkLayer [mkFeature 1 [("name", VString "a"); ("code", VString "42");
                        ("side", VString "north")] unit_square]
          ["name"; "code"; "side"].

(** The spec's three squares: "a" and "b" touch at the corner (1, 1), "c"
    is apart from both. *)
Definition layer_abc : QgsVectorLayer :=
  mkLayer [feature 1 "a" (square 0 0 2); feature 2 "b" (square 1 1 0);
           feature 3 "c" (square 5 5 0)] ["name"].

(** What [processParameters] and [boundsAndIndexDict] build for [layer_abc]
    (see [layer_abc_parameters] and [layer_abc_bounds]). *)
Definition features_abc : gmap Z QgsFeature :=
  {[ 1%Z := feature 1 "a" (square 0 0 2); 2%Z := feature 2 "b" (square 1 1 0);
     3%Z := feature 3 "c" (square 5 5 0) ]}.

Definition graph_abc : gmap string Vertex :=
  {[ "a" := mkVertex [] None; "b" := mkVertex [] None; "c" := mkVertex [] None ]}.

Definition bounds_abc : gmap string (Bounds * QgsSpatialIndex) :=
  {[ "a" := (mkBounds 1 1 1 1, [(1%Z, mkRect 0 0 1 1)]);
     "b" := (mkBounds 1 1 1 1, [(2%Z, mkRect 1 1 2 2)]);
     "c" := (mkBounds 5 5 5 5, [(3%Z, mkRect 5 5 6 6)]) ]}.

(** Both squares of group "x" touch the only square of group "y". *)
Definition layer_xxy : QgsVectorLayer :=
  mkLayer [feature 1 "x" (square 3 0 2); feature 2 "x" (square 3 1 1);
           feature 3 "y" (square 4 1 0)] ["name"].

(** The exception a generator ends with, if any. *)
Fixpoint raised {A} (g : Gen A) : option PyError :=
  match g with
  | GStop => None
  | GRaise e => Some e
  | GYield _ rest => raised rest
  end.

(** [bool(exp.evaluate(feature))] when the evaluation has no error. *)
Definition truthy (exp : QgsExpression) (feature : QgsFeature) : bool :=
  match evaluate exp feature with
  | EvalValue b => b
  | EvalError _ => false
  end.

(** The evaluation of [exp] on [feature] has no error. *)
Definition evaluates (exp : QgsExpression) (feature : QgsFeature) : Prop :=
  exists b, evaluate exp feature = EvalValue b.

(** The rectangle [rb] encloses the point [p]. *)
Definition encloses (rb : Bounds) (p : QgsPoint) : Prop :=
  (b0 rb <= pt_x p <= b2 rb)%Q /\ (b1 rb <= pt_y p <= b3 rb)%Q.

(** 1 when the candidate pair [(id1, id2)] passes the exact test of line
    164, else 0. *)
Definition hit `{Host} (features : gmap Z QgsFeature) (id1 id2 : Z) : nat :=
  match features !! id1, features !! id2 with
  | Some feature1, Some feature2 =>
      if geom_intersects (geometry feature2) (geometry feature1) then 1 else 0
  | _, _ => 0
  end.

(** The number of candidate pairs that pass the exact test. *)
Definition hitsOf `{Host} (features : gmap Z QgsFeature) (ids1 ids2 : list Z)
  : nat :=
  list_sum (map (fun id1 => list_sum (map (hit features id1) ids2)) ids1).

(** The number of intersecting candidate pairs in the evaluation of the
    ordered pair [(value1, value2)]: none when the prefilter fails. *)
Definition pairHits `{Host}
    (boundsIndexDict : gmap string (Bounds * QgsSpatialIndex))
    (features : gmap Z QgsFeature) (value1 value2 : string) : nat :=
  match boundsIndexDict !! value1, boundsIndexDict !! value2 with
  | Some (bounds, index1), Some (tempBounds, index2) =>
      if prefilter bounds tempBounds then
        let rectangle3 := smallRectangle bounds tempBounds in
        hitsOf features (index_intersects index1 rectangle3)
                        (index_intersects index2 rectangle3)
      else 0
  | _, _ => 0
  end.

(** How many entries [b] one call [updateEdges(d, v1, v2)] appends to the
    edge list of [a]. *)
Definition entryWeight (a b v1 v2 : string) : nat :=
  (if decide (a = v1 /\ b = v2) then 1 else 0)
  + (if decide (a = v2 /\ b = v1) then 1 else 0).

(** The graph dictionary [d] is [g] with entries appended to its edge
    lists, all of them taken from [values]: same keys, same attributes,
    and every edge list of [g] is the beginning of the list in [d]. *)
Definition appendedFrom (values : list string) (g d : gmap string Vertex)
  : Prop :=
  forall k,
    match g !! k with
    | None => d !! k = None
    | Some vx =>
        exists added,
          d !! k = Some (mkVertex (edges vx ++ added) (attributes vx)) /\
          Forall (fun w => In w values) added
    end.

(** Every edge list mentions [b] for [a] as often as [a] for [b]. *)
Definition symmetricEdges (d : gmap string Vertex) : Prop :=
  forall a b, edgeCount d a b = edgeCount d b a.

(** [key] is the string of the value of [field] on the feature [f]. *)
Definition valueOf `{Host} (field : string) (f : QgsFeature) (key : string)
  : Prop :=
  exists x, assoc field (attrs f) = Some x /\ py_str x = Ok key.

(** The entry of the spatial index for a feature. *)
Definition indexEntry (f : QgsFeature) : Z * QgsRectangle :=
  (fid f, boundingBox (geometry f)).

(** The point [p] lies in the rectangle [r]. *)
Definition inRect (r : QgsRectangle) (p : QgsPoint) : Prop :=
  (xMinimum r <= pt_x p <= xMaximum r)%Q /\
  (yMinimum r <= pt_y p <= yMaximum r)%Q.

(** The bounds [inner] lie within the bounds [outer]. *)
Definition within (inner outer : Bounds) : Prop :=
  (b0 outer <= b0 inner)%Q /\ (b2 inner <= b2 outer)%Q /\
  (b1 outer <= b1 inner)%Q /\ (b3 inner <= b3 outer)%Q.

(** The two dictionaries of a networkx graph have the same keys: no node
    without attribute dictionary has a neighbour dictionary. *)
Definition consistent (graph : NxGraph) : Prop :=
  forall n, nx_node graph !! n = None -> nx_adj graph !! n = None.

(** [graph'] has the nodes of [graph] with their attribute dictionaries,
    and the nodes of [new] besides, those with an empty dictionary. *)
Definition nodesAdded (new : list string) (graph graph' : NxGraph) : Prop :=
  (forall m a, nx_node graph !! m = Some a -> nx_node graph' !! m = Some a) /\
  (forall m, nx_node graph !! m = None ->
             nx_node graph' !! m = if decide (m ∈ new) then Some None else None).

(** Some edge list of [items] names [n]. *)
Definition mentioned (items : list (string * Vertex)) (n : string) : Prop :=
  exists k vx, (k, vx) ∈ items /\ n ∈ edges vx.

(** A graph dictionary with a repeated entry and with an entry "r" that is
    no key. *)
Definition graph_pqr : gmap string Vertex :=
  {[ "p" := mkVertex ["q"; "q"; "r"] (Some {[ "name" := Text "p" ]});
     "q" := mkVertex ["p"; "p"] (Some {[ "name" := Text "q" ]}) ]}.

(** * Properties *)

(** ** The error monad *)

Lemma bind_Ok_inv {A B} (m : Result A) (k : A -> Result B) (b : B) :
  m ≫= k = Ok b -> exists a, m = Ok a /\ k a = Ok b.
Proof. destruct m as [a|e]; [eauto | discriminate]. Qed.

Lemma bind_Ok {A B} (m : Result A) (k : A -> Result B) (a : A) :
  m = Ok a -> m ≫= k = k a.
Proof. now intros ->. Qed.

Lemma bind_Err {A B} (m : Result A) (k : A -> Result B) (e : PyError) :
  m = Err e -> m ≫= k = Err e.
Proof. now intros ->. Qed.

Lemma foldM_app {A S} (body : S -> A -> Result S) acc l1 l2 :
  foldM body acc (l1 ++ l2) = foldM body acc l1 ≫= fun acc' => foldM body acc' l2.
Proof.
  revert acc. induction l1 as [|a l1 IH]; intros acc; simpl; [reflexivity|].
  destruct (body acc a) as [acc'|e]; [apply IH | reflexivity].
Qed.

(** An invariant kept by every successful step holds at the end. *)
Lemma foldM_invariant {A S} (P : S -> Prop) (body : S -> A -> Result S) l :
  (forall acc a acc', In a l -> P acc -> body acc a = Ok acc' -> P acc') ->
  forall acc acc', P acc -> foldM body acc l = Ok acc' -> P acc'.
Proof.
  induction l as [|a l IH]; intros Hstep acc acc' HP; simpl.
  - now intros [= <-].
  - intros H. apply bind_Ok_inv in H as (acc1 & H1 & H).
    eapply IH; [| |exact H].
    + intros; eapply Hstep; eauto. now right.
    + eapply Hstep; eauto. now left.
Qed.

(** ** Comparisons, [min] and [max] *)

Lemma Qlt_bool_true a b : Qlt_bool a b = true -> (a < b)%Q.
Proof.
  unfold Qlt_bool. intros E. apply negb_true_iff in E.
  apply Qnot_le_lt. intros L. apply Qle_bool_iff in L. congruence.
Qed.

Lemma Qlt_bool_false a b : Qlt_bool a b = false -> (b <= a)%Q.
Proof.
  unfold Qlt_bool. intros E. apply negb_false_iff in E.
  now apply Qle_bool_iff.
Qed.

Ltac case_lt a b :=
  let E := fresh "E" in
  destruct (Qlt_bool a b) eqn:E;
  [apply Qlt_bool_true in E | apply Qlt_bool_false in E].

Lemma min_from_le_init m l : (min_from m l <= m)%Q.
Proof.
  revert m. induction l as [|v l IH]; intros m; simpl; [lra|].
  case_lt v m; [specialize (IH v) | specialize (IH m)]; lra.
Qed.

Lemma min_from_le_elem m l v : In v l -> (min_from m l <= v)%Q.
Proof.
  revert m. induction l as [|w l IH]; intros m; simpl; [tauto|].
  intros [->|Hin]; [|now apply IH].
  case_lt v m.
  - apply min_from_le_init.
  - eapply Qle_trans; [apply min_from_le_init | exact E].
Qed.

Lemma min_from_attained m l : min_from m l = m \/ In (min_from m l) l.
Proof.
  revert m. induction l as [|v l IH]; intros m; simpl; [now left|].
  destruct (Qlt_bool v m); [destruct (IH v) | destruct (IH m)]; auto.
Qed.

Lemma max_from_ge_init m l : (m <= max_from m l)%Q.
Proof.
  revert m. induction l as [|v l IH]; intros m; simpl; [lra|].
  case_lt m v; [specialize (IH v) | specialize (IH m)]; lra.
Qed.

Lemma max_from_ge_elem m l v : In v l -> (v <= max_from m l)%Q.
Proof.
  revert m. induction l as [|w l IH]; intros m; simpl; [tauto|].
  intros [->|Hin]; [|now apply IH].
  case_lt m v.
  - apply max_from_ge_init.
  - eapply Qle_trans; [exact E | apply max_from_ge_init].
Qed.

Lemma max_from_attained m l : max_from m l = m \/ In (max_from m l) l.
Proof.
  revert m. induction l as [|v l IH]; intros m; simpl; [now left|].
  destruct (Qlt_bool m v); [destruct (IH v) | destruct (IH m)]; auto.
Qed.

Lemma py_min_le l m v : py_min l = Ok m -> In v l -> (m <= v)%Q.
Proof.
  destruct l as [|w l]; simpl; [discriminate|].
  intros [= <-] [->|Hin].
  - apply min_from_le_init.
  - now apply min_from_le_elem.
Qed.

Lemma py_max_ge l m v : py_max l = Ok m -> In v l -> (v <= m)%Q.
Proof.
  destruct l as [|w l]; simpl; [discriminate|].
  intros [= <-] [->|Hin].
  - apply max_from_ge_init.
  - now apply max_from_ge_elem.
Qed.

Lemma py_min_attained l m : py_min l = Ok m -> In m l.
Proof.
  destruct l as [|w l]; simpl; [discriminate|].
  intros [= <-]. destruct (min_from_attained w l); [left; congruence | now right].
Qed.

Lemma py_max_attained l m : py_max l = Ok m -> In m l.
Proof.
  destruct l as [|w l]; simpl; [discriminate|].
  intros [= <-]. destruct (max_from_attained w l); [left; congruence | now right].
Qed.

(** ** [rectBounds] *)

Lemma rectBounds_points_in_ring0 (coordList : list (list QgsPoint)) idxs
    (acc pts : list QgsPoint) :
  foldM (fun pts i =>
           ring0 ← py_index coordList 0;
           p ← py_index ring0 i;
           Ok (pts ++ [p])) acc idxs = Ok pts ->
  forall p, In p pts ->
    In p acc \/ exists ring0 rest, coordList = ring0 :: rest /\ In p ring0.
Proof.
  revert acc. induction idxs as [|i idxs IH]; intros acc; simpl.
  - intros [= <-] p Hp. now left.
  - intros Hf p Hp.
    apply bind_Ok_inv in Hf as (acc1 & Hbody & Hf).
    apply bind_Ok_inv in Hbody as (r0 & Hr0 & Hbody).
    apply bind_Ok_inv in Hbody as (q & Hq & Hbody).
    destruct coordList as [|ring0 rest]; [discriminate|].
    injection Hr0 as <-. injection Hbody as <-.
    unfold py_index in Hq. destruct (nth_error ring0 i) as [q'|] eqn:Hnth; [|discriminate].
    injection Hq as <-.
    destruct (IH _ Hf p Hp) as [Hacc|Hr]; [|now right].
    apply in_app_or in Hacc as [Hacc|[<-|[]]]; [now left|].
    right. exists ring0, rest. split; [reflexivity|]. eapply nth_error_In; eauto.
Qed.

(** What [rectBounds] returns when it returns: the box of the points it
    read, all of them points of ring 0, and at least one. *)
Lemma rectBounds_ok geometry rb :
  rectBounds geometry = Ok rb ->
  exists ring0 rest p,
    asPolygon geometry = ring0 :: rest /\ In p ring0 /\
    (b0 rb <= pt_x p <= b2 rb)%Q /\ (b1 rb <= pt_y p <= b3 rb)%Q.
Proof.
  unfold rectBounds. destruct (rectBounds_points (asPolygon geometry)) as [pts|e] eqn:Hpts;
    [|discriminate]. cbn.
  destruct pts as [|p pts]; [discriminate|]. cbn. intros [= <-]. cbn.
  destruct (rectBounds_points_in_ring0 _ _ _ _ Hpts p) as [[]|(ring0 & rest & Hc & Hin)];
    [now left|].
  exists ring0, rest, p. repeat split; auto.
  - apply min_from_le_init.
  - apply max_from_ge_init.
  - apply min_from_le_init.
  - apply max_from_ge_init.
Qed.

(** C2 (the code departs from it).  [rectBounds] is to return the rectangle
    enclosing every vertex of the outer ring.  The loop of line 26 runs over
    the number of rings instead of the number of points of ring 0, so for a
    polygon without holes only the first vertex is read: the result is the
    degenerate rectangle at that vertex, and for the unit square the vertex
    (1, 1) lies outside the returned [0, 0, 0, 0]. *)
Theorem rectBounds_reads_first_vertex_only :
  (forall p ring,
      rectBounds (Polygon [p :: ring])
      = Ok (mkBounds (pt_x p) (pt_y p) (pt_x p) (pt_y p))) /\
  rectBounds unit_square = Ok (mkBounds 0 0 0 0) /\
  (exists p ring0 rest rb,
      asPolygon unit_square = ring0 :: rest /\ In p ring0 /\
      rectBounds unit_square = Ok rb /\ ~ (pt_x p <= b2 rb)%Q).
Proof.
  split; [reflexivity|]. split; [reflexivity|].
  exists (mkPoint 1 1), [mkPoint 0 0; mkPoint 1 0; mkPoint 1 1; mkPoint 0 1; mkPoint 0 0],
    [], (mkBounds 0 0 0 0).
  repeat split.
  - simpl. tauto.
  - simpl. lra.
Qed.

(** ** [smallRectangle] and the prefilter *)

Lemma rectangleOf_normal b :
  (b0 b <= b2 b)%Q -> (b1 b <= b3 b)%Q ->
  rectangleOf b = mkRect (b0 b) (b1 b) (b2 b) (b3 b).
Proof.
  intros Hx Hy. unfold rectangleOf, newQgsRectangle.
  case_lt (b2 b) (b0 b); [lra|]. case_lt (b3 b) (b1 b); [lra|]. reflexivity.
Qed.

Lemma rect_intersects_true r1 r2 :
  rect_intersects r1 r2 = true <->
  (xMinimum r1 <= xMaximum r2 /\ xMinimum r2 <= xMaximum r1 /\
   xMinimum r1 <= xMaximum r1 /\ xMinimum r2 <= xMaximum r2 /\
   yMinimum r1 <= yMaximum r2 /\ yMinimum r2 <= yMaximum r1 /\
   yMinimum r1 <= yMaximum r1 /\ yMinimum r2 <= yMaximum r2)%Q.
Proof.
  unfold rect_intersects.
  case_lt (xMinimum r2) (xMinimum r1); case_lt (xMaximum r1) (xMaximum r2);
    match goal with |- context [Qlt_bool ?a ?b] => case_lt a b end;
    try (split; [discriminate | intros; lra]);
    case_lt (yMinimum r2) (yMinimum r1); case_lt (yMaximum r1) (yMaximum r2);
    match goal with |- context [Qlt_bool ?a ?b] => case_lt a b end;
    try (split; [discriminate | intros; lra]);
    (split; [intros _; repeat split; lra | reflexivity]).
Qed.

(** C6, as amended.  For two bounds lists with [xMin <= xMax] and
    [yMin <= yMax] (as [boundsAndIndexDict] builds them) that pass the
    prefilter, [smallRectangle] is the rectangle with the larger of the two
    lower bounds and the smaller of the two upper bounds on each axis, and
    its lower bounds do not exceed its upper bounds; they may be equal. *)
Theorem smallRectangle_overlap (bounds1 bounds2 : Bounds) :
  (b0 bounds1 <= b2 bounds1)%Q -> (b1 bounds1 <= b3 bounds1)%Q ->
  (b0 bounds2 <= b2 bounds2)%Q -> (b1 bounds2 <= b3 bounds2)%Q ->
  prefilter bounds1 bounds2 = true ->
  smallRectangle bounds1 bounds2
  = mkRect (py_max2 (b0 bounds1) (b0 bounds2)) (py_max2 (b1 bounds1) (b1 bounds2))
           (py_min2 (b2 bounds1) (b2 bounds2)) (py_min2 (b3 bounds1) (b3 bounds2)) /\
  (xMinimum (smallRectangle bounds1 bounds2)
   <= xMaximum (smallRectangle bounds1 bounds2))%Q /\
  (yMinimum (smallRectangle bounds1 bounds2)
   <= yMaximum (smallRectangle bounds1 bounds2))%Q.
Proof.
  intros Hx1 Hy1 Hx2 Hy2 Hpre. unfold prefilter in Hpre.
  rewrite !rectangleOf_normal in Hpre by assumption.
  apply rect_intersects_true in Hpre. cbn in Hpre.
  assert (Hsmall : smallRectangle bounds1 bounds2
    = mkRect (py_max2 (b0 bounds1) (b0 bounds2)) (py_max2 (b1 bounds1) (b1 bounds2))
             (py_min2 (b2 bounds1) (b2 bounds2)) (py_min2 (b3 bounds1) (b3 bounds2))).
  { unfold smallRectangle, newQgsRectangle, py_max2, py_min2. simpl.
    case_lt (b0 bounds1) (b0 bounds2); case_lt (b2 bounds2) (b2 bounds1);
      (match goal with |- context [Qlt_bool ?a ?b] => case_lt a b end; [lra|]);
      case_lt (b1 bounds1) (b1 bounds2); case_lt (b3 bounds2) (b3 bounds1);
      (match goal with |- context [Qlt_bool ?a ?b] => case_lt a b end; [lra|]);
      reflexivity. }
  split; [exact Hsmall|]. rewrite Hsmall. cbn. unfold py_max2, py_min2. simpl.
  split.
  - case_lt (b0 bounds1) (b0 bounds2); case_lt (b2 bounds2) (b2 bounds1); lra.
  - case_lt (b1 bounds1) (b1 bounds2); case_lt (b3 bounds2) (b3 bounds1); lra.
Qed.

Lemma smallRectangle_overlap_witness :
  smallRectangle (mkBounds 0 0 2 2) (mkBounds 1 1 3 3) = mkRect 1 1 2 2.
Proof.
  pose proof (smallRectangle_overlap (mkBounds 0 0 2 2) (mkBounds 1 1 3 3)) as H.
  destruct H as [H _]; [simpl; lra | simpl; lra | simpl; lra | simpl; lra | reflexivity |].
  exact H.
Defined.

(** C6, as stated, fails: the bounding boxes of the corner-touching squares
    (0,0)-(1,1) and (1,1)-(2,2) pass the prefilter and their overlap is the
    single point (1,1), which has [xMin = xMax] and [yMin = yMax]. *)
Lemma smallRectangle_can_be_degenerate :
  prefilter (mkBounds 0 0 1 1) (mkBounds 1 1 2 2) = true /\
  smallRectangle (mkBounds 0 0 1 1) (mkBounds 1 1 2 2) = mkRect 1 1 1 1 /\
  ~ ((xMinimum (smallRectangle (mkBounds 0 0 1 1) (mkBounds 1 1 2 2))
      < xMaximum (smallRectangle (mkBounds 0 0 1 1) (mkBounds 1 1 2 2)))%Q /\
     (yMinimum (smallRectangle (mkBounds 0 0 1 1) (mkBounds 1 1 2 2))
      < yMaximum (smallRectangle (mkBounds 0 0 1 1) (mkBounds 1 1 2 2)))%Q).
Proof.
  split; [reflexivity|]. split; [reflexivity|].
  intros [H _]. vm_compute in H. discriminate H.
Qed.

(** ** [quickFilter] *)

Lemma quickFilter_loop_first exp pre f post :
  Forall (fun f' => evaluate exp f' = EvalValue false) pre ->
  evaluate exp f = EvalValue true ->
  quickFilter_loop exp (pre ++ f :: post) = Ok (Some f).
Proof.
  intros Hpre Hf. induction Hpre as [|f' pre Hf' _ IH]; simpl.
  - now rewrite Hf.
  - now rewrite Hf'.
Qed.

Lemma quickFilter_loop_none exp fs :
  Forall (fun f' => evaluate exp f' = EvalValue false) fs ->
  quickFilter_loop exp fs = Ok None.
Proof.
  intros Hfs. induction Hfs as [|f' fs Hf' _ IH]; simpl; [reflexivity|].
  now rewrite Hf'.
Qed.

(** C8, as amended.  For an expression without parser error, [quickFilter]
    returns the first feature, in the order of the layer, on which the
    expression evaluates to a true value (the features before it evaluating
    to a false value without error), and it returns [None], raising
    nothing, when the expression is false on every feature. *)
Theorem quickFilter_first_match_or_None layer exp :
  hasParserError exp = false ->
  (forall pre f post,
      getFeatures layer = pre ++ f :: post ->
      Forall (fun f' => evaluate exp f' = EvalValue false) pre ->
      evaluate exp f = EvalValue true ->
      quickFilter layer exp = Ok (Some f)) /\
  (Forall (fun f' => evaluate exp f' = EvalValue false) (getFeatures layer) ->
   quickFilter layer exp = Ok None).
Proof.
  intros Hparse. unfold quickFilter. rewrite Hparse. split.
  - intros pre f post -> Hpre Hf. now apply quickFilter_loop_first.
  - apply quickFilter_loop_none.
Qed.

Lemma quickFilter_first_match_or_None_witness :
  quickFilter layer_ab (buildExpression "name" "b")
  = Ok (Some (feature 2 "b" (square 1 1 0))) /\
  quickFilter layer_ab (buildExpression "name" "c") = Ok None.
Proof.
  assert (Hb : hasParserError (buildExpression "name" "b") = false)
    by (vm_compute; reflexivity).
  assert (Hc : hasParserError (buildExpression "name" "c") = false)
    by (vm_compute; reflexivity).
  split.
  - apply (proj1 (quickFilter_first_match_or_None layer_ab _ Hb)
             [feature 1 "a" (square 0 0 2)] (feature 2 "b" (square 1 1 0)) []).
    + reflexivity.
    + repeat constructor.
    + vm_compute; reflexivity.
  - apply (proj2 (quickFilter_first_match_or_None layer_ab _ Hc)).
    repeat constructor.
Defined.

(** C8, as stated, fails: on a layer where no feature has the value, the
    expression parses, evaluates to false on every feature, and
    [quickFilter] returns [None]; no error is raised. *)
Lemma quickFilter_no_match_is_not_an_error :
  hasParserError (buildExpression "name" "c") = false /\
  Forall (fun f => evaluate (buildExpression "name" "c") f = EvalValue false)
         (getFeatures layer_ab) /\
  quickFilter layer_ab (buildExpression "name" "c") = Ok None /\
  ~ (exists e, quickFilter layer_ab (buildExpression "name" "c") = Err e).
Proof.
  split; [vm_compute; reflexivity|]. split; [repeat constructor|].
  split; [vm_compute; reflexivity|].
  intros [e He]. vm_compute in He. discriminate He.
Qed.

(** ** [boundsAndIndexDict] *)

Section GroupConstruction.
Context `{Host}.

Lemma rectBounds_no_ring g : asPolygon g = [] -> rectBounds g = Err min_empty.
Proof. unfold rectBounds. now intros ->. Qed.

(** A loop over a generator that ends normally ran its body, successfully,
    on every yielded element. *)
Lemma forGen_ok_body {A S} (body : S -> A -> Result S) g acc acc' :
  forGen body acc g = Ok acc' ->
  forall a, In a (yielded g) -> exists s s', body s a = Ok s'.
Proof.
  revert acc. induction g as [| e | a0 rest IH]; intros acc; simpl.
  - tauto.
  - discriminate.
  - intros Hf a [<-|Hin].
    + apply bind_Ok_inv in Hf as (s' & Hb & _). eauto.
    + apply bind_Ok_inv in Hf as (s' & _ & Hf). eauto.
Qed.

Lemma boundsAndIndexDict_value_members layer field value entry :
  boundsAndIndexDict_value layer field value = Ok entry ->
  (exists f rest, filter layer (buildExpression field value) = GYield f rest) /\
  (forall feature,
      In feature (yielded (filter layer (buildExpression field value))) ->
      exists rb, rectBounds (geometry feature) = Ok rb).
Proof.
  unfold boundsAndIndexDict_value. intros Hv.
  apply bind_Ok_inv in Hv as ([[idx x] y] & Hloop & Hv). split.
  - destruct (filter layer (buildExpression field value)) as [| e | f rest]; simpl in Hloop.
    + injection Hloop as <- <- <-. discriminate Hv.
    + discriminate.
    + eauto.
  - intros feature Hin.
    destruct (forGen_ok_body _ _ _ _ Hloop feature Hin) as ([[i0 x0] y0] & s' & Hb).
    unfold boundsAndIndexDict_feature in Hb.
    apply bind_Ok_inv in Hb as (rb & Hrb & _). eauto.
Qed.

Lemma boundsAndIndexDict_value_empty layer field value :
  filter layer (buildExpression field value) = GStop ->
  boundsAndIndexDict_value layer field value = Err min_empty.
Proof. unfold boundsAndIndexDict_value. now intros ->. Qed.

Lemma boundsAndIndexDict_fold_other layer field vs d0 d v :
  foldM (boundsAndIndexDict_step layer field) d0 vs = Ok d ->
  ~ In v vs -> d !! v = d0 !! v.
Proof.
  revert d0. induction vs as [|w vs IH]; intros d0; simpl.
  - now intros [= <-].
  - intros Hf Hnin. apply bind_Ok_inv in Hf as (d1 & Hstep & Hf).
    apply bind_Ok_inv in Hstep as (entry & _ & [= <-]).
    rewrite (IH _ Hf) by tauto. apply lookup_insert_ne. intros ->. tauto.
Qed.

Lemma boundsAndIndexDict_fold_entries layer field vs d0 d :
  foldM (boundsAndIndexDict_step layer field) d0 vs = Ok d ->
  forall v, In v vs ->
    exists entry, boundsAndIndexDict_value layer field v = Ok entry /\
                  d !! v = Some entry.
Proof.
  revert d0. induction vs as [|w vs IH]; intros d0; simpl; [tauto|].
  intros Hf v Hin. apply bind_Ok_inv in Hf as (d1 & Hstep & Hf).
  apply bind_Ok_inv in Hstep as (entry & Hentry & [= <-]).
  destruct (in_dec String.string_dec v vs) as [Hvs|Hvs]; [eauto|].
  destruct Hin as [->|Hin]; [|tauto].
  exists entry. split; [assumption|].
  rewrite (boundsAndIndexDict_fold_other _ _ _ _ _ _ Hf Hvs).
  apply lookup_insert_eq.
Qed.

(** Every value of the set has its entry when the construction succeeds. *)
Lemma boundsAndIndexDict_entries layer valueSet field d :
  boundsAndIndexDict layer valueSet field = Ok d ->
  forall v, In v valueSet ->
    exists entry, boundsAndIndexDict_value layer field v = Ok entry /\
                  d !! v = Some entry.
Proof. apply boundsAndIndexDict_fold_entries. Qed.

Lemma boundsAndIndexDict_fold_prefix layer field pre d0 :
  (forall k, In k pre -> isOk (boundsAndIndexDict_value layer field k) = true) ->
  exists d, foldM (boundsAndIndexDict_step layer field) d0 pre = Ok d.
Proof.
  revert d0. induction pre as [|k pre IH]; intros d0 Hok; simpl; [eauto|].
  destruct (boundsAndIndexDict_value layer field k) as [entry|e] eqn:Hk.
  - rewrite (bind_Ok _ _ (<[k := entry]> d0))
      by (unfold boundsAndIndexDict_step; now rewrite Hk).
    apply IH. intros; apply Hok; now right.
  - specialize (Hok k (or_introl eq_refl)). rewrite Hk in Hok. discriminate.
Qed.

(** C10.  A key of the value set whose rebuilt equality expression
    matches no feature makes its pass of the loop fail on [min(x)] of the
    empty list, so no empty group is ever stored: the construction fails
    (with that very error once the keys before it have been processed),
    and a construction that succeeds has found, for every key, at least
    one matching feature. *)
Theorem boundsAndIndexDict_needs_a_match layer field valueSet :
  (forall key,
      In key valueSet ->
      filter layer (buildExpression field key) = GStop ->
      boundsAndIndexDict_value layer field key = Err min_empty /\
      (exists e, boundsAndIndexDict layer valueSet field = Err e) /\
      (forall pre post,
          valueSet = pre ++ key :: post ->
          (forall k, In k pre ->
                     isOk (boundsAndIndexDict_value layer field k) = true) ->
          boundsAndIndexDict layer valueSet field = Err min_empty)) /\
  (forall d,
      boundsAndIndexDict layer valueSet field = Ok d ->
      forall key, In key valueSet ->
        exists f rest, filter layer (buildExpression field key) = GYield f rest).
Proof.
  split.
  - intros key Hin Hstop.
    pose proof (boundsAndIndexDict_value_empty _ _ _ Hstop) as Hval.
    split; [exact Hval|]. split.
    + destruct (boundsAndIndexDict layer valueSet field) as [d|e] eqn:Hd; [|eauto].
      destruct (boundsAndIndexDict_entries _ _ _ _ Hd key Hin) as (entry & He & _).
      congruence.
    + intros pre post -> Hpre. unfold boundsAndIndexDict.
      rewrite foldM_app.
      destruct (boundsAndIndexDict_fold_prefix layer field pre ∅ Hpre) as (d1 & ->).
      rewrite (bind_Ok _ _ d1) by reflexivity. simpl.
      apply bind_Err. unfold boundsAndIndexDict_step. now rewrite Hval.
  - intros d Hd key Hin.
    destruct (boundsAndIndexDict_entries _ _ _ _ Hd key Hin) as (entry & He & _).
    now apply boundsAndIndexDict_value_members in He.
Qed.

End GroupConstruction.

(** ** Failures abort the run *)

Section Run.
Context `{Host}.

Lemma buildGraph_bounds_error layer field allFeatures fieldValues graphDict
    layerFields e :
  processParameters layer field
  = Ok (allFeatures, fieldValues, graphDict, layerFields) ->
  boundsAndIndexDict layer fieldValues field = Err e ->
  buildGraph layer field = Err e.
Proof. unfold buildGraph. intros -> Hb. cbn. now rewrite Hb. Qed.

Lemma buildGraph_parameters_error layer field e :
  processParameters layer field = Err e -> buildGraph layer field = Err e.
Proof. unfold buildGraph. now intros ->. Qed.

(** C9.  On a geometry without ring ([asPolygon()] is empty: an empty
    polygon or a geometry that is no polygon) [rectBounds] raises the
    [ValueError] of [min] on an empty list.  Nothing catches it: when
    such a feature is among those the scan of some observed value yields,
    [boundsAndIndexDict] does not return and the whole run ends with an
    error. *)
Theorem rectBounds_no_ring_aborts_run :
  (forall g, asPolygon g = [] -> rectBounds g = Err min_empty) /\
  (forall layer field allFeatures fieldValues graphDict layerFields value feature,
      processParameters layer field
      = Ok (allFeatures, fieldValues, graphDict, layerFields) ->
      In value fieldValues ->
      In feature (yielded (filter layer (buildExpression field value))) ->
      asPolygon (geometry feature) = [] ->
      (exists e, boundsAndIndexDict layer fieldValues field = Err e) /\
      (exists e, buildGraph layer field = Err e)).
Proof.
  split; [apply rectBounds_no_ring|].
  intros layer field allFeatures fieldValues graphDict layerFields value feature
         Hpp Hin Hy Hring.
  assert (Hb : exists e, boundsAndIndexDict layer fieldValues field = Err e).
  { destruct (boundsAndIndexDict layer fieldValues field) as [d|e] eqn:Hd; [|eauto].
    destruct (boundsAndIndexDict_entries _ _ _ _ Hd value Hin) as (entry & He & _).
    apply boundsAndIndexDict_value_members in He as [_ He].
    destruct (He feature Hy) as (rb & Hrb).
    rewrite (rectBounds_no_ring _ Hring) in Hrb. discriminate. }
  split; [exact Hb|]. destruct Hb as (e & Hb). exists e.
  eapply buildGraph_bounds_error; eauto.
Qed.

End Run.

Lemma rectBounds_no_ring_aborts_run_witness :
  rectBounds (NotPolygon (mkRect 2 2 2 2)) = Err min_empty /\
  exists e, buildGraph layer_point "name" = Err e.
Proof.
  split.
  - apply (proj1 rectBounds_no_ring_aborts_run). reflexivity.
  - assert (Hpp : processParameters layer_point "name"
                  = Ok ({[1%Z := feature 1 "a" (NotPolygon (mkRect 2 2 2 2))]},
                        ["a"], {["a" := mkVertex [] None]}, ["name"]))
      by (vm_compute; reflexivity).
    apply (proj2 rectBounds_no_ring_aborts_run layer_point "name" _ _ _ _ "a"
                 (feature 1 "a" (NotPolygon (mkRect 2 2 2 2))) Hpp).
    + simpl. tauto.
    + vm_compute. tauto.
    + reflexivity.
Defined.

Lemma boundsAndIndexDict_needs_a_match_witness :
  boundsAndIndexDict layer_null ["NULL"] "name" = Err min_empty.
Proof.
  assert (Hstop : filter layer_null (buildExpression "name" "NULL") = GStop)
    by (vm_compute; reflexivity).
  apply (proj2 (proj2 (proj1 (boundsAndIndexDict_needs_a_match layer_null "name" ["NULL"])
               "NULL" (or_introl eq_refl) Hstop)) [] []).
  - reflexivity.
  - intros k [].
Defined.

(** ** [addAttributesDict] *)

Section Attributes.
Context `{Host}.

Lemma addAttributesDict_field_ok featureInstance d field d' :
  addAttributesDict_field featureInstance d field = Ok d' ->
  exists feature v a,
    featureInstance = Some feature /\ assoc field (attrs feature) = Some v /\
    storedValue v = Ok a /\ d' = <[field := a]> d.
Proof.
  unfold addAttributesDict_field, storedValue.
  destruct featureInstance as [feature|]; simpl; [|discriminate].
  destruct (assoc field (attrs feature)) as [v|] eqn:Hv; simpl; [|discriminate].
  intros Hd. exists feature, v.
  destruct (py_float v) as [x|e]; simpl in *.
  - injection Hd as <-. eauto.
  - destruct (py_str v) as [s|e']; simpl in *; [|discriminate].
    injection Hd as <-. eauto.
Qed.

Lemma addAttributesDict_fields_other featureInstance fields d0 d field :
  foldM (addAttributesDict_field featureInstance) d0 fields = Ok d ->
  ~ In field fields -> d !! field = d0 !! field.
Proof.
  revert d0. induction fields as [|f fields IH]; intros d0; simpl.
  - now intros [= <-].
  - intros Hf Hnin. apply bind_Ok_inv in Hf as (d1 & Hstep & Hf).
    apply addAttributesDict_field_ok in Hstep as (feature & v & a & _ & _ & _ & ->).
    rewrite (IH _ Hf) by tauto. apply lookup_insert_ne. intros ->. tauto.
Qed.

Lemma addAttributesDict_fields_ok featureInstance fields d0 d :
  foldM (addAttributesDict_field featureInstance) d0 fields = Ok d ->
  forall field, In field fields ->
    exists feature v a,
      featureInstance = Some feature /\ assoc field (attrs feature) = Some v /\
      storedValue v = Ok a /\ d !! field = Some a.
Proof.
  revert d0. induction fields as [|f fields IH]; intros d0; simpl; [tauto|].
  intros Hf field Hin. apply bind_Ok_inv in Hf as (d1 & Hstep & Hf).
  destruct (in_dec String.string_dec field fields) as [Hrest|Hrest]; [eauto|].
  destruct Hin as [->|Hin]; [|tauto].
  apply addAttributesDict_field_ok in Hstep as (feature & v & a & Hfi & Hv & Ha & ->).
  exists feature, v, a. repeat split; auto.
  rewrite (addAttributesDict_fields_other _ _ _ _ _ Hf Hrest).
  apply lookup_insert_eq.
Qed.

Lemma addAttributesDict_key_ok layer vertexField layerFields g key g' :
  addAttributesDict_key layer vertexField layerFields g key = Ok g' ->
  exists vx featureInstance d,
    g !! key = Some vx /\
    quickFilter layer (buildExpression vertexField key) = Ok featureInstance /\
    foldM (addAttributesDict_field featureInstance) ∅ layerFields = Ok d /\
    g' = <[key := mkVertex (edges vx) (Some d)]> g.
Proof.
  unfold addAttributesDict_key. intros Hk.
  apply bind_Ok_inv in Hk as (featureInstance & Hq & Hk).
  apply bind_Ok_inv in Hk as (d & Hd & Hk).
  apply bind_Ok_inv in Hk as (vx & Hvx & Hk).
  unfold dict_get in Hvx. destruct (g !! key) as [vx0|] eqn:Hg; [|discriminate].
  injection Hvx as ->. injection Hk as <-. eauto 8.
Qed.

Lemma addAttributesDict_keys_other layer vertexField layerFields ks g g' k :
  foldM (addAttributesDict_key layer vertexField layerFields) g ks = Ok g' ->
  ~ In k ks -> g' !! k = g !! k.
Proof.
  revert g. induction ks as [|key ks IH]; intros g; simpl.
  - now intros [= <-].
  - intros Hf Hnin. apply bind_Ok_inv in Hf as (g1 & Hstep & Hf).
    apply addAttributesDict_key_ok in Hstep as (vx & fi & d & _ & _ & _ & ->).
    rewrite (IH _ Hf) by tauto. apply lookup_insert_ne. intros ->. tauto.
Qed.

Lemma addAttributesDict_keys_ok layer vertexField layerFields ks g g' :
  foldM (addAttributesDict_key layer vertexField layerFields) g ks = Ok g' ->
  forall k, In k ks ->
    exists vx featureInstance d,
      g !! k = Some vx /\
      quickFilter layer (buildExpression vertexField k) = Ok featureInstance /\
      foldM (addAttributesDict_field featureInstance) ∅ layerFields = Ok d /\
      g' !! k = Some (mkVertex (edges vx) (Some d)).
Proof.
  revert g. induction ks as [|key ks IH]; intros g; simpl; [tauto|].
  intros Hf k Hin. apply bind_Ok_inv in Hf as (g1 & Hstep & Hf).
  apply addAttributesDict_key_ok in Hstep as (vx & fi & d & Hvx & Hq & Hd & ->).
  destruct (in_dec String.string_dec k ks) as [Hrest|Hrest].
  - destruct (IH _ Hf k Hrest) as (vx1 & fi1 & d1 & Hvx1 & Hq1 & Hd1 & Hg').
    destruct (decide (key = k)) as [->|Hne].
    + rewrite lookup_insert_eq in Hvx1. injection Hvx1 as <-.
      exists vx, fi1, d1. auto.
    + rewrite lookup_insert_ne in Hvx1 by assumption.
      exists vx1, fi1, d1. auto.
  - destruct Hin as [->|Hin]; [|tauto].
    exists vx, fi, d. repeat split; auto.
    rewrite (addAttributesDict_keys_other _ _ _ _ _ _ _ Hf Hrest).
    apply lookup_insert_eq.
Qed.

Lemma dict_keys_In {A} (d : gmap string A) k : In k (dict_keys d) <-> is_Some (d !! k).
Proof.
  unfold dict_keys. rewrite <- list_elem_of_In, list_elem_of_fmap. split.
  - intros ([k' a] & -> & Hin). apply elem_of_map_to_list in Hin. simpl. eauto.
  - intros [a Ha]. exists (k, a). split; [reflexivity|]. now apply elem_of_map_to_list.
Qed.

(** When [addAttributesDict] returns, the graph has the same vertex keys
    and edge lists as before, and every vertex has an ['attributes']
    dictionary with an entry for every name of [layerFields]. *)
Lemma addAttributesDict_spec layer vertexField layerFields g g' :
  addAttributesDict layer vertexField layerFields g = Ok g' ->
  (forall key, is_Some (g' !! key) <-> is_Some (g !! key)) /\
  (forall key vx',
      g' !! key = Some vx' ->
      exists vx featureInstance attributesDictionary,
        g !! key = Some vx /\ edges vx' = edges vx /\
        quickFilter layer (buildExpression vertexField key) = Ok featureInstance /\
        attributes vx' = Some attributesDictionary /\
        forall field, In field layerFields ->
          exists feature v a,
            featureInstance = Some feature /\
            assoc field (attrs feature) = Some v /\
            attributesDictionary !! field = Some a /\
            match py_float v with
            | Ok x => a = Number x
            | Err _ => exists s, py_str v = Ok s /\ a = Text s
            end).
Proof.
  unfold addAttributesDict. intros Hf.
  assert (Hkeys : forall key, is_Some (g' !! key) <-> is_Some (g !! key)).
  { intros key. destruct (in_dec String.string_dec key (dict_keys g)) as [Hin|Hnin].
    - destruct (addAttributesDict_keys_ok _ _ _ _ _ _ Hf key Hin)
        as (vx & fi & d & Hvx & _ & _ & Hg').
      rewrite Hvx, Hg'. split; eauto.
    - now rewrite (addAttributesDict_keys_other _ _ _ _ _ _ _ Hf Hnin). }
  split; [exact Hkeys|].
  intros key vx' Hvx'.
  assert (Hin : In key (dict_keys g)) by (apply dict_keys_In, Hkeys; eauto).
  destruct (addAttributesDict_keys_ok _ _ _ _ _ _ Hf key Hin)
    as (vx & fi & d & Hvx & Hq & Hd & Hg').
  rewrite Hg' in Hvx'. injection Hvx' as <-.
  exists vx, fi, d. repeat split; auto.
  intros field Hfield.
  destruct (addAttributesDict_fields_ok _ _ _ _ Hd field Hfield)
    as (feature & v & a & Hfi & Hv & Ha & Hlk).
  exists feature, v, a. repeat split; auto.
  unfold storedValue in Ha. destruct (py_float v) as [x|e].
  - now injection Ha as <-.
  - destruct (py_str v) as [s|e']; [|discriminate]. injection Ha as <-. eauto.
Qed.

End Attributes.

(** ** Edge lists and [updateEdges] *)

Lemma appendEdge_ok d k v d' :
  appendEdge d k v = Ok d' ->
  exists vx, d !! k = Some vx /\
             d' = <[k := mkVertex (edges vx ++ [v]) (attributes vx)]> d.
Proof.
  unfold appendEdge, dict_get. destruct (d !! k) as [vx|]; simpl; [|discriminate].
  intros [= <-]. eauto.
Qed.

Lemma appendEdge_total d k v :
  is_Some (d !! k) -> exists d', appendEdge d k v = Ok d'.
Proof.
  intros [vx Hvx]. unfold appendEdge, dict_get. rewrite Hvx. simpl. eauto.
Qed.

Lemma appendEdge_keys d k v d' j :
  appendEdge d k v = Ok d' -> is_Some (d' !! j) <-> is_Some (d !! j).
Proof.
  intros (vx & Hvx & ->)%appendEdge_ok. destruct (decide (k = j)) as [->|Hne].
  - rewrite lookup_insert_eq, Hvx. split; eauto.
  - now rewrite lookup_insert_ne.
Qed.

Lemma appendEdge_count d k v d' a b :
  appendEdge d k v = Ok d' ->
  edgeCount d' a b
  = edgeCount d a b + (if decide (a = k /\ b = v) then 1 else 0).
Proof.
  intros (vx & Hvx & ->)%appendEdge_ok. unfold edgeCount.
  destruct (decide (k = a)) as [->|Hne].
  - rewrite lookup_insert_eq, Hvx. simpl. rewrite count_occ_app. simpl.
    destruct (String.string_dec v b) as [->|Hvb].
    + rewrite decide_True by auto. reflexivity.
    + rewrite decide_False by (intros [_ ->]; congruence). reflexivity.
  - rewrite lookup_insert_ne by assumption.
    rewrite decide_False by (intros [-> _]; congruence). lia.
Qed.

Lemma updateEdges_total d v1 v2 :
  is_Some (d !! v1) -> is_Some (d !! v2) -> exists d', updateEdges d v1 v2 = Ok d'.
Proof.
  intros H1 H2. unfold updateEdges.
  destruct (appendEdge_total d v1 v2 H1) as (d1 & Hd1). rewrite Hd1. simpl.
  apply appendEdge_total. now apply (appendEdge_keys _ _ _ _ v2 Hd1).
Qed.

Lemma updateEdges_keys d v1 v2 d' j :
  updateEdges d v1 v2 = Ok d' -> is_Some (d' !! j) <-> is_Some (d !! j).
Proof.
  unfold updateEdges. intros Hu. apply bind_Ok_inv in Hu as (d1 & H1 & H2).
  rewrite (appendEdge_keys _ _ _ _ j H2). apply (appendEdge_keys _ _ _ _ j H1).
Qed.

(** One call appends two entries: [v2] to the list of [v1] and [v1] to the
    list of [v2]; for [v1 = v2] both go to the same list. *)
Lemma updateEdges_count d v1 v2 d' a b :
  updateEdges d v1 v2 = Ok d' ->
  edgeCount d' a b
  = edgeCount d a b + (if decide (a = v1 /\ b = v2) then 1 else 0)
    + (if decide (a = v2 /\ b = v1) then 1 else 0).
Proof.
  unfold updateEdges. intros Hu. apply bind_Ok_inv in Hu as (d1 & H1 & H2).
  rewrite (appendEdge_count _ _ _ _ a b H2), (appendEdge_count _ _ _ _ a b H1).
  reflexivity.
Qed.

Lemma updateEdges_count_other d v1 v2 d' a b :
  updateEdges d v1 v2 = Ok d' -> ~ entryOf a b v1 v2 ->
  edgeCount d' a b = edgeCount d a b.
Proof.
  intros Hu Hno. rewrite (updateEdges_count _ _ _ _ a b Hu).
  unfold entryOf in Hno. rewrite !decide_False by tauto. lia.
Qed.

(** ** [findEdges]: what an evaluation of a pair of values can append *)

Lemma index_intersects_In index rect id :
  In id (index_intersects index rect) -> In id (map fst index).
Proof.
  unfold index_intersects. rewrite !in_map_iff.
  intros (e & He & Hin). apply filter_In in Hin as [Hin _]. eauto.
Qed.

Section Candidates.
Context `{Host}.
Variable features : gmap Z QgsFeature.

Lemma findEdges_candidates_keeps v1 v2 ids1 ids2 g g' a b :
  findEdges_candidates features v1 v2 ids1 ids2 g = Ok g' ->
  ~ entryOf a b v1 v2 \/ noHit features ids1 ids2 ->
  edgeCount g' a b = edgeCount g a b.
Proof.
  unfold findEdges_candidates, findEdges_row, findEdges_test. intros Hrun Hcond.
  eapply (foldM_invariant (fun d => edgeCount d a b = edgeCount g a b));
    [|reflexivity|exact Hrun].
  intros acc id1 acc' Hid1 Hacc Hstep.
  apply bind_Ok_inv in Hstep as (feature1 & Hf1 & Hstep).
  eapply (foldM_invariant (fun d => edgeCount d a b = edgeCount g a b));
    [|exact Hacc|exact Hstep].
  intros acc2 id2 acc2' Hid2 Hacc2 Hstep2.
  apply bind_Ok_inv in Hstep2 as (feature2 & Hf2 & Hstep2).
  destruct (geom_intersects (geometry feature2) (geometry feature1)) eqn:Hint.
  - destruct Hcond as [Hno|Hno].
    + now rewrite (updateEdges_count_other _ _ _ _ _ _ Hstep2 Hno).
    + unfold features_get in Hf1, Hf2.
      destruct (features !! id1) as [f1|] eqn:E1; [|discriminate].
      destruct (features !! id2) as [f2|] eqn:E2; [|discriminate].
      injection Hf1 as ->. injection Hf2 as ->.
      rewrite (Hno id1 id2 _ _ Hid1 Hid2 E1 E2) in Hint. discriminate.
  - now injection Hstep2 as <-.
Qed.

End Candidates.

Section DisjointGroups.
Context `{Host}.
Variable boundsIndexDict : gmap string (Bounds * QgsSpatialIndex).
Variable features : gmap Z QgsFeature.
Variables g1 g2 : string.
Variables (bounds1 bounds2 : Bounds) (index1 index2 : QgsSpatialIndex).
Hypothesis Hg1 : boundsIndexDict !! g1 = Some (bounds1, index1).
Hypothesis Hg2 : boundsIndexDict !! g2 = Some (bounds2, index2).
Hypothesis Hdisjoint :
  forall id1 id2 f1 f2,
    In id1 (map fst index1) -> In id2 (map fst index2) ->
    features !! id1 = Some f1 -> features !! id2 = Some f2 ->
    geom_intersects (geometry f1) (geometry f2) = false /\
    geom_intersects (geometry f2) (geometry f1) = false.

Lemma findEdges_pair_keeps a b v1 bounds idx1 g v2 g' :
  entryOf a b g1 g2 ->
  boundsIndexDict !! v1 = Some (bounds, idx1) ->
  findEdges_pair boundsIndexDict features v1 bounds idx1 (rectangleOf bounds) g v2
  = Ok g' ->
  edgeCount g' a b = edgeCount g a b.
Proof.
  intros Hab Hv1. unfold findEdges_pair. intros Hrun.
  apply bind_Ok_inv in Hrun as ([tempBounds idx2] & Hv2 & Hrun).
  unfold dict_get in Hv2.
  destruct (boundsIndexDict !! v2) as [entry2|] eqn:Ev2; [|discriminate].
  injection Hv2 as ->.
  destruct (rect_intersects (rectangleOf bounds) (rectangleOf tempBounds));
    [|now injection Hrun as <-].
  eapply findEdges_candidates_keeps; [exact Hrun|].
  destruct (decide (entryOf a b v1 v2)) as [Hentry|Hentry]; [right|now left].
  assert (Hcase : (v1 = g1 /\ v2 = g2) \/ (v1 = g2 /\ v2 = g1)).
  { unfold entryOf in *. destruct Hab as [[-> ->]|[-> ->]];
      destruct Hentry as [[<- <-]|[<- <-]]; auto. }
  intros id1 id2 f1 f2 Hid1 Hid2 Hf1 Hf2.
  apply index_intersects_In in Hid1, Hid2.
  destruct Hcase as [[-> ->]|[-> ->]].
  - rewrite Hg1 in Hv1. rewrite Hg2 in Ev2. injection Hv1 as <- <-.
    injection Ev2 as <- <-.
    now destruct (Hdisjoint id1 id2 f1 f2 Hid1 Hid2 Hf1 Hf2).
  - rewrite Hg2 in Hv1. rewrite Hg1 in Ev2. injection Hv1 as <- <-.
    injection Ev2 as <- <-.
    now destruct (Hdisjoint id2 id1 f2 f1 Hid2 Hid1 Hf2 Hf1).
Qed.

Lemma findEdges_outer_keeps valueSet a b st value1 st' :
  entryOf a b g1 g2 ->
  findEdges_outer valueSet boundsIndexDict features st value1 = Ok st' ->
  edgeCount (snd st') a b = edgeCount (snd st) a b.
Proof.
  intros Hab. destruct st as [valueSet2 g]. unfold findEdges_outer. intros Hrun.
  apply bind_Ok_inv in Hrun as (valueSet2' & _ & Hrun).
  apply bind_Ok_inv in Hrun as ([bounds idx1] & Hv1 & Hrun).
  apply bind_Ok_inv in Hrun as (g' & Hinner & Hrun).
  injection Hrun as <-. simpl.
  unfold dict_get in Hv1.
  destruct (boundsIndexDict !! value1) as [entry1|] eqn:Ev1; [|discriminate].
  injection Hv1 as ->.
  eapply (foldM_invariant (fun d => edgeCount d a b = edgeCount g a b));
    [|reflexivity|exact Hinner].
  intros acc value2 acc' _ Hacc Hstep. rewrite <- Hacc.
  eapply findEdges_pair_keeps; eauto.
Qed.

(** C4.  Let no member of the group [g1] intersect a member of the group
    [g2] (the members of a group being the features of its spatial index).
    Then [findEdges] appends no [g2] to the edge list of [g1] and no [g1]
    to the edge list of [g2]: the lists mention the other key exactly as
    often as before the call, not at all for the empty lists the script
    starts from.  Only a true exact intersection of two candidates reaches
    [updateEdges]; the prefilter and the index only select candidates. *)
Theorem findEdges_no_edge_between_disjoint_groups valueSet graphDict graphDict' :
  findEdges valueSet boundsIndexDict graphDict features = Ok graphDict' ->
  edgeCount graphDict' g1 g2 = edgeCount graphDict g1 g2 /\
  edgeCount graphDict' g2 g1 = edgeCount graphDict g2 g1.
Proof.
  unfold findEdges. intros Hrun.
  apply bind_Ok_inv in Hrun as ([valueSet2 g'] & Hrun & Hret).
  injection Hret as <-.
  assert (Hkeep : forall a b, entryOf a b g1 g2 ->
                              edgeCount g' a b = edgeCount graphDict a b).
  { intros a b Hab.
    apply (foldM_invariant
             (fun st => edgeCount (snd st) a b = edgeCount graphDict a b)
             _ _) with (acc := (valueSet, graphDict)) (acc' := (valueSet2, g'))
      in Hrun; [exact Hrun| |reflexivity].
    intros st value1 st' _ Hst Hstep. rewrite <- Hst.
    eapply findEdges_outer_keeps; eauto. }
  split; apply Hkeep; unfold entryOf; auto.
Qed.

End DisjointGroups.

(** ** Bounding boxes of the members of a group *)

Lemma pointsBox_encloses pts p :
  In p pts ->
  (xMinimum (pointsBox pts) <= pt_x p <= xMaximum (pointsBox pts))%Q /\
  (yMinimum (pointsBox pts) <= pt_y p <= yMaximum (pointsBox pts))%Q.
Proof.
  destruct pts as [|q pts]; [intros []|]. simpl. intros [->|Hin].
  - repeat split; first [apply min_from_le_init | apply max_from_ge_init].
  - repeat split;
      first [apply min_from_le_elem | apply max_from_ge_elem];
      now apply in_map.
Qed.

(** The box of a geometry on which [rectBounds] succeeds meets every
    rectangle that encloses what [rectBounds] returned. *)
Lemma boundingBox_meets g rb B :
  rectBounds g = Ok rb ->
  (b0 B <= b0 rb)%Q -> (b2 rb <= b2 B)%Q ->
  (b1 B <= b1 rb)%Q -> (b3 rb <= b3 B)%Q ->
  rect_intersects (boundingBox g) (mkRect (b0 B) (b1 B) (b2 B) (b3 B)) = true.
Proof.
  intros Hrb Hx0 Hx1 Hy0 Hy1.
  destruct (rectBounds_ok _ _ Hrb) as (ring0 & rest & p & Hpoly & Hp & Hpx & Hpy).
  destruct g as [rings|box]; simpl in Hpoly; [|discriminate]. subst rings. simpl.
  destruct (pointsBox_encloses _ _ Hp) as [Hbx Hby].
  apply rect_intersects_true. simpl. repeat split; lra.
Qed.

Lemma smallRectangle_self B :
  (b0 B <= b2 B)%Q -> (b1 B <= b3 B)%Q ->
  smallRectangle B B = mkRect (b0 B) (b1 B) (b2 B) (b3 B).
Proof.
  intros Hx Hy. unfold smallRectangle, newQgsRectangle, py_max2, py_min2. simpl.
  case_lt (b0 B) (b0 B); [lra|]. case_lt (b2 B) (b2 B); [lra|].
  case_lt (b1 B) (b1 B); [lra|]. case_lt (b3 B) (b3 B); [lra|].
  case_lt (b2 B) (b0 B); [lra|]. case_lt (b3 B) (b1 B); [lra|]. reflexivity.
Qed.

Lemma prefilter_self B :
  (b0 B <= b2 B)%Q -> (b1 B <= b3 B)%Q -> prefilter B B = true.
Proof.
  intros Hx Hy. unfold prefilter. rewrite rectangleOf_normal by assumption.
  apply rect_intersects_true. simpl. repeat split; lra.
Qed.

Lemma filter_loop_In exp fs f :
  In f (yielded (filter_loop exp fs)) -> In f fs.
Proof.
  induction fs as [|f0 fs IH]; simpl; [tauto|].
  destruct (evaluate exp f0) as [[|]|msg]; simpl; tauto.
Qed.

Lemma filter_In_layer layer exp f :
  In f (yielded (filter layer exp)) -> In f (getFeatures layer).
Proof.
  unfold filter. destruct (hasParserError exp); simpl; [tauto|].
  apply filter_loop_In.
Qed.

(** The state of the loop of lines 230-235 when it ends normally. *)
Lemma boundsAndIndexDict_scan g : forall idx x y idx' x' y',
  forGen boundsAndIndexDict_feature (idx, x, y) g = Ok (idx', x', y') ->
  (forall e, In e idx' ->
     In e idx \/ exists f, In f (yielded g) /\ e = (fid f, boundingBox (geometry f))) /\
  (forall f, In f (yielded g) ->
     In (fid f, boundingBox (geometry f)) idx' /\
     exists rb, rectBounds (geometry f) = Ok rb /\
                In (b0 rb) x' /\ In (b2 rb) x' /\ In (b1 rb) y' /\ In (b3 rb) y') /\
  (forall e, In e idx -> In e idx') /\
  (forall q, In q x -> In q x') /\ (forall q, In q y -> In q y').
Proof.
  induction g as [| e | f0 rest IH]; intros idx x y idx' x' y'; simpl.
  - intros [= <- <- <-]. split; [|split; [|split; [|split]]]; auto.
    intros f [].
  - discriminate.
  - intros Hrun. apply bind_Ok_inv in Hrun as ([[idx1 x1] y1] & Hstep & Hrun).
    unfold boundsAndIndexDict_feature in Hstep.
    apply bind_Ok_inv in Hstep as (rb & Hrb & Hstep).
    injection Hstep as <- <- <-.
    destruct (IH _ _ _ _ _ _ Hrun) as (Hidx' & Hmem & Hidx & Hx & Hy).
    unfold insertFeature in *. split; [|split; [|split; [|split]]].
    + intros e He. destruct (Hidx' e He) as [Hin|(f & Hf & ->)]; [|eauto].
      apply in_app_or in Hin as [Hin|[<-|[]]]; eauto.
    + intros f [<-|Hin]; [|now apply Hmem]. split.
      * apply Hidx, in_or_app. right. now left.
      * exists rb. split; [assumption|].
        repeat split; first [apply Hx | apply Hy]; apply in_or_app; right;
          simpl; auto.
    + intros e He. apply Hidx, in_or_app. now left.
    + intros q Hq. apply Hx, in_or_app. now left.
    + intros q Hq. apply Hy, in_or_app. now left.
Qed.

Lemma boundsAndIndexDict_value_good `{Host} layer field value entry :
  boundsAndIndexDict_value layer field value = Ok entry -> goodEntry layer entry.
Proof.
  intros Hentry.
  destruct (boundsAndIndexDict_value_members _ _ _ _ Hentry) as [(f & rest & Hgen) _].
  unfold boundsAndIndexDict_value in Hentry.
  apply bind_Ok_inv in Hentry as ([[idx x] y] & Hloop & Hentry).
  apply bind_Ok_inv in Hentry as (xmin & Hxmin & Hentry).
  apply bind_Ok_inv in Hentry as (ymin & Hymin & Hentry).
  apply bind_Ok_inv in Hentry as (xmax & Hxmax & Hentry).
  apply bind_Ok_inv in Hentry as (ymax & Hymax & Hentry).
  injection Hentry as <-.
  destruct (boundsAndIndexDict_scan _ _ _ _ _ _ _ Hloop) as (Hidx & Hmem & _).
  assert (Hf : In f (yielded (filter layer (buildExpression field value))))
    by (rewrite Hgen; now left).
  destruct (Hmem f Hf) as (Hfidx & rb & Hrb & Hx0 & Hx1 & Hy0 & Hy1).
  pose proof (py_min_le _ _ _ Hxmin Hx0). pose proof (py_max_ge _ _ _ Hxmax Hx1).
  pose proof (py_min_le _ _ _ Hymin Hy0). pose proof (py_max_ge _ _ _ Hymax Hy1).
  destruct (rectBounds_ok _ _ Hrb) as (ring0 & rest' & p & _ & _ & Hpx & Hpy).
  simpl. split; [lra|]. split; [lra|]. split.
  - intros e He. destruct (Hidx e He) as [[]|(f' & Hf' & ->)].
    exists f'. split; [|reflexivity]. eapply filter_In_layer; eauto.
  - exists f. split; [eapply filter_In_layer; eauto|]. split; [assumption|].
    apply (boundingBox_meets _ rb (mkBounds xmin ymin xmax ymax)); assumption.
Qed.

(** ** Growth of the graph dictionary *)

Lemma grows_refl g : grows g g.
Proof. split; [tauto|]. intros; lia. Qed.

Lemma grows_trans g1 g2 g3 : grows g1 g2 -> grows g2 g3 -> grows g1 g3.
Proof.
  intros [Hk1 Hc1] [Hk2 Hc2]. split.
  - intros k. rewrite Hk2. apply Hk1.
  - intros a b. specialize (Hc1 a b). specialize (Hc2 a b). lia.
Qed.

Lemma updateEdges_grows d v1 v2 d' :
  updateEdges d v1 v2 = Ok d' ->
  grows d d' /\ edgeCount d v1 v2 < edgeCount d' v1 v2.
Proof.
  intros Hu. split; [split|].
  - intros k. eapply updateEdges_keys; eauto.
  - intros a b. rewrite (updateEdges_count _ _ _ _ a b Hu). lia.
  - rewrite (updateEdges_count _ _ _ _ v1 v2 Hu).
    rewrite (decide_True (P := v1 = v1 /\ v2 = v2)) by auto. lia.
Qed.

(** A loop whose every step succeeds and keeps [Q] succeeds and keeps [Q]. *)
Lemma foldM_total {A S} (Q : S -> Prop) (body : S -> A -> Result S) l :
  (forall acc a, In a l -> Q acc -> exists acc', body acc a = Ok acc' /\ Q acc') ->
  forall acc, Q acc -> exists acc', foldM body acc l = Ok acc' /\ Q acc'.
Proof.
  induction l as [|a l IH]; intros Hstep acc HQ; simpl; [eauto|].
  destruct (Hstep acc a (or_introl eq_refl) HQ) as (acc1 & -> & HQ1). simpl.
  apply IH; [|assumption]. intros; apply Hstep; auto. now right.
Qed.

(** ** [findEdges] on the groups of a layer: it returns, and records self-loops *)

Section SelfLoops.
Context `{Host}.
Variable features : gmap Z QgsFeature.
Variables v1 v2 : string.


Lemma hasKeys_grows d d' : hasKeys v1 v2 d -> grows d d' -> hasKeys v1 v2 d'.
Proof. intros [K1 K2] [Hk _]. split; now apply Hk. Qed.

Lemma findEdges_test_total feature1 d id2 :
  is_Some (features !! id2) -> hasKeys v1 v2 d ->
  exists d', findEdges_test features v1 v2 feature1 d id2 = Ok d' /\ grows d d'.
Proof.
  intros [f2 Hf2] [K1 K2]. unfold findEdges_test, features_get. rewrite Hf2. simpl.
  destruct (geom_intersects (geometry f2) (geometry feature1)).
  - destruct (updateEdges_total d v1 v2 K1 K2) as (d' & Hd').
    exists d'. split; [assumption|]. now apply updateEdges_grows in Hd'.
  - exists d. split; [reflexivity | apply grows_refl].
Qed.

Lemma findEdges_tests_total feature1 ids2 d :
  knownIds features ids2 -> hasKeys v1 v2 d ->
  exists d', foldM (findEdges_test features v1 v2 feature1) d ids2 = Ok d' /\
             grows d d'.
Proof.
  intros Hknown Hkeyed.
  apply (foldM_total (fun d' => grows d d')); [|apply grows_refl].
  intros acc id2 Hid2 Hacc.
  destruct (findEdges_test_total feature1 acc id2) as (acc' & Hrun & Hgrow);
    [auto | eapply hasKeys_grows; eauto|].
  exists acc'. split; [assumption | eapply grows_trans; eauto].
Qed.

Lemma findEdges_row_total ids2 d id1 :
  knownIds features ids2 -> is_Some (features !! id1) -> hasKeys v1 v2 d ->
  exists d', findEdges_row features v1 v2 ids2 d id1 = Ok d' /\ grows d d'.
Proof.
  intros Hknown [f1 Hf1] Hkeyed. unfold findEdges_row, features_get.
  rewrite Hf1. simpl. now apply findEdges_tests_total.
Qed.

Lemma findEdges_candidates_total ids1 ids2 d :
  knownIds features ids1 -> knownIds features ids2 -> hasKeys v1 v2 d ->
  exists d', findEdges_candidates features v1 v2 ids1 ids2 d = Ok d' /\ grows d d'.
Proof.
  intros Hk1 Hk2 Hkeyed. unfold findEdges_candidates.
  apply (foldM_total (fun d' => grows d d')); [|apply grows_refl].
  intros acc id1 Hid1 Hacc.
  destruct (findEdges_row_total ids2 acc id1) as (acc' & Hrun & Hgrow);
    [auto | auto | eapply hasKeys_grows; eauto|].
  exists acc'. split; [assumption | eapply grows_trans; eauto].
Qed.

(** One intersecting candidate pair is enough for an entry to be appended. *)
Lemma findEdges_candidates_hit ids1 ids2 d id1 id2 f1 f2 :
  knownIds features ids1 -> knownIds features ids2 -> hasKeys v1 v2 d ->
  In id1 ids1 -> In id2 ids2 ->
  features !! id1 = Some f1 -> features !! id2 = Some f2 ->
  geom_intersects (geometry f2) (geometry f1) = true ->
  exists d', findEdges_candidates features v1 v2 ids1 ids2 d = Ok d' /\
             grows d d' /\ edgeCount d v1 v2 < edgeCount d' v1 v2.
Proof.
  intros Hk1 Hk2 Hkeyed Hid1 Hid2 Hf1 Hf2 Hint.
  apply in_split in Hid1 as (pre1 & post1 & ->).
  apply in_split in Hid2 as (pre2 & post2 & ->).
  assert (Hk1pre : knownIds features pre1) by (intros id Hid; apply Hk1, in_or_app; now left).
  assert (Hk1post : knownIds features post1)
    by (intros id Hid; apply Hk1, in_or_app; right; now right).
  assert (Hk2pre : knownIds features pre2) by (intros id Hid; apply Hk2, in_or_app; now left).
  assert (Hk2post : knownIds features post2)
    by (intros id Hid; apply Hk2, in_or_app; right; now right).
  unfold findEdges_candidates. rewrite foldM_app.
  destruct (findEdges_candidates_total pre1 (pre2 ++ id2 :: post2) d)
    as (da & Hda & Ga); auto.
  unfold findEdges_candidates in Hda. rewrite Hda. simpl.
  assert (Hrow : forall dx ids,
             findEdges_row features v1 v2 ids dx id1
             = foldM (findEdges_test features v1 v2 f1) dx ids)
    by (intros; unfold findEdges_row, features_get; now rewrite Hf1).
  assert (Htest : forall dx,
             findEdges_test features v1 v2 f1 dx id2 = updateEdges dx v1 v2)
    by (intros; unfold findEdges_test, features_get; rewrite Hf2; simpl;
        now rewrite Hint).
  rewrite Hrow, foldM_app.
  destruct (findEdges_tests_total f1 pre2 da) as (db & Hdb & Gb);
    [auto | eapply hasKeys_grows; eauto|].
  rewrite Hdb. simpl.
  rewrite Htest.
  assert (Kb : hasKeys v1 v2 db) by (eapply hasKeys_grows; [|exact Gb]; eapply hasKeys_grows; eauto).
  destruct (updateEdges_total db v1 v2 (proj1 Kb) (proj2 Kb)) as (dc & Hdc).
  rewrite Hdc. simpl. apply updateEdges_grows in Hdc as [Gc Hlt].
  destruct (findEdges_tests_total f1 post2 dc) as (dd & Hdd & Gd);
    [auto | eapply hasKeys_grows; eauto|].
  rewrite Hdd. simpl.
  destruct (findEdges_candidates_total post1 (pre2 ++ id2 :: post2) dd)
    as (de & Hde & Ge); [auto | auto | |].
  { eapply hasKeys_grows; [|exact Gd]. eapply hasKeys_grows; eauto. }
  unfold findEdges_candidates in Hde. exists de. split; [exact Hde|].
  assert (Gall : grows d dc)
    by (eapply grows_trans; [exact Ga|]; eapply grows_trans; eauto).
  split.
  - eapply grows_trans; [exact Gall|]. eapply grows_trans; eauto.
  - destruct Ga as [_ Ca], Gb as [_ Cb], Gd as [_ Cd], Ge as [_ Ce].
    specialize (Ca v1 v2). specialize (Cb v1 v2).
    specialize (Cd v1 v2). specialize (Ce v1 v2). lia.
Qed.

End SelfLoops.

Lemma set_remove_ok v s :
  In v s ->
  exists s', set_remove v s = Ok s' /\ forall w, In w s -> w <> v -> In w s'.
Proof.
  intros Hin. unfold set_remove.
  assert (Hex : existsb (String.eqb v) s = true).
  { apply existsb_exists. exists v. split; [assumption | apply String.eqb_refl]. }
  rewrite Hex. eexists. split; [reflexivity|].
  intros w Hw Hne. apply filter_In. split; [assumption|].
  apply negb_true_iff, String.eqb_neq. congruence.
Qed.

Section GroupsOfALayer.
Context `{Host}.
Variable layer : QgsVectorLayer.
Variable field : string.
Variable valueSet : list string.
Variable boundsIndexDict : gmap string (Bounds * QgsSpatialIndex).
Variable features : gmap Z QgsFeature.
Hypothesis Hbounds : boundsAndIndexDict layer valueSet field = Ok boundsIndexDict.
Hypothesis Hfeatures :
  forall f, In f (getFeatures layer) -> features !! fid f = Some f.
Hypothesis Hself :
  forall f, In f (getFeatures layer) ->
            geom_intersects (geometry f) (geometry f) = true.

Lemma valueSet_entry v :
  In v valueSet ->
  exists entry, boundsIndexDict !! v = Some entry /\ goodEntry layer entry.
Proof.
  intros Hin.
  destruct (boundsAndIndexDict_entries _ _ _ _ Hbounds v Hin) as (entry & Hv & Hd).
  exists entry. split; [assumption|]. eapply boundsAndIndexDict_value_good; eauto.
Qed.

Lemma goodEntry_known B index rect :
  goodEntry layer (B, index) -> knownIds features (index_intersects index rect).
Proof.
  intros (_ & _ & Hidx & _) id Hid. apply index_intersects_In in Hid.
  apply in_map_iff in Hid as (e & <- & He).
  destruct (Hidx e He) as (f & Hf & ->). simpl. rewrite (Hfeatures f Hf). eauto.
Qed.

Lemma allKeys_grows d d' : allKeys valueSet d -> grows d d' -> allKeys valueSet d'.
Proof. intros Hd [Hk _] w Hw. apply Hk. auto. Qed.

Lemma findEdges_pair_total value1 B1 index1 d value2 :
  goodEntry layer (B1, index1) -> In value2 valueSet ->
  is_Some (d !! value1) -> allKeys valueSet d ->
  exists d', findEdges_pair boundsIndexDict features value1 B1 index1
                            (rectangleOf B1) d value2 = Ok d' /\ grows d d'.
Proof.
  intros Hgood1 Hin2 Hk1 Hkeys.
  destruct (valueSet_entry value2 Hin2) as ([B2 index2] & Hb2 & Hgood2).
  unfold findEdges_pair, dict_get. rewrite Hb2. simpl.
  destruct (rect_intersects (rectangleOf B1) (rectangleOf B2)).
  - apply findEdges_candidates_total.
    + eapply goodEntry_known; eauto.
    + eapply goodEntry_known; eauto.
    + split; auto.
  - exists d. split; [reflexivity | apply grows_refl].
Qed.

(** The evaluation of a value against itself finds a member of the group
    on both sides and appends the value to its own edge list. *)
Lemma findEdges_pair_self v B index d :
  boundsIndexDict !! v = Some (B, index) -> goodEntry layer (B, index) ->
  is_Some (d !! v) ->
  exists d', findEdges_pair boundsIndexDict features v B index
                            (rectangleOf B) d v = Ok d' /\
             grows d d' /\ edgeCount d v v < edgeCount d' v v.
Proof.
  intros Hb Hgood Hk.
  pose proof Hgood as (Hx & Hy & Hidx & f & Hf & Hfidx & Hmeet).
  unfold findEdges_pair, dict_get. rewrite Hb. simpl.
  pose proof (prefilter_self B Hx Hy) as Hpre. unfold prefilter in Hpre.
  rewrite Hpre, (smallRectangle_self B Hx Hy).
  assert (Hcand : In (fid f)
            (index_intersects index (mkRect (b0 B) (b1 B) (b2 B) (b3 B)))).
  { unfold index_intersects. apply in_map_iff.
    exists (fid f, boundingBox (geometry f)). split; [reflexivity|].
    apply filter_In. split; assumption. }
  apply (findEdges_candidates_hit features v v _ _ d (fid f) (fid f) f f);
    auto using Hfeatures, Hself.
  - eapply goodEntry_known; eauto.
  - eapply goodEntry_known; eauto.
  - split; assumption.
Qed.

Lemma findEdges_inner_total vs v B index d :
  (forall w, In w vs -> In w valueSet) ->
  goodEntry layer (B, index) -> allKeys valueSet d -> is_Some (d !! v) ->
  exists d', foldM (findEdges_pair boundsIndexDict features v B index
                                   (rectangleOf B)) d vs = Ok d' /\
             grows d d'.
Proof.
  intros Hvs Hgood Hkeys Hk.
  apply (foldM_total (fun d' => grows d d')); [|apply grows_refl].
  intros acc value2 Hin Hacc.
  destruct (findEdges_pair_total v B index acc value2) as (acc' & Hrun & Hgrow);
    auto.
  - now apply (proj1 Hacc).
  - eapply allKeys_grows; eauto.
  - exists acc'. split; [assumption | eapply grows_trans; eauto].
Qed.

Lemma findEdges_inner_self v B index d :
  In v valueSet ->
  boundsIndexDict !! v = Some (B, index) -> goodEntry layer (B, index) ->
  allKeys valueSet d ->
  exists d', foldM (findEdges_pair boundsIndexDict features v B index
                                   (rectangleOf B)) d valueSet = Ok d' /\
             grows d d' /\ edgeCount d v v < edgeCount d' v v.
Proof.
  intros Hin Hb Hgood Hkeys.
  assert (Hsplit : exists pre post,
             pre ++ v :: post = valueSet /\
             (forall w, In w pre -> In w valueSet) /\
             (forall w, In w post -> In w valueSet)).
  { destruct (in_split _ _ Hin) as (pre & post & Heq). exists pre, post.
    split; [now symmetry|]. rewrite Heq.
    split; intros w Hw; apply in_or_app; [now left | right; now right]. }
  destruct Hsplit as (pre & post & Heq & Hpre & Hpost).
  rewrite <- Heq, foldM_app.
  destruct (findEdges_inner_total pre v B index d) as (da & -> & Ga); auto.
  simpl.
  assert (Ka : allKeys valueSet da) by (eapply allKeys_grows; eauto).
  destruct (findEdges_pair_self v B index da) as (db & -> & Gb & Hlt); auto.
  simpl.
  assert (Kb : allKeys valueSet db) by (eapply allKeys_grows; eauto).
  destruct (findEdges_inner_total post v B index db) as (dc & -> & Gc); auto.
  exists dc. split; [reflexivity|]. split.
  - eapply grows_trans; [exact Ga|]. eapply grows_trans; eauto.
  - destruct Ga as [_ Ca], Gc as [_ Cc].
    specialize (Ca v v). specialize (Cc v v). lia.
Qed.

Lemma findEdges_outer_total vs : forall vs2 d,
  NoDup vs ->
  (forall w, In w vs -> In w vs2 /\ In w valueSet) ->
  allKeys valueSet d ->
  exists vs2' d',
    foldM (findEdges_outer valueSet boundsIndexDict features) (vs2, d) vs
    = Ok (vs2', d') /\
    grows d d' /\ forall w, In w vs -> edgeCount d w w < edgeCount d' w w.
Proof.
  induction vs as [|v vs IH]; intros vs2 d Hnd Hvs Hkeys; cbn [foldM].
  - exists vs2, d. split; [reflexivity|]. split; [apply grows_refl | intros w []].
  - apply NoDup_cons in Hnd as [Hnin Hnd].
    destruct (Hvs v (or_introl eq_refl)) as [Hv2 Hv].
    destruct (set_remove_ok v vs2 Hv2) as (vs2a & Hrem & Hkept).
    destruct (valueSet_entry v Hv) as ([B index] & Hb & Hgood).
    destruct (findEdges_inner_self v B index d Hv Hb Hgood Hkeys)
      as (da & Hinner & Ga & Hlt).
    assert (Hstep : findEdges_outer valueSet boundsIndexDict features (vs2, d) v
                    = Ok (vs2a, da)).
    { unfold findEdges_outer, dict_get. rewrite Hrem, Hb. simpl.
      now rewrite Hinner. }
    rewrite Hstep. simpl.
    destruct (IH vs2a da Hnd) as (vs2' & d' & Hrun & Gd & Hall).
    + intros w Hw. destruct (Hvs w (or_intror Hw)) as [Hw2 Hwv].
      split; [|assumption]. apply Hkept; [assumption|].
      intros ->. apply Hnin. now apply list_elem_of_In.
    + eapply allKeys_grows; eauto.
    + exists vs2', d'. split; [assumption|]. split.
      * eapply grows_trans; eauto.
      * intros w [<-|Hw].
        -- destruct Gd as [_ Cd]. specialize (Cd v v). lia.
        -- destruct Ga as [_ Ca]. specialize (Ca w w).
           specialize (Hall w Hw). lia.
Qed.

(** With the bounds and indices of [boundsAndIndexDict], the features of
    the layer under their identifiers and a vertex for every value,
    [findEdges] returns and every value is in its own edge list. *)
Lemma findEdges_self_loops graphDict :
  NoDup valueSet ->
  (forall v, In v valueSet -> is_Some (graphDict !! v)) ->
  exists graphDict',
    findEdges valueSet boundsIndexDict graphDict features = Ok graphDict' /\
    forall g, In g valueSet ->
      exists vx, graphDict' !! g = Some vx /\ In g (edges vx).
Proof.
  intros Hnd Hkeys.
  destruct (findEdges_outer_total valueSet valueSet graphDict Hnd)
    as (vs2' & d' & Hrun & Gd & Hall); [tauto | assumption |].
  exists d'. split.
  - unfold findEdges. now rewrite Hrun.
  - intros g Hg. specialize (Hall g Hg). unfold edgeCount in Hall.
    destruct (d' !! g) as [vx|]; [|lia].
    exists vx. split; [reflexivity|].
    apply (count_occ_In String.string_dec). lia.
Qed.

End GroupsOfALayer.

(** ** The runs on the example layers *)

Example layer_abc_parameters :
  processParameters layer_abc "name"
  = Ok (features_abc, ["a"; "b"; "c"], graph_abc, ["name"]).
Proof. vm_compute. reflexivity. Qed.

Example layer_abc_bounds :
  boundsAndIndexDict layer_abc ["a"; "b"; "c"] "name" = Ok bounds_abc.
Proof. vm_compute. reflexivity. Qed.

(** The spec's scenario: one edge between "a" and "b" is expected, none with
    "c"; the script lists "b" twice for "a". *)
Example layer_abc_edges :
  (g ← findEdges ["a"; "b"; "c"] bounds_abc graph_abc features_abc;
   Ok (edgeCount g "a" "b", edgeCount g "a" "c", edgeCount g "b" "c"))
  = Ok (2, 0, 0).
Proof. vm_compute. reflexivity. Qed.

Lemma findEdges_no_edge_between_disjoint_groups_witness :
  match findEdges ["a"; "b"; "c"] bounds_abc graph_abc features_abc with
  | Ok g' => edgeCount g' "a" "c" = 0 /\ edgeCount g' "c" "a" = 0
  | Err _ => False
  end.
Proof.
  destruct (findEdges ["a"; "b"; "c"] bounds_abc graph_abc features_abc)
    as [g'|e] eqn:Hrun.
  - refine (findEdges_no_edge_between_disjoint_groups
              bounds_abc features_abc "a" "c"
              (mkBounds 1 1 1 1) (mkBounds 5 5 5 5)
              [(1%Z, mkRect 0 0 1 1)] [(3%Z, mkRect 5 5 6 6)]
              _ _ _ ["a"; "b"; "c"] graph_abc g' Hrun).
    + vm_compute. reflexivity.
    + vm_compute. reflexivity.
    + intros id1 id2 f1 f2 [<-|[]] [<-|[]] Hf1 Hf2.
      vm_compute in Hf1, Hf2. injection Hf1 as <-. injection Hf2 as <-.
      split; vm_compute; reflexivity.
  - vm_compute in Hrun. discriminate Hrun.
Defined.

(** ** [findEdges]: which pairs are evaluated, and how often an edge is recorded *)

Section Schedule.
Context `{Host}.
Variable boundsIndexDict : gmap string (Bounds * QgsSpatialIndex).
Variable features : gmap Z QgsFeature.

Lemma findEdges_inner_at v bounds index1 inner g :
  boundsIndexDict !! v = Some (bounds, index1) ->
  foldM (findEdges_pair boundsIndexDict features v bounds index1
                        (rectangleOf bounds)) g inner
  = foldM (findEdges_at boundsIndexDict features) g (map (fun w => (v, w)) inner).
Proof.
  intros Hv.
  assert (Hat : forall g w,
             findEdges_at boundsIndexDict features g (v, w)
             = findEdges_pair boundsIndexDict features v bounds index1
                              (rectangleOf bounds) g w)
    by (intros; unfold findEdges_at, dict_get; simpl; now rewrite Hv).
  revert g. induction inner as [|w inner IH]; intros g; cbn [foldM map];
    [reflexivity|].
  rewrite Hat.
  destruct (findEdges_pair boundsIndexDict features v bounds index1
                           (rectangleOf bounds) g w); simpl; auto.
Qed.

Lemma findEdges_at_missing v inner g :
  boundsIndexDict !! v = None -> inner <> [] ->
  foldM (findEdges_at boundsIndexDict features) g (map (fun w => (v, w)) inner)
  = Err (KeyError (KStr v)).
Proof.
  intros Hv Hne. destruct inner as [|w inner]; [congruence|]. cbn [foldM map].
  apply bind_Err. unfold findEdges_at, dict_get. simpl. now rewrite Hv.
Qed.

Lemma findEdges_outer_schedule inner vs : forall vs2 g,
  inner <> [] -> NoDup vs -> (forall w, In w vs -> In w vs2) ->
  (foldM (findEdges_outer inner boundsIndexDict features) (vs2, g) vs
     ≫= fun st => Ok st.2)
  = foldM (findEdges_at boundsIndexDict features) g (list_prod vs inner).
Proof.
  intros vs2 g Hinner. revert vs2 g.
  induction vs as [|v vs IH]; intros vs2 g Hnd Hvs; cbn [foldM list_prod];
    [reflexivity|].
  apply NoDup_cons in Hnd as [Hnin Hnd].
  destruct (set_remove_ok v vs2 (Hvs v (or_introl eq_refl))) as (vs2a & Hrem & Hkept).
  rewrite foldM_app.
  assert (Hrest : forall w, In w vs -> In w vs2a).
  { intros w Hw. apply Hkept; [apply Hvs; now right|].
    intros ->. apply Hnin. now apply list_elem_of_In. }
  destruct (boundsIndexDict !! v) as [[bounds index1]|] eqn:Hv.
  - rewrite <- (findEdges_inner_at v bounds index1 inner g Hv).
    destruct (foldM (findEdges_pair boundsIndexDict features v bounds index1
                                    (rectangleOf bounds)) g inner) as [g1|e] eqn:Hin.
    + assert (Hstep : findEdges_outer inner boundsIndexDict features (vs2, g) v
                      = Ok (vs2a, g1))
        by (unfold findEdges_outer, dict_get; rewrite Hrem, Hv; simpl;
            now rewrite Hin).
      rewrite Hstep. simpl. now apply IH.
    + assert (Hstep : findEdges_outer inner boundsIndexDict features (vs2, g) v
                      = Err e)
        by (unfold findEdges_outer, dict_get; rewrite Hrem, Hv; simpl;
            now rewrite Hin).
      rewrite Hstep. reflexivity.
  - rewrite findEdges_at_missing by assumption.
    assert (Hstep : findEdges_outer inner boundsIndexDict features (vs2, g) v
                    = Err (KeyError (KStr v)))
      by (unfold findEdges_outer, dict_get; rewrite Hrem, Hv; reflexivity).
    rewrite Hstep. reflexivity.
Qed.

(** [findEdges] evaluates the ordered pairs of values, every one of them:
    the product of the value set with itself, in order.  Two distinct
    values are therefore evaluated twice, once in each order. *)
Lemma findEdges_schedule valueSet g :
  NoDup valueSet ->
  findEdges valueSet boundsIndexDict g features
  = foldM (findEdges_at boundsIndexDict features) g (list_prod valueSet valueSet).
Proof.
  intros Hnd. destruct valueSet as [|v vs] eqn:Hvs; [reflexivity|].
  rewrite <- (findEdges_outer_schedule (v :: vs) (v :: vs) (v :: vs) g);
    [|discriminate|assumption|auto].
  unfold findEdges.
  destruct (foldM (findEdges_outer (v :: vs) boundsIndexDict features)
                  (v :: vs, g) (v :: vs)) as [[vs2 g']|e]; reflexivity.
Qed.

End Schedule.

(** C3 (the code departs from it).  The inner loop of line 146 runs over
    [valueSet], not over the shrinking copy [valueSet2], so [findEdges]
    evaluates every ordered pair: on the three squares of the spec's
    scenario the schedule holds (a,b) and also (b,a).  One evaluation of
    (a,b) on the two touching squares lists "b" once for "a"; the whole
    call lists it twice, the second time from the evaluation of (b,a). *)
Theorem findEdges_evaluates_both_orders :
  list_prod ["a"; "b"; "c"] ["a"; "b"; "c"]
  = [("a", "a"); ("a", "b"); ("a", "c"); ("b", "a"); ("b", "b"); ("b", "c");
     ("c", "a"); ("c", "b"); ("c", "c")] /\
  findEdges ["a"; "b"; "c"] bounds_abc graph_abc features_abc
  = foldM (findEdges_at bounds_abc features_abc) graph_abc
          (list_prod ["a"; "b"; "c"] ["a"; "b"; "c"]) /\
  (g ← findEdges_at bounds_abc features_abc graph_abc ("a", "b");
   Ok (edgeCount g "a" "b", edgeCount g "b" "a")) = Ok (1, 1) /\
  (g ← foldM (findEdges_at bounds_abc features_abc) graph_abc
             [("a", "b"); ("b", "a")];
   Ok (edgeCount g "a" "b", edgeCount g "b" "a")) = Ok (2, 2) /\
  (g ← findEdges ["a"; "b"; "c"] bounds_abc graph_abc features_abc;
   Ok (edgeCount g "a" "b", edgeCount g "b" "a")) = Ok (2, 2).
Proof.
  split; [reflexivity|]. split.
  - apply findEdges_schedule. apply (bool_decide_unpack _). vm_compute. reflexivity.
  - repeat split; vm_compute; reflexivity.
Qed.

(** C1 (the code departs from it).  On the scenario of the claim (group "x"
    with two disjoint squares, the square of group "y" touching only the
    second one) the script lists "y" twice for "x" and "x" twice for "y":
    the one intersecting pair is found in the evaluation of (x, y) and
    again in that of (y, x).  Nor does the first intersection end the
    tests of a pair: when both squares of "x" touch the square of "y",
    every evaluation appends once per intersecting candidate pair, four
    entries in all. *)
Theorem findEdges_records_an_edge_more_than_once :
  (g ← buildGraph layer_xy "name";
   Ok (edgeCount g "x" "y", edgeCount g "y" "x")) = Ok (2, 2) /\
  (g ← buildGraph layer_xxy "name";
   Ok (edgeCount g "x" "y", edgeCount g "y" "x")) = Ok (4, 4).
Proof. split; vm_compute; reflexivity. Qed.

(** ** What [processParameters] hands to [findEdges] *)

Lemma set_add_NoDup v s : NoDup s -> NoDup (set_add v s).
Proof.
  intros Hnd. unfold set_add.
  destruct (existsb (String.eqb v) s) eqn:Hex; [assumption|].
  apply NoDup_app. split; [assumption|]. split; [|apply NoDup_singleton].
  intros w Hw Hin. apply list_elem_of_singleton in Hin as ->.
  assert (Hyes : existsb (String.eqb v) s = true); [|congruence].
  apply existsb_exists. exists v. split; [now apply list_elem_of_In|].
  apply String.eqb_refl.
Qed.

Lemma emptyGraph_keys fieldValues v :
  In v fieldValues -> is_Some (emptyGraph fieldValues !! v).
Proof.
  unfold emptyGraph. generalize (∅ : gmap string Vertex).
  assert (Hkeep : forall l (g : gmap string Vertex),
             is_Some (g !! v) ->
             is_Some (fold_left (fun g value => <[value := mkVertex [] None]> g) l g
                      !! v)).
  { induction l as [|w l IH]; intros g Hg; simpl; [assumption|].
    apply IH. destruct (decide (w = v)) as [->|Hne].
    - rewrite lookup_insert_eq. eauto.
    - now rewrite lookup_insert_ne. }
  induction fieldValues as [|w l IH]; intros g0 []; simpl.
  - subst w. apply Hkeep. rewrite lookup_insert_eq. eauto.
  - now apply IH.
Qed.

Section Parameters.
Context `{Host}.

Lemma processParameters_feature_ok Field fieldValues allFeatures feature st' :
  processParameters_feature Field (fieldValues, allFeatures) feature = Ok st' ->
  exists s, st' = (set_add s fieldValues, <[fid feature := feature]> allFeatures).
Proof.
  unfold processParameters_feature. intros Hrun.
  apply bind_Ok_inv in Hrun as (v & _ & Hrun).
  apply bind_Ok_inv in Hrun as (s & _ & Hrun).
  injection Hrun as <-. eauto.
Qed.

Lemma processParameters_scan Field fs : forall fieldValues allFeatures fv af,
  foldM (processParameters_feature Field) (fieldValues, allFeatures) fs
  = Ok (fv, af) ->
  (NoDup fieldValues -> NoDup fv) /\
  (forall id, ~ In id (map fid fs) -> af !! id = allFeatures !! id) /\
  (NoDup (map fid fs) -> forall f, In f fs -> af !! fid f = Some f).
Proof.
  induction fs as [|f0 fs IH]; intros fieldValues allFeatures fv af; simpl.
  - intros [= <- <-]. split; [auto|]. split; [auto|]. intros _ f [].
  - intros Hrun. apply bind_Ok_inv in Hrun as (st1 & Hstep & Hrun).
    apply processParameters_feature_ok in Hstep as (s & ->).
    destruct (IH _ _ _ _ Hrun) as (Hnd & Hother & Hall).
    split; [|split].
    + intros Hfv. now apply Hnd, set_add_NoDup.
    + intros id Hid. rewrite Hother by tauto. apply lookup_insert_ne. tauto.
    + intros Hids f [<-|Hf].
      * apply NoDup_cons in Hids as [Hnin _].
        rewrite Hother by (now rewrite <- list_elem_of_In).
        apply lookup_insert_eq.
      * apply NoDup_cons in Hids as [_ Hids]. now apply Hall.
Qed.

Lemma processParameters_ok layer field allFeatures fieldValues graphDict layerFields :
  processParameters layer field
  = Ok (allFeatures, fieldValues, graphDict, layerFields) ->
  NoDup fieldValues /\
  (forall v, In v fieldValues -> is_Some (graphDict !! v)) /\
  (NoDup (map fid (getFeatures layer)) ->
   forall f, In f (getFeatures layer) -> allFeatures !! fid f = Some f).
Proof.
  unfold processParameters. intros Hrun.
  apply bind_Ok_inv in Hrun as ([fv af] & Hscan & Hrun).
  apply bind_Ok_inv in Hrun as (lf & _ & Hrun).
  injection Hrun as <- <- <- <-.
  destruct (processParameters_scan _ _ _ _ _ _ Hscan) as (Hnd & _ & Hall).
  split; [apply Hnd, NoDup_nil_2|]. split; [apply emptyGraph_keys | exact Hall].
Qed.

(** C5.  In a run of the script on a layer whose features have distinct
    identifiers and whose geometries each intersect themselves: once
    [boundsAndIndexDict] has returned (every observed value then has at
    least one member feature), [findEdges] returns, and the edge list of
    every value contains the value itself.  The evaluation of a value
    against itself retrieves a member of the group on both sides, and that
    member intersects itself; two distinct touching members are not
    needed. *)
Theorem findEdges_records_self_loops layer field allFeatures fieldValues
    graphDict layerFields boundsIndexDict :
  processParameters layer field
  = Ok (allFeatures, fieldValues, graphDict, layerFields) ->
  boundsAndIndexDict layer fieldValues field = Ok boundsIndexDict ->
  NoDup (map fid (getFeatures layer)) ->
  (forall f, In f (getFeatures layer) ->
             geom_intersects (geometry f) (geometry f) = true) ->
  exists graphDict',
    findEdges fieldValues boundsIndexDict graphDict allFeatures = Ok graphDict' /\
    forall g, In g fieldValues ->
      exists vx, graphDict' !! g = Some vx /\ In g (edges vx).
Proof.
  intros Hpp Hbounds Hids Hself.
  destruct (processParameters_ok _ _ _ _ _ _ Hpp) as (Hnd & Hkeys & Hall).
  eapply findEdges_self_loops; eauto.
Qed.

End Parameters.

Lemma findEdges_records_self_loops_witness :
  exists g',
    findEdges ["a"; "b"; "c"] bounds_abc graph_abc features_abc = Ok g' /\
    forall g, In g ["a"; "b"; "c"] ->
      exists vx, g' !! g = Some vx /\ In g (edges vx).
Proof.
  apply (findEdges_records_self_loops layer_abc "name" features_abc
           ["a"; "b"; "c"] graph_abc ["name"] bounds_abc
           layer_abc_parameters layer_abc_bounds).
  - apply (bool_decide_unpack _). vm_compute. reflexivity.
  - intros f [<-|[<-|[<-|[]]]]; vm_compute; reflexivity.
Defined.

(** ** The attributes of the output graph *)

Section OutputGraph.
Context `{Host}.

Lemma layerFields_fold names : forall acc lf,
  foldM (fun layerFields name =>
           s ← py_str (VString name);
           Ok (layerFields ++ [s])) acc names = Ok lf ->
  lf = acc ++ names.
Proof.
  induction names as [|name names IH]; intros acc lf; simpl.
  - intros [= <-]. now rewrite app_nil_r.
  - intros Hrun. apply bind_Ok_inv in Hrun as (acc1 & Hstep & Hrun).
    apply bind_Ok_inv in Hstep as (s & Hs & Hstep). injection Hstep as <-.
    simpl in Hs. destruct (is_ascii_string name); [|discriminate].
    injection Hs as <-. rewrite (IH _ _ Hrun), <- app_assoc. reflexivity.
Qed.

Lemma processParameters_layerFields layer field allFeatures fieldValues
    graphDict layerFields :
  processParameters layer field
  = Ok (allFeatures, fieldValues, graphDict, layerFields) ->
  layerFields = pendingFields layer.
Proof.
  unfold processParameters. intros Hrun.
  apply bind_Ok_inv in Hrun as ([fv af] & _ & Hrun).
  apply bind_Ok_inv in Hrun as (lf & Hlf & Hrun).
  injection Hrun as <- <- <- <-. now apply layerFields_fold in Hlf.
Qed.

(** C7.  When [addAttributesDict] returns, the graph has the same vertex
    keys and edge lists as before, and every vertex has an ['attributes']
    dictionary with an entry for every name of [layerFields]: the value of
    the first feature matching the vertex key, stored as a float when
    [float(...)] of it succeeds and as its [str(...)] otherwise.  In the
    graph [buildGraph] returns, every vertex so has an attribute dictionary
    with every field name of the layer.  The string "42" is stored as the
    number 42; "north" is no number and is stored as text. *)
Theorem addAttributesDict_attributes :
  (forall layer vertexField layerFields g g',
      addAttributesDict layer vertexField layerFields g = Ok g' ->
      (forall key, is_Some (g' !! key) <-> is_Some (g !! key)) /\
      (forall key vx',
          g' !! key = Some vx' ->
          exists vx featureInstance attributesDictionary,
            g !! key = Some vx /\ edges vx' = edges vx /\
            quickFilter layer (buildExpression vertexField key)
            = Ok featureInstance /\
            attributes vx' = Some attributesDictionary /\
            forall field, In field layerFields ->
              exists feature v a,
                featureInstance = Some feature /\
                assoc field (attrs feature) = Some v /\
                attributesDictionary !! field = Some a /\
                match py_float v with
                | Ok x => a = Number x
                | Err _ => exists s, py_str v = Ok s /\ a = Text s
                end)) /\
  (forall layer field graph,
      buildGraph layer field = Ok graph ->
      forall key vx,
        graph !! key = Some vx ->
        exists attributesDictionary,
          attributes vx = Some attributesDictionary /\
          forall name, In name (pendingFields layer) ->
            exists a, attributesDictionary !! name = Some a) /\
  storedValue (VString "42") = Ok (Number (PFinite 42)) /\
  storedValue (VString "north") = Ok (Text "north").
Proof.
  split; [exact addAttributesDict_spec|]. split; [|split; reflexivity].
  intros layer field graph Hrun key vx Hvx. unfold buildGraph in Hrun.
  apply bind_Ok_inv in Hrun as ([[[af fv] g0] lf] & Hpp & Hrun).
  apply bind_Ok_inv in Hrun as (bid & _ & Hrun).
  apply bind_Ok_inv in Hrun as (g1 & _ & Hrun).
  apply processParameters_layerFields in Hpp as ->.
  destruct (addAttributesDict_spec _ _ _ _ _ Hrun) as [_ Hattrs].
  destruct (Hattrs key vx Hvx) as (vx0 & fi & d & _ & _ & _ & Hd & Hfields).
  exists d. split; [assumption|]. intros name Hname.
  destruct (Hfields name Hname) as (feature & v & a & _ & _ & Ha & _). eauto.
Qed.

End OutputGraph.

Lemma addAttributesDict_attributes_witness :
  match buildGraph layer_attrs "name" with
  | Ok graph =>
      forall key vx,
        graph !! key = Some vx ->
        exists attributesDictionary,
          attributes vx = Some attributesDictionary /\
          forall name, In name ["name"; "code"; "side"] ->
            exists a, attributesDictionary !! name = Some a
  | Err _ => False
  end.
Proof.
  destruct (buildGraph layer_attrs "name") as [graph|e] eqn:Hrun.
  - exact (proj1 (proj2 addAttributesDict_attributes) layer_attrs "name" graph Hrun).
  - vm_compute in Hrun. discriminate Hrun.
Defined.

(** The attributes stored for the only vertex of [layer_attrs]. *)
Example buildGraph_layer_attrs :
  (g ← buildGraph layer_attrs "name";
   vx ← dict_get g "a";
   Ok (map_to_list <$> attributes vx))
  = Ok (Some (map_to_list ({["name" := Text "a"; "code" := Number (PFinite 42);
                             "side" := Text "north"]} : gmap string AttrValue))).
Proof. vm_compute. reflexivity. Qed.

(** When [quickFilter] returns [None] for a vertex key and the layer has a
    field, line 268 subscripts [None]; the [except] clause does it again on
    line 270, and that [TypeError] ends [addAttributesDict]. *)
Lemma addAttributesDict_key_None `{Host} layer vertexField name layerFields g key :
  quickFilter layer (buildExpression vertexField key) = Ok None ->
  addAttributesDict_key layer vertexField (name :: layerFields) g key
  = Err (TypeError "'NoneType' object has no attribute '__getitem__'").
Proof. unfold addAttributesDict_key. now intros ->. Qed.

(** * Further properties of the script *)

(** ** [rectBounds]: which points it reads *)

Lemma rectBounds_loop_reads (ring0 : list QgsPoint) rest m : forall k acc,
  k + m <= length ring0 ->
  foldM (fun pts i =>
           r ← py_index (ring0 :: rest) 0;
           p ← py_index r i;
           Ok (pts ++ [p])) acc (seq k m)
  = Ok (acc ++ take m (drop k ring0)).
Proof.
  induction m as [|m IH]; intros k acc Hk; cbn [seq foldM].
  - now rewrite take_0, app_nil_r.
  - assert (Hdrop : exists p tl, drop k ring0 = p :: tl).
    { destruct (drop k ring0) as [|p tl] eqn:Hdrop; [|eauto].
      apply (f_equal length) in Hdrop. rewrite length_drop in Hdrop.
      simpl in Hdrop. lia. }
    destruct Hdrop as (p & tl & Hdrop).
    assert (Hnth : nth_error ring0 k = Some p).
    { rewrite <- (take_drop k ring0), Hdrop.
      rewrite nth_error_app2 by (rewrite length_take; lia).
      rewrite length_take. replace (k - k `min` length ring0) with 0 by lia.
      reflexivity. }
    assert (Hstep : (r ← py_index (ring0 :: rest) 0;
                     q ← py_index r k; Ok (acc ++ [q])) = Ok (acc ++ [p]))
      by (unfold py_index; simpl; now rewrite Hnth).
    rewrite Hstep. cbn [mbind Result_bind]. rewrite IH by lia.
    rewrite <- app_assoc. simpl. do 2 f_equal. rewrite Hdrop. simpl. f_equal.
    replace (S k) with (k + 1) by lia. rewrite <- drop_drop, Hdrop. reflexivity.
Qed.

Lemma rectBounds_points_take ring0 rest :
  length (ring0 :: rest) <= length ring0 ->
  rectBounds_points (ring0 :: rest) = Ok (take (length (ring0 :: rest)) ring0).
Proof.
  intros Hlen. unfold rectBounds_points.
  rewrite (rectBounds_loop_reads ring0 rest _ 0 []) by lia.
  now rewrite drop_0.
Qed.

(** X1.  For a polygon with [n] rings whose ring 0 has at least [n]
    points, [rectBounds] returns the bounding rectangle of the first [n]
    points of ring 0, whatever the other points are: it encloses each of
    these points and each of its four bounds is a coordinate of one of
    them. *)
Theorem rectBounds_box_of_leading_points ring0 rest :
  length (ring0 :: rest) <= length ring0 ->
  exists rb,
    rectBounds (Polygon (ring0 :: rest)) = Ok rb /\
    (forall p, In p (take (length (ring0 :: rest)) ring0) -> encloses rb p) /\
    In (b0 rb) (map pt_x (take (length (ring0 :: rest)) ring0)) /\
    In (b1 rb) (map pt_y (take (length (ring0 :: rest)) ring0)) /\
    In (b2 rb) (map pt_x (take (length (ring0 :: rest)) ring0)) /\
    In (b3 rb) (map pt_y (take (length (ring0 :: rest)) ring0)).
Proof.
  intros Hlen. unfold rectBounds. simpl asPolygon.
  rewrite (rectBounds_points_take ring0 rest Hlen). cbn [mbind Result_bind].
  remember (take (length (ring0 :: rest)) ring0) as pts eqn:Hpts.
  destruct pts as [|q pts'].
  { exfalso. apply (f_equal length) in Hpts. rewrite length_take in Hpts.
    cbn [length] in Hpts, Hlen. lia. }
  clear Hpts.
  destruct (py_min (map pt_x (q :: pts'))) as [xmin|] eqn:Hxmin; [|discriminate].
  destruct (py_min (map pt_y (q :: pts'))) as [ymin|] eqn:Hymin; [|discriminate].
  destruct (py_max (map pt_x (q :: pts'))) as [xmax|] eqn:Hxmax; [|discriminate].
  destruct (py_max (map pt_y (q :: pts'))) as [ymax|] eqn:Hymax; [|discriminate].
  cbn [mbind Result_bind]. eexists. split; [reflexivity|]. cbn [b0 b1 b2 b3].
  split; [|repeat split;
           first [eapply py_min_attained; eassumption
                 | eapply py_max_attained; eassumption]].
  intros p Hp. unfold encloses. cbn [b0 b1 b2 b3].
  repeat split;
    first [eapply py_min_le; [eassumption | now apply in_map]
          | eapply py_max_ge; [eassumption | now apply in_map]].
Qed.

Lemma rectBounds_box_of_leading_points_witness :
  exists rb,
    rectBounds (Polygon [[mkPoint 2 5; mkPoint 0 7; mkPoint 9 9]; [mkPoint 1 1]])
    = Ok rb /\ encloses rb (mkPoint 0 7) /\ ~ encloses rb (mkPoint 9 9).
Proof.
  destruct (rectBounds_box_of_leading_points
              [mkPoint 2 5; mkPoint 0 7; mkPoint 9 9] [[mkPoint 1 1]])
    as (rb & Hrb & Henc & _); [simpl; lia|].
  exists rb. split; [exact Hrb|]. split.
  - apply Henc. simpl. tauto.
  - vm_compute in Hrb. injection Hrb as <-. unfold encloses. simpl.
    intros [[_ H] _]. vm_compute in H. now apply H.
Defined.

(** X2.  For a polygon with more rings than ring 0 has points, the loop of
    line 26 indexes ring 0 past its end and [rectBounds] raises
    [IndexError]. *)
Theorem rectBounds_more_rings_than_points ring0 rest :
  length ring0 < length (ring0 :: rest) ->
  rectBounds (Polygon (ring0 :: rest))
  = Err (IndexError "list index out of range").
Proof.
  intros Hlen. unfold rectBounds, rectBounds_points. simpl asPolygon.
  replace (length (ring0 :: rest))
    with (length ring0 + S (length rest - length ring0)) by (simpl in *; lia).
  rewrite seq_app, foldM_app.
  rewrite (rectBounds_loop_reads ring0 rest _ 0 []) by lia.
  cbn [mbind Result_bind seq foldM plus].
  assert (Hnth : nth_error ring0 (length ring0) = None)
    by (apply nth_error_None; lia).
  do 2 apply bind_Err. unfold py_index. cbn [nth_error mbind Result_bind].
  now rewrite Hnth.
Qed.

Lemma rectBounds_more_rings_than_points_witness :
  rectBounds (Polygon [[mkPoint 0 0]; [mkPoint 1 1]])
  = Err (IndexError "list index out of range").
Proof. apply rectBounds_more_rings_than_points. simpl. lia. Defined.

(** ** [filter] and [quickFilter] *)

Lemma filter_loop_prefix exp pre rest :
  Forall (evaluates exp) pre ->
  yielded (filter_loop exp (pre ++ rest))
  = List.filter (truthy exp) pre ++ yielded (filter_loop exp rest) /\
  raised (filter_loop exp (pre ++ rest)) = raised (filter_loop exp rest).
Proof.
  intros Hpre. induction Hpre as [|f pre [b Hf] _ [IHy IHr]]; [now split|].
  simpl. unfold truthy. rewrite Hf. destruct b; simpl; [|now split].
  now rewrite IHy, IHr.
Qed.

(** X3.  [quickFilter] returns what [filter] would produce first: the first
    feature [filter] yields, [None] when [filter] ends without yielding,
    and the exception [filter] raises before its first yield. *)
Theorem quickFilter_first_of_filter layer exp :
  quickFilter layer exp
  = match filter layer exp with
    | GYield feature _ => Ok (Some feature)
    | GStop => Ok None
    | GRaise e => Err e
    end.
Proof.
  unfold quickFilter, filter. destruct (hasParserError exp); [reflexivity|].
  induction (getFeatures layer) as [|f fs IH]; simpl; [reflexivity|].
  destruct (evaluate exp f) as [[|]|msg]; auto.
Qed.

(** X4.  [filter] raises the parser error before it looks at any feature.
    Otherwise it yields, in the order of the layer, the features on which
    the expression is true: all of them, ending normally, when every
    evaluation succeeds; and those before the first feature whose
    evaluation fails, ending with the [ValueError] of that failure. *)
Theorem filter_yields_the_matches layer exp :
  (hasParserError exp = true ->
   filter layer exp = GRaise (PyException (parserErrorString exp))) /\
  (hasParserError exp = false ->
   (Forall (evaluates exp) (getFeatures layer) ->
    yielded (filter layer exp) = List.filter (truthy exp) (getFeatures layer) /\
    raised (filter layer exp) = None) /\
   (forall pre f post msg,
       getFeatures layer = pre ++ f :: post ->
       Forall (evaluates exp) pre ->
       evaluate exp f = EvalError msg ->
       yielded (filter layer exp) = List.filter (truthy exp) pre /\
       raised (filter layer exp) = Some (ValueError msg))).
Proof.
  unfold filter. split; intros ->; [reflexivity|]. split.
  - intros Hall.
    destruct (filter_loop_prefix exp (getFeatures layer) [] Hall) as [Hy Hr].
    rewrite app_nil_r in Hy, Hr. simpl in Hy, Hr. now rewrite app_nil_r in Hy.
  - intros pre f post msg -> Hpre Hf.
    destruct (filter_loop_prefix exp pre (f :: post) Hpre) as [Hy Hr].
    simpl in Hy, Hr. rewrite Hf in Hy, Hr. simpl in Hy, Hr.
    now rewrite app_nil_r in Hy.
Qed.

Lemma filter_yields_the_matches_witness :
  yielded (filter layer_abc (buildExpression "name" "b"))
  = [feature 2 "b" (square 1 1 0)] /\
  raised (filter layer_abc (buildExpression "name" "b")) = None.
Proof.
  assert (Hp : hasParserError (buildExpression "name" "b") = false)
    by (vm_compute; reflexivity).
  apply (proj1 (proj2 (filter_yields_the_matches layer_abc _) Hp)).
  repeat constructor; eexists; vm_compute; reflexivity.
Defined.

(** ** [updateEdges] *)

(** X5.  [updateEdges(d, v1, v2)] raises [KeyError] for the first of
    [v1], [v2] that is no key of [d].  When both are keys it appends [v2]
    to the edge list of [v1] and [v1] to that of [v2] (twice [v1] to the
    one list when [v1 = v2]), keeps their attributes, and leaves every other
    vertex as it was. *)
Theorem updateEdges_effect d v1 v2 :
  (d !! v1 = None -> updateEdges d v1 v2 = Err (KeyError (KStr v1))) /\
  (is_Some (d !! v1) -> d !! v2 = None ->
   updateEdges d v1 v2 = Err (KeyError (KStr v2))) /\
  (forall vx1 vx2,
      d !! v1 = Some vx1 -> d !! v2 = Some vx2 ->
      exists d',
        updateEdges d v1 v2 = Ok d' /\
        (v1 <> v2 ->
         d' !! v1 = Some (mkVertex (edges vx1 ++ [v2]) (attributes vx1)) /\
         d' !! v2 = Some (mkVertex (edges vx2 ++ [v1]) (attributes vx2))) /\
        (v1 = v2 ->
         d' !! v1 = Some (mkVertex (edges vx1 ++ [v1; v1]) (attributes vx1))) /\
        (forall k, k <> v1 -> k <> v2 -> d' !! k = d !! k)).
Proof.
  unfold updateEdges, appendEdge, dict_get. split; [|split].
  - now intros ->.
  - intros [vx1 H1] H2.
    destruct (decide (v1 = v2)) as [->|Hne]; [congruence|].
    rewrite H1. cbn [mbind Result_bind].
    rewrite lookup_insert_ne by assumption. now rewrite H2.
  - intros vx1 vx2 H1 H2. rewrite H1. cbn [mbind Result_bind].
    destruct (decide (v1 = v2)) as [->|Hne].
    + rewrite lookup_insert_eq. cbn [mbind Result_bind edges attributes].
      eexists. split; [reflexivity|]. split; [congruence|]. split.
      * intros _. rewrite lookup_insert_eq, <- app_assoc. reflexivity.
      * intros k Hk _. now rewrite !lookup_insert_ne by congruence.
    + rewrite lookup_insert_ne, H2 by assumption. cbn [mbind Result_bind].
      eexists. split; [reflexivity|]. split; [|split; [congruence|]].
      * intros _. split.
        -- rewrite lookup_insert_ne by congruence. apply lookup_insert_eq.
        -- apply lookup_insert_eq.
      * intros k Hk1 Hk2. now rewrite !lookup_insert_ne by congruence.
Qed.

Lemma updateEdges_effect_witness :
  updateEdges graph_abc "a" "zz" = Err (KeyError (KStr "zz")) /\
  exists d', updateEdges graph_abc "a" "b" = Ok d' /\
             d' !! "a" = Some (mkVertex ["b"] None).
Proof.
  split.
  - apply (proj1 (proj2 (updateEdges_effect graph_abc "a" "zz"))).
    + vm_compute. eauto.
    + vm_compute. reflexivity.
  - destruct (proj2 (proj2 (updateEdges_effect graph_abc "a" "b"))
                (mkVertex [] None) (mkVertex [] None))
      as (d' & Hrun & Hne & _); [vm_compute; reflexivity..|].
    exists d'. split; [exact Hrun|]. apply Hne. discriminate.
Defined.

(** ** [findEdges]: how many entries it appends *)

Lemma list_sum_prod {A B} (f : A * B -> nat) l1 l2 :
  list_sum (map f (list_prod l1 l2))
  = list_sum (map (fun x => list_sum (map (fun y => f (x, y)) l2)) l1).
Proof.
  induction l1 as [|x l1 IH]; simpl; [reflexivity|].
  now rewrite map_app, list_sum_app, map_map, IH.
Qed.

Lemma list_sum_ext {A} (f g : A -> nat) l :
  (forall x, In x l -> f x = g x) -> list_sum (map f l) = list_sum (map g l).
Proof.
  induction l as [|x l IH]; intros Hfg; simpl; [reflexivity|].
  rewrite Hfg by now left. rewrite IH; [reflexivity|]. intros; apply Hfg. now right.
Qed.

Lemma list_sum_plus {A} (f g : A -> nat) l :
  list_sum (map (fun x => f x + g x) l) = list_sum (map f l) + list_sum (map g l).
Proof. induction l as [|x l IH]; simpl; [reflexivity|]. rewrite IH. lia. Qed.

(** The sum of a function that vanishes away from [x0]. *)
Lemma list_sum_at (l : list string) x0 (F : string -> nat) :
  NoDup l ->
  list_sum (map (fun x => if decide (x = x0) then F x else 0) l)
  = if decide (x0 ∈ l) then F x0 else 0.
Proof.
  assert (Hcons : forall h t, list_sum (h :: t) = h + list_sum t) by reflexivity.
  induction l as [|x l IH]; intros Hnd.
  - rewrite decide_False by apply not_elem_of_nil. reflexivity.
  - apply NoDup_cons in Hnd as [Hnin Hnd].
    rewrite map_cons, Hcons, IH by assumption.
    destruct (decide (x = x0)) as [->|Hne].
    + rewrite (decide_False (P := x0 ∈ l)) by assumption.
      rewrite decide_True by apply list_elem_of_here. lia.
    + destruct (decide (x0 ∈ l)) as [Hin|Hin].
      * rewrite decide_True by now apply list_elem_of_further. reflexivity.
      * rewrite decide_False; [reflexivity|].
        intros [?|?]%elem_of_cons; congruence.
Qed.

Section EdgeCounts.
Context `{Host}.
Variable boundsIndexDict : gmap string (Bounds * QgsSpatialIndex).
Variable features : gmap Z QgsFeature.
Variables a b : string.

Lemma findEdges_test_count v1 v2 id1 feature1 d id2 d' :
  features !! id1 = Some feature1 ->
  findEdges_test features v1 v2 feature1 d id2 = Ok d' ->
  edgeCount d' a b
  = edgeCount d a b + hit features id1 id2 * entryWeight a b v1 v2.
Proof.
  intros Hf1. unfold findEdges_test, features_get, hit. rewrite Hf1.
  destruct (features !! id2) as [feature2|]; [|discriminate].
  cbn [mbind Result_bind].
  destruct (geom_intersects (geometry feature2) (geometry feature1)).
  - intros Hu. rewrite (updateEdges_count _ _ _ _ a b Hu).
    unfold entryWeight. lia.
  - intros [= <-]. lia.
Qed.

Lemma findEdges_row_count v1 v2 ids2 d id1 d' :
  findEdges_row features v1 v2 ids2 d id1 = Ok d' ->
  edgeCount d' a b
  = edgeCount d a b
    + list_sum (map (hit features id1) ids2) * entryWeight a b v1 v2.
Proof.
  unfold findEdges_row, features_get.
  destruct (features !! id1) as [feature1|] eqn:Hf1; [|discriminate].
  cbn [mbind Result_bind]. revert d.
  induction ids2 as [|id2 ids2 IH]; intros d; simpl.
  - intros [= <-]. lia.
  - intros Hrun. apply bind_Ok_inv in Hrun as (d1 & Hstep & Hrun).
    rewrite (IH _ Hrun), (findEdges_test_count _ _ _ _ _ _ _ Hf1 Hstep). lia.
Qed.

Lemma findEdges_candidates_count v1 v2 ids1 ids2 d d' :
  findEdges_candidates features v1 v2 ids1 ids2 d = Ok d' ->
  edgeCount d' a b
  = edgeCount d a b + hitsOf features ids1 ids2 * entryWeight a b v1 v2.
Proof.
  unfold findEdges_candidates, hitsOf. revert d.
  induction ids1 as [|id1 ids1 IH]; intros d; simpl.
  - intros [= <-]. lia.
  - intros Hrun. apply bind_Ok_inv in Hrun as (d1 & Hstep & Hrun).
    rewrite (IH _ Hrun), (findEdges_row_count _ _ _ _ _ _ Hstep). lia.
Qed.

Lemma findEdges_at_count d v1 v2 d' :
  findEdges_at boundsIndexDict features d (v1, v2) = Ok d' ->
  edgeCount d' a b
  = edgeCount d a b
    + pairHits boundsIndexDict features v1 v2 * entryWeight a b v1 v2.
Proof.
  unfold findEdges_at, findEdges_pair, dict_get, pairHits, prefilter. simpl.
  destruct (boundsIndexDict !! v1) as [[bounds index1]|]; [|discriminate].
  cbn [mbind Result_bind].
  destruct (boundsIndexDict !! v2) as [[tempBounds index2]|]; [|discriminate].
  cbn [mbind Result_bind].
  destruct (rect_intersects (rectangleOf bounds) (rectangleOf tempBounds)).
  - apply findEdges_candidates_count.
  - intros [= <-]. lia.
Qed.

Lemma findEdges_schedule_count pairs : forall d d',
  foldM (findEdges_at boundsIndexDict features) d pairs = Ok d' ->
  edgeCount d' a b
  = edgeCount d a b
    + list_sum (map (fun p => pairHits boundsIndexDict features p.1 p.2
                              * entryWeight a b p.1 p.2) pairs).
Proof.
  induction pairs as [|[v1 v2] pairs IH]; intros d d'; simpl.
  - intros [= <-]. lia.
  - intros Hrun. apply bind_Ok_inv in Hrun as (d1 & Hstep & Hrun).
    rewrite (IH _ _ Hrun), (findEdges_at_count _ _ _ _ Hstep). lia.
Qed.

(** The entries [b] appended to the list of [a] over the whole schedule. *)
Lemma schedule_weight valueSet :
  NoDup valueSet ->
  list_sum (map (fun p => pairHits boundsIndexDict features p.1 p.2
                          * entryWeight a b p.1 p.2)
                (list_prod valueSet valueSet))
  = if decide (a ∈ valueSet /\ b ∈ valueSet)
    then pairHits boundsIndexDict features a b
         + pairHits boundsIndexDict features b a
    else 0.
Proof.
  intros Hnd. rewrite list_sum_prod. cbn [fst snd].
  rewrite (list_sum_ext _
             (fun v1 =>
                (if decide (v1 = a)
                 then (if decide (b ∈ valueSet)
                       then pairHits boundsIndexDict features v1 b else 0)
                 else 0)
                + (if decide (v1 = b)
                   then (if decide (a ∈ valueSet)
                         then pairHits boundsIndexDict features v1 a else 0)
                   else 0))).
  - rewrite list_sum_plus, !list_sum_at by assumption.
    destruct (decide (a ∈ valueSet)), (decide (b ∈ valueSet));
      first [rewrite decide_True by tauto | rewrite decide_False by tauto]; lia.
  - intros v1 _.
    rewrite (list_sum_ext _
               (fun v2 =>
                  (if decide (v2 = b)
                   then (if decide (v1 = a)
                         then pairHits boundsIndexDict features v1 v2 else 0)
                   else 0)
                  + (if decide (v2 = a)
                     then (if decide (v1 = b)
                           then pairHits boundsIndexDict features v1 v2 else 0)
                     else 0))).
    + rewrite list_sum_plus, !list_sum_at by assumption.
      destruct (decide (v1 = a)), (decide (v1 = b)),
        (decide (a ∈ valueSet)), (decide (b ∈ valueSet)); lia.
    + intros v2 _. unfold entryWeight.
      destruct (decide (v2 = b)), (decide (v1 = a)), (decide (v2 = a)),
        (decide (v1 = b));
        try (exfalso; congruence);
        repeat first [rewrite decide_True by (split; congruence)
                     | rewrite decide_False by (intros [? ?]; congruence)];
        lia.
Qed.

End EdgeCounts.

(** X6.  The exact effect of [findEdges] on the edge lists, for a set of
    values without repetition: for two values [a], [b] of the set, the list
    of [a] gains one entry [b] for every intersecting candidate pair of the
    evaluation of [(a, b)] and one more for every such pair of the
    evaluation of [(b, a)] (for [a = b], two for every pair); no other
    entry is appended anywhere. *)
Theorem findEdges_edge_counts `{Host} valueSet boundsIndexDict graphDict
    features graphDict' :
  NoDup valueSet ->
  findEdges valueSet boundsIndexDict graphDict features = Ok graphDict' ->
  forall a b,
    (In a valueSet -> In b valueSet ->
     edgeCount graphDict' a b
     = edgeCount graphDict a b
       + pairHits boundsIndexDict features a b
       + pairHits boundsIndexDict features b a) /\
    (~ (In a valueSet /\ In b valueSet) ->
     edgeCount graphDict' a b = edgeCount graphDict a b).
Proof.
  intros Hnd Hrun a b. rewrite findEdges_schedule in Hrun by assumption.
  rewrite (findEdges_schedule_count _ _ a b _ _ _ Hrun).
  rewrite schedule_weight by assumption. rewrite <- !list_elem_of_In. split.
  - intros Ha Hb. rewrite decide_True by auto. lia.
  - intros Hno. rewrite decide_False by assumption. lia.
Qed.

Lemma findEdges_edge_counts_witness :
  match findEdges ["a"; "b"; "c"] bounds_abc graph_abc features_abc with
  | Ok g' => edgeCount g' "a" "b" = 2 /\ edgeCount g' "a" "a" = 2
  | Err _ => False
  end.
Proof.
  destruct (findEdges ["a"; "b"; "c"] bounds_abc graph_abc features_abc)
    as [g'|e] eqn:Hrun.
  - assert (Hnd : NoDup ["a"; "b"; "c"])
      by (apply (bool_decide_unpack _); vm_compute; reflexivity).
    pose proof (findEdges_edge_counts _ _ _ _ _ Hnd Hrun) as Hc.
    rewrite (proj1 (Hc "a" "b")), (proj1 (Hc "a" "a")) by (simpl; tauto).
    split; vm_compute; reflexivity.
  - vm_compute in Hrun. discriminate Hrun.
Defined.

(** ** [findEdges]: what every run keeps *)

Lemma foldM_ok_body {A S} (body : S -> A -> Result S) l : forall acc acc',
  foldM body acc l = Ok acc' ->
  forall a, In a l -> exists s s', body s a = Ok s'.
Proof.
  induction l as [|x l IH]; intros acc acc'; simpl; [tauto|].
  intros Hrun a Hin. apply bind_Ok_inv in Hrun as (acc1 & Hstep & Hrun).
  destruct Hin as [<-|Hin]; eauto.
Qed.

(** A property of the graph dictionary that every call of [updateEdges] on
    two values of the set keeps is kept by [findEdges]. *)
Lemma findEdges_invariant `{Host} (P : gmap string Vertex -> Prop)
    valueSet boundsIndexDict features :
  (forall d v1 v2 d',
      In v1 valueSet -> In v2 valueSet ->
      P d -> updateEdges d v1 v2 = Ok d' -> P d') ->
  forall g g',
    P g -> findEdges valueSet boundsIndexDict g features = Ok g' -> P g'.
Proof.
  intros Hupd g g' HP Hrun. unfold findEdges in Hrun.
  apply bind_Ok_inv in Hrun as ([vs2 g1] & Hrun & [= <-]).
  apply (foldM_invariant (fun st => P st.2) _ _) with (acc := (valueSet, g))
    (acc' := (vs2, g1)) in Hrun; [exact Hrun| |exact HP].
  intros [vs2a d] value1 [vs2b d'] Hv1 Hd Hstep. simpl in Hd |- *.
  unfold findEdges_outer in Hstep.
  apply bind_Ok_inv in Hstep as (vs2c & _ & Hstep).
  apply bind_Ok_inv in Hstep as ([bounds index1] & _ & Hstep).
  apply bind_Ok_inv in Hstep as (d1 & Hinner & [= <- <-]).
  eapply (foldM_invariant P); [|exact Hd|exact Hinner].
  intros da value2 db Hv2 Hda Hpair. unfold findEdges_pair in Hpair.
  apply bind_Ok_inv in Hpair as ([tempBounds index2] & _ & Hpair).
  destruct (rect_intersects (rectangleOf bounds) (rectangleOf tempBounds));
    [|now injection Hpair as <-].
  unfold findEdges_candidates in Hpair.
  eapply (foldM_invariant P); [|exact Hda|exact Hpair].
  intros dc id1 dd _ Hdc Hrow. unfold findEdges_row in Hrow.
  apply bind_Ok_inv in Hrow as (feature1 & _ & Hrow).
  eapply (foldM_invariant P); [|exact Hdc|exact Hrow].
  intros de id2 df _ Hde Htest. unfold findEdges_test in Htest.
  apply bind_Ok_inv in Htest as (feature2 & _ & Htest).
  destruct (geom_intersects (geometry feature2) (geometry feature1));
    [eauto | now injection Htest as <-].
Qed.

Lemma updateEdges_symmetric d v1 v2 d' :
  symmetricEdges d -> updateEdges d v1 v2 = Ok d' -> symmetricEdges d'.
Proof.
  intros Hsym Hu a b.
  rewrite (updateEdges_count _ _ _ _ a b Hu), (updateEdges_count _ _ _ _ b a Hu).
  rewrite (Hsym a b).
  destruct (decide (a = v1 /\ b = v2)), (decide (a = v2 /\ b = v1)),
    (decide (b = v1 /\ a = v2)), (decide (b = v2 /\ a = v1)); try lia; tauto.
Qed.

Lemma findEdges_symmetric `{Host} valueSet boundsIndexDict features g g' :
  symmetricEdges g ->
  findEdges valueSet boundsIndexDict g features = Ok g' -> symmetricEdges g'.
Proof.
  apply (findEdges_invariant symmetricEdges).
  intros d v1 v2 d' _ _. apply updateEdges_symmetric.
Qed.

Lemma emptyGraph_lookup fieldValues k :
  emptyGraph fieldValues !! k
  = if decide (k ∈ fieldValues) then Some (mkVertex [] None) else None.
Proof.
  unfold emptyGraph.
  assert (Hgen : forall l (g0 : gmap string Vertex),
             fold_left (fun g value => <[value := mkVertex [] None]> g) l g0 !! k
             = if decide (k ∈ l) then Some (mkVertex [] None) else g0 !! k).
  { induction l as [|x l IH]; intros g0; cbn [fold_left].
    - rewrite decide_False by apply not_elem_of_nil. reflexivity.
    - rewrite IH. destruct (decide (k ∈ l)) as [Hin|Hin].
      + rewrite decide_True by now apply list_elem_of_further. reflexivity.
      + destruct (decide (x = k)) as [->|Hne].
        * rewrite decide_True by apply list_elem_of_here. apply lookup_insert_eq.
        * rewrite decide_False by (intros [?|?]%elem_of_cons; congruence).
          now apply lookup_insert_ne. }
  rewrite Hgen. now destruct (decide (k ∈ fieldValues)).
Qed.

Lemma emptyGraph_symmetric fieldValues : symmetricEdges (emptyGraph fieldValues).
Proof.
  intros a b. unfold edgeCount. rewrite !emptyGraph_lookup.
  destruct (decide (a ∈ fieldValues)), (decide (b ∈ fieldValues)); reflexivity.
Qed.

(** X7.  [findEdges] keeps the edge lists symmetric: when every list of
    the graph it is given mentions [b] for [a] as often as [a] for [b] (as
    in the empty lists the script starts from), so does every list of the
    graph it returns, whatever the intersection test answers. *)
Theorem findEdges_keeps_edges_symmetric `{Host} valueSet boundsIndexDict
    features graphDict graphDict' :
  (forall a b, edgeCount graphDict a b = edgeCount graphDict b a) ->
  findEdges valueSet boundsIndexDict graphDict features = Ok graphDict' ->
  forall a b, edgeCount graphDict' a b = edgeCount graphDict' b a.
Proof. apply findEdges_symmetric. Qed.

Lemma findEdges_keeps_edges_symmetric_witness :
  match findEdges ["a"; "b"; "c"] bounds_abc graph_abc features_abc with
  | Ok g' => edgeCount g' "a" "b" = edgeCount g' "b" "a"
  | Err _ => False
  end.
Proof.
  destruct (findEdges ["a"; "b"; "c"] bounds_abc graph_abc features_abc)
    as [g'|e] eqn:Hrun.
  - apply (findEdges_keeps_edges_symmetric ["a"; "b"; "c"] bounds_abc
             features_abc graph_abc g'); [|exact Hrun].
    replace graph_abc with (emptyGraph ["a"; "b"; "c"])
      by (vm_compute; reflexivity).
    apply emptyGraph_symmetric.
  - vm_compute in Hrun. discriminate Hrun.
Defined.

Lemma appendedFrom_refl values g : appendedFrom values g g.
Proof.
  intros k. destruct (g !! k) as [[es at_]|] eqn:Hk; [|reflexivity].
  exists []. simpl. rewrite app_nil_r. split; [reflexivity | constructor].
Qed.

Lemma appendEdge_appendedFrom values g d k v d' :
  In v values -> appendedFrom values g d -> appendEdge d k v = Ok d' ->
  appendedFrom values g d'.
Proof.
  intros Hv Hd (vx0 & Hk0 & ->)%appendEdge_ok j. specialize (Hd j).
  destruct (decide (k = j)) as [->|Hne].
  - rewrite lookup_insert_eq.
    destruct (g !! j) as [vx|]; [|congruence].
    destruct Hd as (added & Hj & Hall). rewrite Hj in Hk0. injection Hk0 as <-.
    exists (added ++ [v]). simpl. rewrite app_assoc. split; [reflexivity|].
    apply Forall_app. split; [assumption | now constructor].
  - now rewrite lookup_insert_ne.
Qed.

Lemma updateEdges_appendedFrom values g d v1 v2 d' :
  In v1 values -> In v2 values -> appendedFrom values g d ->
  updateEdges d v1 v2 = Ok d' -> appendedFrom values g d'.
Proof.
  intros H1 H2 Hd Hu. unfold updateEdges in Hu.
  apply bind_Ok_inv in Hu as (d1 & Ha & Hb).
  eapply appendEdge_appendedFrom; [exact H1| |exact Hb].
  eapply appendEdge_appendedFrom; [exact H2|exact Hd|exact Ha].
Qed.

Lemma findEdges_appendedFrom `{Host} valueSet boundsIndexDict features g g' :
  findEdges valueSet boundsIndexDict g features = Ok g' ->
  appendedFrom valueSet g g'.
Proof.
  apply (findEdges_invariant (appendedFrom valueSet g)).
  - intros d v1 v2 d'. apply updateEdges_appendedFrom.
  - apply appendedFrom_refl.
Qed.

(** X8.  [findEdges] only appends to edge lists: the graph it returns has
    the keys of the graph it was given and nothing else, every vertex keeps
    its attributes, its old edge list is the beginning of its new one, and
    every appended entry is a value of the value set. *)
Theorem findEdges_only_appends `{Host} valueSet boundsIndexDict features
    graphDict graphDict' :
  findEdges valueSet boundsIndexDict graphDict features = Ok graphDict' ->
  forall k,
    (graphDict !! k = None -> graphDict' !! k = None) /\
    (forall vx,
        graphDict !! k = Some vx ->
        exists added,
          graphDict' !! k = Some (mkVertex (edges vx ++ added) (attributes vx)) /\
          forall w, In w added -> In w valueSet).
Proof.
  intros Hrun k. pose proof (findEdges_appendedFrom _ _ _ _ _ Hrun k) as Hk.
  split.
  - intros Hnone. now rewrite Hnone in Hk.
  - intros vx Hvx. rewrite Hvx in Hk. destruct Hk as (added & Hk & Hall).
    exists added. split; [assumption|]. exact (proj1 (List.Forall_forall _ _) Hall).
Qed.

Lemma findEdges_only_appends_witness :
  match findEdges ["a"; "b"; "c"] bounds_abc graph_abc features_abc with
  | Ok g' => g' !! "zz" = None
  | Err _ => False
  end.
Proof.
  destruct (findEdges ["a"; "b"; "c"] bounds_abc graph_abc features_abc)
    as [g'|e] eqn:Hrun.
  - apply (proj1 (findEdges_only_appends _ _ _ _ _ Hrun "zz")).
    vm_compute. reflexivity.
  - vm_compute in Hrun. discriminate Hrun.
Defined.

(** X9.  [findEdges] needs the bounds and the index of every value of the
    set: when it returns, every value is a key of [boundsIndexDict]; and
    when the first value is no key, the call ends with the [KeyError] of
    that value. *)
Theorem findEdges_needs_every_entry `{Host} valueSet boundsIndexDict
    graphDict features :
  (forall graphDict',
      findEdges valueSet boundsIndexDict graphDict features = Ok graphDict' ->
      forall v, In v valueSet -> is_Some (boundsIndexDict !! v)) /\
  (forall v rest,
      valueSet = v :: rest -> boundsIndexDict !! v = None ->
      findEdges valueSet boundsIndexDict graphDict features
      = Err (KeyError (KStr v))).
Proof.
  split.
  - intros g' Hrun v Hv. unfold findEdges in Hrun.
    apply bind_Ok_inv in Hrun as (st & Hrun & _).
    destruct (foldM_ok_body _ _ _ _ Hrun v Hv) as ([vs2 d] & st' & Hstep).
    unfold findEdges_outer in Hstep.
    apply bind_Ok_inv in Hstep as (vs2' & _ & Hstep).
    apply bind_Ok_inv in Hstep as (entry & Hentry & _).
    unfold dict_get in Hentry.
    destruct (boundsIndexDict !! v); [eauto | discriminate].
  - intros v rest -> Hv. unfold findEdges. cbn [foldM].
    do 2 apply bind_Err. unfold findEdges_outer, set_remove, dict_get.
    cbn [existsb]. rewrite String.eqb_refl, Hv. reflexivity.
Qed.

Lemma findEdges_needs_every_entry_witness :
  findEdges ["zz"; "a"] bounds_abc graph_abc features_abc
  = Err (KeyError (KStr "zz")).
Proof.
  apply (proj2 (findEdges_needs_every_entry ["zz"; "a"] bounds_abc graph_abc
                  features_abc) "zz" ["a"]).
  - reflexivity.
  - vm_compute. reflexivity.
Defined.

(** ** [processParameters]: what it builds *)

Lemma set_add_In v s w : In w (set_add v s) <-> w = v \/ In w s.
Proof.
  unfold set_add. destruct (existsb (String.eqb v) s) eqn:Hex.
  - split; [tauto|]. intros [->|Hw]; [|assumption].
    apply existsb_exists in Hex as (u & Hu & Heq).
    apply String.eqb_eq in Heq. now subst.
  - rewrite in_app_iff. simpl. split; [intros [?|[?|[]]] | intros [?|?]]; auto.
Qed.

Section ParameterValues.
Context `{Host}.

Lemma processParameters_feature_value Field fieldValues allFeatures feature st' :
  processParameters_feature Field (fieldValues, allFeatures) feature = Ok st' ->
  exists s, valueOf Field feature s /\
            st' = (set_add s fieldValues, <[fid feature := feature]> allFeatures).
Proof.
  unfold processParameters_feature, getitem, valueOf. intros Hrun.
  apply bind_Ok_inv in Hrun as (v & Hv & Hrun).
  apply bind_Ok_inv in Hrun as (s & Hs & Hrun).
  injection Hrun as <-.
  destruct (assoc Field (attrs feature)) as [x|]; [|discriminate].
  injection Hv as ->. eauto.
Qed.

Lemma processParameters_scan_values Field fs :
  forall fieldValues allFeatures fv af,
    foldM (processParameters_feature Field) (fieldValues, allFeatures) fs
    = Ok (fv, af) ->
    (forall v, In v fv <->
               In v fieldValues \/ exists f, In f fs /\ valueOf Field f v) /\
    (forall f, In f fs -> exists v, valueOf Field f v) /\
    (forall id f, af !! id = Some f ->
                  allFeatures !! id = Some f \/ (In f fs /\ fid f = id)).
Proof.
  induction fs as [|f0 fs IH]; intros fieldValues allFeatures fv af; simpl.
  - intros [= <- <-]. split; [|split].
    + intros v. split; [tauto|]. intros [?|(f & [] & _)]. assumption.
    + intros f [].
    + auto.
  - intros Hrun. apply bind_Ok_inv in Hrun as (st1 & Hstep & Hrun).
    apply processParameters_feature_value in Hstep as (s & Hs & ->).
    destruct (IH _ _ _ _ Hrun) as (Hvals & Hevery & Hmap).
    split; [|split].
    + intros v. rewrite Hvals, set_add_In. split.
      * intros [[->|Hv]|(f & Hf & Hfv)]; eauto.
      * intros [Hv|(f & [<-|Hf] & Hfv)]; eauto.
        left. left. destruct Hs as (x & Hx & Hsx), Hfv as (x' & Hx' & Hvx).
        congruence.
    + intros f [<-|Hf]; eauto.
    + intros id f Hlk. destruct (Hmap id f Hlk) as [Hins|[Hf Hid]]; [|auto].
      apply lookup_insert_Some in Hins as [[<- <-]|[_ Hold]]; auto.
Qed.

(** X10.  What [processParameters] returns: the field values without
    repetition, being exactly the strings of the values of the grouping
    field on the features of the layer (every feature has the field and
    its value converts); a graph dictionary with exactly these keys, each
    an empty edge list and no attributes; the field names of the layer;
    and a feature dictionary whose every entry is a feature of the layer
    under its own identifier, holding every feature when the identifiers
    are distinct. *)
Theorem processParameters_outputs layer field allFeatures fieldValues
    graphDict layerFields :
  processParameters layer field
  = Ok (allFeatures, fieldValues, graphDict, layerFields) ->
  NoDup fieldValues /\
  (forall v, In v fieldValues <->
             exists f, In f (getFeatures layer) /\ valueOf field f v) /\
  (forall f, In f (getFeatures layer) -> exists v, valueOf field f v) /\
  (forall k, In k fieldValues -> graphDict !! k = Some (mkVertex [] None)) /\
  (forall k, ~ In k fieldValues -> graphDict !! k = None) /\
  layerFields = pendingFields layer /\
  (forall id f, allFeatures !! id = Some f ->
                In f (getFeatures layer) /\ fid f = id) /\
  (NoDup (map fid (getFeatures layer)) ->
   forall f, In f (getFeatures layer) -> allFeatures !! fid f = Some f).
Proof.
  intros Hpp.
  pose proof (processParameters_layerFields _ _ _ _ _ _ Hpp) as Hlf.
  destruct (processParameters_ok _ _ _ _ _ _ Hpp) as (Hnd & _ & Hall).
  unfold processParameters in Hpp.
  apply bind_Ok_inv in Hpp as ([fv af] & Hscan & Hpp).
  apply bind_Ok_inv in Hpp as (lf & _ & Hpp).
  injection Hpp as <- <- <- <-.
  destruct (processParameters_scan_values _ _ _ _ _ _ Hscan)
    as (Hvals & Hevery & Hmap).
  split; [exact Hnd|]. split; [|split; [exact Hevery|]].
  { intros v. rewrite Hvals. split; [intros [[]|?]|]; auto. }
  split; [|split; [|split; [exact Hlf|split; [|exact Hall]]]].
  - intros k Hk. rewrite emptyGraph_lookup.
    now rewrite decide_True by now apply list_elem_of_In.
  - intros k Hk. rewrite emptyGraph_lookup.
    now rewrite decide_False by now rewrite list_elem_of_In.
  - intros id f Hlk. destruct (Hmap id f Hlk) as [Hempty|?]; [|assumption].
    now rewrite lookup_empty in Hempty.
Qed.

End ParameterValues.

Lemma processParameters_outputs_witness :
  NoDup ["a"; "b"; "c"] /\
  (forall f, In f (getFeatures layer_abc) -> features_abc !! fid f = Some f).
Proof.
  destruct (processParameters_outputs layer_abc "name" features_abc
              ["a"; "b"; "c"] graph_abc ["name"] layer_abc_parameters)
    as (Hnd & _ & _ & _ & _ & _ & _ & Hall).
  split; [exact Hnd|]. apply Hall.
  apply (bool_decide_unpack _). vm_compute. reflexivity.
Defined.

(** ** [boundsAndIndexDict]: what it stores *)

Lemma boundsAndIndexDict_scan_index g : forall idx x y idx' x' y',
  forGen boundsAndIndexDict_feature (idx, x, y) g = Ok (idx', x', y') ->
  idx' = idx ++ map indexEntry (yielded g) /\ raised g = None.
Proof.
  induction g as [| e | f0 rest IH]; intros idx x y idx' x' y'; simpl.
  - intros [= <- <- <-]. now rewrite app_nil_r.
  - discriminate.
  - intros Hrun. apply bind_Ok_inv in Hrun as ([[idx1 x1] y1] & Hstep & Hrun).
    unfold boundsAndIndexDict_feature in Hstep.
    apply bind_Ok_inv in Hstep as (rb & _ & [= <- <- <-]).
    destruct (IH _ _ _ _ _ _ Hrun) as [-> Hr]. split; [|exact Hr].
    unfold insertFeature, indexEntry. now rewrite <- app_assoc.
Qed.

Section StoredEntries.
Context `{Host}.

Lemma boundsAndIndexDict_value_exact layer field value bounds
    (index : QgsSpatialIndex) :
  boundsAndIndexDict_value layer field value = Ok (bounds, index) ->
  index = map indexEntry (yielded (filter layer (buildExpression field value))) /\
  raised (filter layer (buildExpression field value)) = None /\
  yielded (filter layer (buildExpression field value)) <> [] /\
  (b0 bounds <= b2 bounds)%Q /\ (b1 bounds <= b3 bounds)%Q /\
  (forall f, In f (yielded (filter layer (buildExpression field value))) ->
             exists rb, rectBounds (geometry f) = Ok rb /\ within rb bounds).
Proof.
  intros Hentry.
  destruct (boundsAndIndexDict_value_good _ _ _ _ Hentry) as (Hx & Hy & _).
  destruct (boundsAndIndexDict_value_members _ _ _ _ Hentry)
    as [(f0 & rest & Hgen) _].
  unfold boundsAndIndexDict_value in Hentry.
  apply bind_Ok_inv in Hentry as ([[idx x] y] & Hloop & Hentry).
  apply bind_Ok_inv in Hentry as (xmin & Hxmin & Hentry).
  apply bind_Ok_inv in Hentry as (ymin & Hymin & Hentry).
  apply bind_Ok_inv in Hentry as (xmax & Hxmax & Hentry).
  apply bind_Ok_inv in Hentry as (ymax & Hymax & Hentry).
  injection Hentry as <- <-.
  destruct (boundsAndIndexDict_scan_index _ _ _ _ _ _ _ Hloop) as [Hidx Hr].
  destruct (boundsAndIndexDict_scan _ _ _ _ _ _ _ Hloop) as (_ & Hmem & _).
  split; [exact Hidx|]. split; [exact Hr|]. split; [now rewrite Hgen|].
  split; [exact Hx|]. split; [exact Hy|].
  intros f Hf. destruct (Hmem f Hf) as (_ & rb & Hrb & Hx0 & Hx1 & Hy0 & Hy1).
  exists rb. split; [exact Hrb|]. unfold within. cbn [b0 b1 b2 b3].
  repeat split;
    first [eapply py_min_le; eassumption | eapply py_max_ge; eassumption].
Qed.

(** X11.  What [boundsAndIndexDict] returns: a dictionary whose keys are
    exactly the values of the value set.  For each value the index holds,
    in the order of the layer, the identifier and the bounding box of
    every feature the filter of that value yields, and there is at least
    one; the filter ended without error; the bounds have
    [xMin <= xMax] and [yMin <= yMax] and contain what [rectBounds]
    returns for every such feature. *)
Theorem boundsAndIndexDict_stores_the_members layer valueSet field d :
  boundsAndIndexDict layer valueSet field = Ok d ->
  (forall k, is_Some (d !! k) <-> In k valueSet) /\
  (forall v bounds (index : QgsSpatialIndex),
      d !! v = Some (bounds, index) ->
      index = map indexEntry (yielded (filter layer (buildExpression field v))) /\
      raised (filter layer (buildExpression field v)) = None /\
      yielded (filter layer (buildExpression field v)) <> [] /\
      (b0 bounds <= b2 bounds)%Q /\ (b1 bounds <= b3 bounds)%Q /\
      (forall f, In f (yielded (filter layer (buildExpression field v))) ->
                 exists rb, rectBounds (geometry f) = Ok rb /\ within rb bounds)).
Proof.
  intros Hd.
  assert (Hkeys : forall k, is_Some (d !! k) <-> In k valueSet).
  { intros k. split.
    - intros Hk. destruct (in_dec String.string_dec k valueSet) as [|Hnin];
        [assumption|].
      rewrite (boundsAndIndexDict_fold_other _ _ _ _ _ _ Hd Hnin) in Hk.
      rewrite lookup_empty in Hk. now destruct Hk.
    - intros Hk.
      destruct (boundsAndIndexDict_entries _ _ _ _ Hd k Hk) as (e & _ & ->).
      eauto. }
  split; [exact Hkeys|]. intros v bounds index Hv.
  assert (Hin : In v valueSet) by (apply Hkeys; eauto).
  destruct (boundsAndIndexDict_entries _ _ _ _ Hd v Hin) as (e & He & Hde).
  assert (Heq : e = (bounds, index)) by congruence. subst e.
  now apply boundsAndIndexDict_value_exact.
Qed.

(** X12.  [boundsAndIndexDict] handles the values in order and stops at
    the first one whose group cannot be built: the call ends with the
    exception of that value (a parser or evaluation error of its
    expression, a failure of [rectBounds], or [min] of the empty list),
    whatever the values after it are. *)
Theorem boundsAndIndexDict_first_failure layer field pre key post e :
  (forall k, In k pre -> isOk (boundsAndIndexDict_value layer field k) = true) ->
  boundsAndIndexDict_value layer field key = Err e ->
  boundsAndIndexDict layer (pre ++ key :: post) field = Err e.
Proof.
  intros Hpre Hkey. unfold boundsAndIndexDict. rewrite foldM_app.
  destruct (boundsAndIndexDict_fold_prefix layer field pre ∅ Hpre) as (d1 & ->).
  cbn [mbind Result_bind foldM]. apply bind_Err.
  unfold boundsAndIndexDict_step. now rewrite Hkey.
Qed.

End StoredEntries.

Lemma boundsAndIndexDict_stores_the_members_witness :
  boundsAndIndexDict layer_abc ["a"; "b"; "c"] "name" = Ok bounds_abc /\
  (is_Some (bounds_abc !! "b") <-> In "b" ["a"; "b"; "c"]) /\
  [(2%Z, mkRect 1 1 2 2)]
  = map indexEntry (yielded (filter layer_abc (buildExpression "name" "b"))) /\
  raised (filter layer_abc (buildExpression "name" "b")) = None.
Proof.
  split; [exact layer_abc_bounds|].
  destruct (boundsAndIndexDict_stores_the_members layer_abc
              ["a"; "b"; "c"] "name" bounds_abc layer_abc_bounds)
    as [Hkeys Hentries].
  split; [apply Hkeys|].
  assert (Hb : bounds_abc !! "b"
               = Some (mkBounds 1 1 1 1, [(2%Z, mkRect 1 1 2 2)]))
    by (vm_compute; reflexivity).
  destruct (Hentries "b" _ _ Hb) as (Hindex & Hraised & _).
  split; [exact Hindex | exact Hraised].
Defined.

Lemma boundsAndIndexDict_first_failure_witness :
  boundsAndIndexDict layer_abc ["a"; "o'b"; "c"] "name"
  = Err (PyException "syntax error").
Proof.
  apply (boundsAndIndexDict_first_failure layer_abc "name" ["a"] "o'b" ["c"]).
  - intros k [<-|[]]. vm_compute. reflexivity.
  - vm_compute. reflexivity.
Defined.

(** ** [addAttributesDict]: the representative feature *)

(** X13.  When the layer has at least one field, [addAttributesDict]
    returns only if [quickFilter] found a feature for every vertex key and
    that feature has every field of [layerFields]; a key without matching
    feature makes the call fail instead of leaving a vertex without
    attributes. *)
Theorem addAttributesDict_needs_a_representative `{Host} layer vertexField
    name layerFields g g' :
  addAttributesDict layer vertexField (name :: layerFields) g = Ok g' ->
  forall key,
    is_Some (g !! key) ->
    exists feature,
      quickFilter layer (buildExpression vertexField key) = Ok (Some feature) /\
      forall field, In field (name :: layerFields) ->
                    is_Some (assoc field (attrs feature)).
Proof.
  intros Hrun key Hkey.
  destruct (addAttributesDict_spec _ _ _ _ _ Hrun) as [Hkeys Hattrs].
  apply Hkeys in Hkey as [vx' Hvx'].
  destruct (Hattrs key vx' Hvx') as (vx & fi & d & _ & _ & Hq & _ & Hfields).
  destruct (Hfields name (or_introl eq_refl)) as (feature & v & a & -> & _).
  exists feature. split; [exact Hq|]. intros field Hfield.
  destruct (Hfields field Hfield) as (feature' & v' & a' & Heq & Hv' & _).
  injection Heq as <-. eauto.
Qed.

Lemma addAttributesDict_needs_a_representative_witness :
  match addAttributesDict layer_attrs "name" ["name"; "code"; "side"]
                          {["a" := mkVertex [] None]} with
  | Ok _ =>
      exists feature,
        quickFilter layer_attrs (buildExpression "name" "a") = Ok (Some feature)
  | Err _ => False
  end.
Proof.
  destruct (addAttributesDict layer_attrs "name" ["name"; "code"; "side"]
                              {["a" := mkVertex [] None]}) as [g'|e] eqn:Hrun.
  - destruct (addAttributesDict_needs_a_representative _ _ _ _ _ _ Hrun "a")
      as (feature & Hq & _); [vm_compute; eauto|].
    exists feature. exact Hq.
  - vm_compute in Hrun. discriminate Hrun.
Defined.

(** ** [smallRectangle]: the common part of two boxes *)

(** X14.  For two bounds lists with [xMin <= xMax] and [yMin <= yMax]
    that pass the prefilter, the rectangle [smallRectangle] returns is
    exactly the common part of the two boxes: a point lies in it if and
    only if it lies in both. *)
Theorem smallRectangle_is_the_common_part bounds1 bounds2 :
  (b0 bounds1 <= b2 bounds1)%Q -> (b1 bounds1 <= b3 bounds1)%Q ->
  (b0 bounds2 <= b2 bounds2)%Q -> (b1 bounds2 <= b3 bounds2)%Q ->
  prefilter bounds1 bounds2 = true ->
  forall p, inRect (smallRectangle bounds1 bounds2) p
            <-> encloses bounds1 p /\ encloses bounds2 p.
Proof.
  intros Hx1 Hy1 Hx2 Hy2 Hpre p. unfold prefilter in Hpre.
  rewrite !rectangleOf_normal in Hpre by assumption.
  apply rect_intersects_true in Hpre. cbn in Hpre.
  unfold inRect, encloses, smallRectangle, newQgsRectangle, py_max2, py_min2.
  simpl.
  case_lt (b0 bounds1) (b0 bounds2); case_lt (b2 bounds2) (b2 bounds1);
    (match goal with |- context [Qlt_bool ?a ?b] => case_lt a b end; [lra|]);
    case_lt (b1 bounds1) (b1 bounds2); case_lt (b3 bounds2) (b3 bounds1);
    (match goal with |- context [Qlt_bool ?a ?b] => case_lt a b end; [lra|]);
    simpl; split; intros; repeat split; lra.
Qed.

Lemma smallRectangle_is_the_common_part_witness :
  inRect (smallRectangle (mkBounds 0 0 2 2) (mkBounds 1 1 3 3)) (mkPoint 1 2).
Proof.
  apply (smallRectangle_is_the_common_part (mkBounds 0 0 2 2) (mkBounds 1 1 3 3));
    [simpl; lra | simpl; lra | simpl; lra | simpl; lra | reflexivity |].
  unfold encloses. simpl. repeat split; lra.
Defined.

(** ** [buildGraph]: the graph of a run *)

Section WholeRun.
Context `{Host}.

Lemma processParameters_graph layer field allFeatures fieldValues graphDict
    layerFields :
  processParameters layer field
  = Ok (allFeatures, fieldValues, graphDict, layerFields) ->
  graphDict = emptyGraph fieldValues /\
  (forall v, In v fieldValues <->
             exists f, In f (getFeatures layer) /\ valueOf field f v).
Proof.
  unfold processParameters. intros Hpp.
  apply bind_Ok_inv in Hpp as ([fv af] & Hscan & Hpp).
  apply bind_Ok_inv in Hpp as (lf & _ & Hpp).
  injection Hpp as <- <- <- <-. split; [reflexivity|].
  destruct (processParameters_scan_values _ _ _ _ _ _ Hscan) as (Hvals & _).
  intros v. rewrite Hvals. split; [intros [[]|?]|]; auto.
Qed.

Lemma layerFields_ascii names : forall acc,
  Forall (fun name => is_ascii_string name = true) names ->
  foldM (fun layerFields name =>
           s ← py_str (VString name);
           Ok (layerFields ++ [s])) acc names = Ok (acc ++ names).
Proof.
  induction names as [|name names IH]; intros acc Hall; simpl.
  - now rewrite app_nil_r.
  - apply Forall_cons in Hall as [Hname Hall]. rewrite Hname.
    cbn [mbind Result_bind]. rewrite IH by assumption.
    now rewrite <- app_assoc.
Qed.

Lemma buildGraph_facts layer field graph :
  buildGraph layer field = Ok graph ->
  (forall k, is_Some (graph !! k) <->
             exists f, In f (getFeatures layer) /\ valueOf field f k) /\
  (forall k vx w, graph !! k = Some vx -> In w (edges vx) ->
                  is_Some (graph !! w)) /\
  (forall a b, edgeCount graph a b = edgeCount graph b a) /\
  (forall k vx, graph !! k = Some vx -> is_Some (attributes vx)).
Proof.
  unfold buildGraph. intros Hrun.
  apply bind_Ok_inv in Hrun as ([[[af fv] g0] lf] & Hpp & Hrun).
  apply bind_Ok_inv in Hrun as (bid & _ & Hrun).
  apply bind_Ok_inv in Hrun as (g1 & Hedges & Hattrs).
  destruct (processParameters_graph _ _ _ _ _ _ Hpp) as [-> Hvals].
  pose proof (findEdges_appendedFrom _ _ _ _ _ Hedges) as Happ.
  pose proof (findEdges_symmetric _ _ _ _ _ (emptyGraph_symmetric fv) Hedges)
    as Hsym.
  destruct (addAttributesDict_spec _ _ _ _ _ Hattrs) as [Hkeys Hspec].
  assert (Hg1 : forall k, is_Some (g1 !! k) <-> In k fv).
  { intros k. specialize (Happ k). rewrite emptyGraph_lookup in Happ.
    rewrite <- list_elem_of_In. destruct (decide (k ∈ fv)) as [Hk|Hk].
    - destruct Happ as (added & -> & _). split; eauto.
    - rewrite Happ. split; [intros [? ?]; discriminate | tauto]. }
  assert (Hsame : forall k vx, graph !! k = Some vx ->
                               exists vx1, g1 !! k = Some vx1 /\
                                           edges vx = edges vx1).
  { intros k vx Hk. destruct (Hspec k vx Hk) as (vx1 & _ & _ & Hk1 & He & _).
    eauto. }
  split; [|split; [|split]]; cycle 3.
  - intros k vx Hk. destruct (Hspec k vx Hk) as (_ & _ & a & _ & _ & _ & -> & _).
    eauto.
  - intros k. now rewrite Hkeys, Hg1, Hvals.
  - intros k vx w Hk Hw. destruct (Hsame k vx Hk) as (vx1 & Hk1 & He).
    rewrite He in Hw. apply Hkeys, Hg1.
    specialize (Happ k). rewrite emptyGraph_lookup in Happ.
    destruct (decide (k ∈ fv)); [|congruence].
    destruct Happ as (added & Hk1' & Hall). rewrite Hk1 in Hk1'.
    injection Hk1' as ->. simpl in Hw.
    exact (proj1 (List.Forall_forall _ _) Hall w Hw).
  - assert (Hcount : forall a b, edgeCount graph a b = edgeCount g1 a b).
    { intros a b. unfold edgeCount.
      destruct (graph !! a) as [vx|] eqn:Ha.
      - destruct (Hsame a vx Ha) as (vx1 & -> & ->). reflexivity.
      - destruct (g1 !! a) as [vx1|] eqn:Ha1; [|reflexivity].
        assert (Hs : is_Some (graph !! a)) by (apply Hkeys; eauto).
        rewrite Ha in Hs. now destruct Hs. }
    intros a b. rewrite !Hcount. apply Hsym.
Qed.

(** X15.  The graph [buildGraph] returns: its vertex keys are exactly the
    strings of the values of the grouping field on the features of the
    layer; every entry of an edge list is itself a vertex key; and the
    edge lists are symmetric, [b] being listed for [a] as often as [a] for
    [b]. *)
Theorem buildGraph_vertices_and_edges layer field graph :
  buildGraph layer field = Ok graph ->
  (forall k, is_Some (graph !! k) <->
             exists f, In f (getFeatures layer) /\ valueOf field f k) /\
  (forall k vx w, graph !! k = Some vx -> In w (edges vx) ->
                  is_Some (graph !! w)) /\
  (forall a b, edgeCount graph a b = edgeCount graph b a).
Proof.
  intros Hrun.
  destruct (buildGraph_facts _ _ _ Hrun) as (Hkeys & Hclosed & Hsym & _).
  auto.
Qed.

(** X16.  On a layer without features (and with ASCII field names) the
    run raises nothing and [buildGraph] returns the empty graph. *)
Theorem buildGraph_of_empty_layer layer field :
  getFeatures layer = [] ->
  Forall (fun name => is_ascii_string name = true) (pendingFields layer) ->
  buildGraph layer field = Ok ∅.
Proof.
  intros Hfs Hnames. unfold buildGraph, processParameters. rewrite Hfs.
  cbn [foldM mbind Result_bind].
  rewrite (layerFields_ascii _ [] Hnames). cbn [mbind Result_bind app].
  unfold emptyGraph, boundsAndIndexDict, findEdges, addAttributesDict, dict_keys.
  cbn [fold_left foldM mbind Result_bind].
  now rewrite map_to_list_empty.
Qed.

End WholeRun.

Lemma buildGraph_vertices_and_edges_witness :
  match buildGraph layer_abc "name" with
  | Ok graph => forall a b, edgeCount graph a b = edgeCount graph b a
  | Err _ => False
  end.
Proof.
  destruct (buildGraph layer_abc "name") as [graph|e] eqn:Hrun.
  - exact (proj2 (proj2 (buildGraph_vertices_and_edges _ _ _ Hrun))).
  - vm_compute in Hrun. discriminate Hrun.
Defined.

Lemma buildGraph_of_empty_layer_witness :
  buildGraph (mkLayer [] ["name"]) "name" = Ok ∅.
Proof.
  apply buildGraph_of_empty_layer; [reflexivity|].
  repeat constructor.
Defined.

(** ** [nxEdgeTuples] and [nxGraph] *)

Lemma nxEdgeTuples_map vertex edgeList :
  nxEdgeTuples vertex edgeList = map (fun edge => (vertex, edge)) edgeList.
Proof.
  unfold nxEdgeTuples.
  assert (Hgen : forall (l : list string) (acc : list (string * string)),
             fold_left (fun edgeTuples edge => edgeTuples ++ [(vertex, edge)]) l acc
             = acc ++ map (fun edge => (vertex, edge)) l).
  { induction l as [|e l IH]; intros acc; simpl; [now rewrite app_nil_r|].
    now rewrite IH, <- app_assoc. }
  apply Hgen.
Qed.

Lemma add_node_spec graph n :
  consistent graph ->
  consistent (add_node graph n) /\
  nodesAdded [n] graph (add_node graph n) /\
  (forall m, neighbours (add_node graph n) m = neighbours graph m).
Proof.
  intros Hc. unfold add_node.
  destruct (nx_node graph !! n) as [a|] eqn:Hn.
  - split; [exact Hc|]. split; [|reflexivity]. split; [auto|].
    intros m Hm. rewrite Hm. rewrite decide_False; [reflexivity|].
    intros ->%list_elem_of_singleton. congruence.
  - split; [|split; [split|]]; simpl.
    + intros m Hm. simpl in Hm |- *.
      apply lookup_insert_None in Hm as [Hm Hne].
      rewrite lookup_insert_ne by assumption. auto.
    + intros m a Hm. rewrite lookup_insert_ne by congruence. exact Hm.
    + intros m Hm. destruct (decide (n = m)) as [->|Hne].
      * rewrite lookup_insert_eq, decide_True by apply list_elem_of_here.
        reflexivity.
      * rewrite lookup_insert_ne by assumption.
        rewrite decide_False; [exact Hm|].
        intros ->%list_elem_of_singleton. congruence.
    + intros m. unfold neighbours. simpl.
      destruct (decide (n = m)) as [->|Hne].
      * now rewrite lookup_insert_eq, (Hc m Hn).
      * now rewrite lookup_insert_ne.
Qed.

Lemma nodesAdded_trans new1 new2 g1 g2 g3 :
  nodesAdded new1 g1 g2 -> nodesAdded new2 g2 g3 ->
  nodesAdded (new1 ++ new2) g1 g3.
Proof.
  intros [K1 N1] [K2 N2]. split; [auto|].
  intros m Hm. specialize (N1 m Hm).
  destruct (decide (m ∈ new1)) as [H1|H1].
  - rewrite decide_True by (apply elem_of_app; auto). eauto.
  - rewrite (N2 m N1).
    destruct (decide (m ∈ new2)) as [H2|H2].
    + rewrite decide_True by (apply elem_of_app; auto). reflexivity.
    + rewrite decide_False; [reflexivity|].
      intros [?|?]%elem_of_app; contradiction.
Qed.

Lemma nodesAdded_ext new new' g g' :
  (forall m, m ∈ new <-> m ∈ new') -> nodesAdded new g g' -> nodesAdded new' g g'.
Proof.
  intros Hext [K N]. split; [exact K|]. intros m Hm. rewrite (N m Hm).
  destruct (decide (m ∈ new)) as [H1|H1].
  - rewrite decide_True by now apply Hext. reflexivity.
  - rewrite decide_False by now rewrite <- Hext. reflexivity.
Qed.

Lemma add_edge_spec graph u v :
  consistent graph ->
  consistent (add_edge graph (u, v)) /\
  nodesAdded [u; v] graph (add_edge graph (u, v)) /\
  (forall x y, y ∈ neighbours (add_edge graph (u, v)) x <->
               y ∈ neighbours graph x \/ (x = u /\ y = v) \/ (x = v /\ y = u)).
Proof.
  intros Hc.
  destruct (add_node_spec graph u Hc) as (Hc1 & Hn1 & Hb1).
  destruct (add_node_spec (add_node graph u) v Hc1) as (Hc2 & Hn2 & Hb2).
  pose proof (nodesAdded_trans _ _ _ _ _ Hn1 Hn2) as Hn. simpl in Hn.
  unfold add_edge. set (g2 := add_node (add_node graph u) v) in *.
  assert (Hu : is_Some (nx_node g2 !! u)).
  { destruct Hn as [K N]. destruct (nx_node graph !! u) as [a|] eqn:E.
    - rewrite (K _ _ E). eauto.
    - rewrite (N _ E), decide_True by apply list_elem_of_here. eauto. }
  assert (Hv : is_Some (nx_node g2 !! v)).
  { destruct Hn as [K N]. destruct (nx_node graph !! v) as [a|] eqn:E.
    - rewrite (K _ _ E). eauto.
    - rewrite (N _ E), decide_True
        by (apply list_elem_of_further, list_elem_of_here). eauto. }
  split; [|split; [exact Hn|]].
  - intros m Hm. simpl in Hm |- *.
    assert (m <> u) by (intros ->; rewrite Hm in Hu; now destruct Hu).
    assert (m <> v) by (intros ->; rewrite Hm in Hv; now destruct Hv).
    rewrite !lookup_insert_ne by congruence. now apply Hc2.
  - intros x y. unfold neighbours at 1. simpl.
    assert (Hg2 : forall z, neighbours g2 z = neighbours graph z)
      by (intros z; now rewrite Hb2, Hb1).
    destruct (decide (v = x)) as [->|Hvx].
    + rewrite lookup_insert_eq. simpl.
      destruct (decide (u = x)) as [->|Hux].
      * rewrite lookup_insert_eq. simpl. rewrite Hg2.
        rewrite ?elem_of_union, ?elem_of_singleton. intuition congruence.
      * rewrite lookup_insert_ne by assumption.
        fold (neighbours g2 x). rewrite Hg2.
        rewrite ?elem_of_union, ?elem_of_singleton. intuition congruence.
    + rewrite lookup_insert_ne by assumption.
      destruct (decide (u = x)) as [->|Hux].
      * rewrite lookup_insert_eq. simpl. rewrite Hg2.
        rewrite ?elem_of_union, ?elem_of_singleton. intuition congruence.
      * rewrite lookup_insert_ne by assumption.
        fold (neighbours g2 x). rewrite Hg2.
        rewrite ?elem_of_union, ?elem_of_singleton. intuition congruence.
Qed.

Lemma add_edges_from_spec k es : forall graph,
  consistent graph -> is_Some (nx_node graph !! k) ->
  consistent (add_edges_from graph (map (fun edge => (k, edge)) es)) /\
  nodesAdded es graph (add_edges_from graph (map (fun edge => (k, edge)) es)) /\
  (forall x y, y ∈ neighbours (add_edges_from graph (map (fun edge => (k, edge)) es)) x <->
               y ∈ neighbours graph x \/ (x = k /\ y ∈ es) \/ (y = k /\ x ∈ es)).
Proof.
  induction es as [|e es IH]; intros graph Hc Hk.
  - simpl. split; [exact Hc|]. split; [split; [auto|]|].
    + intros m Hm. rewrite decide_False by apply not_elem_of_nil. exact Hm.
    + intros x y. rewrite !elem_of_nil. tauto.
  - assert (Hcons : add_edges_from graph (map (fun edge => (k, edge)) (e :: es))
                    = add_edges_from (add_edge graph (k, e))
                        (map (fun edge => (k, edge)) es)) by reflexivity.
    rewrite Hcons. clear Hcons.
    destruct (add_edge_spec graph k e Hc) as (Hc1 & Hn1 & Hb1).
    assert (Hk1 : is_Some (nx_node (add_edge graph (k, e)) !! k)).
    { destruct Hk as [a Ha]. rewrite (proj1 Hn1 _ _ Ha). eauto. }
    destruct (IH _ Hc1 Hk1) as (Hc2 & Hn2 & Hb2).
    split; [exact Hc2|]. split.
    + pose proof (nodesAdded_trans _ _ _ _ _ Hn1 Hn2) as [K N].
      split; [exact K|]. intros m Hm. rewrite (N m Hm).
      assert (m <> k) by (intros ->; rewrite Hm in Hk; now destruct Hk).
      destruct (decide (m ∈ [k; e] ++ es)) as [Hin|Hin].
      * rewrite decide_True; [reflexivity|].
        rewrite elem_of_app, !elem_of_cons, elem_of_nil in Hin.
        rewrite elem_of_cons. tauto.
      * rewrite decide_False; [reflexivity|].
        rewrite elem_of_app, !elem_of_cons, elem_of_nil in Hin.
        rewrite elem_of_cons. tauto.
    + intros x y. rewrite Hb2, Hb1, !elem_of_cons. intuition congruence.
Qed.

Lemma nxGraph_item_result graph vertex data :
  consistent graph ->
  nxGraph_item graph (vertex, data)
  = let graph2 := add_edges_from (add_node graph vertex)
                    (map (fun edge => (vertex, edge)) (edges data)) in
    match attributes data with
    | Some attrs => Ok (mkNx (<[vertex := Some attrs]> (nx_node graph2))
                             (nx_adj graph2))
    | None => Err (KeyError (KStr "attributes"))
    end.
Proof.
  intros Hc. unfold nxGraph_item. rewrite nxEdgeTuples_map.
  destruct (attributes data) as [a|]; [|reflexivity].
  cbn [mbind Result_bind].
  destruct (add_node_spec graph vertex Hc) as (Hc1 & [K1 N1] & _).
  assert (Hk1 : is_Some (nx_node (add_node graph vertex) !! vertex)).
  { destruct (nx_node graph !! vertex) as [b|] eqn:E.
    - rewrite (K1 _ _ E). eauto.
    - rewrite (N1 _ E), decide_True by apply list_elem_of_here. eauto. }
  destruct (add_edges_from_spec vertex (edges data) _ Hc1 Hk1) as (_ & [K2 _] & _).
  destruct Hk1 as [b Hb]. unfold dict_get. rewrite (K2 _ _ Hb). reflexivity.
Qed.

Lemma nxGraph_item_spec graph k vx graph' :
  consistent graph ->
  nxGraph_item graph (k, vx) = Ok graph' ->
  exists a,
    attributes vx = Some a /\
    consistent graph' /\
    nx_node graph' !! k = Some (Some a) /\
    (forall m b, m <> k -> nx_node graph !! m = Some b ->
                 nx_node graph' !! m = Some b) /\
    (forall m, m <> k -> nx_node graph !! m = None ->
               nx_node graph' !! m
               = if decide (m ∈ edges vx) then Some None else None) /\
    (forall x y, y ∈ neighbours graph' x <->
                 y ∈ neighbours graph x \/ (x = k /\ y ∈ edges vx) \/
                 (y = k /\ x ∈ edges vx)).
Proof.
  intros Hc Hrun. rewrite (nxGraph_item_result _ _ _ Hc) in Hrun.
  cbn zeta in Hrun.
  destruct (attributes vx) as [a|]; [|discriminate].
  injection Hrun as <-. exists a. split; [reflexivity|].
  destruct (add_node_spec graph k Hc) as (Hc1 & [K1 N1] & Hb1).
  assert (Hk1 : is_Some (nx_node (add_node graph k) !! k)).
  { destruct (nx_node graph !! k) as [b|] eqn:E.
    - rewrite (K1 _ _ E). eauto.
    - rewrite (N1 _ E), decide_True by apply list_elem_of_here. eauto. }
  destruct (add_edges_from_spec k (edges vx) _ Hc1 Hk1) as (Hc2 & [K2 N2] & Hb2).
  set (graph2 := add_edges_from (add_node graph k)
                   (map (fun edge => (k, edge)) (edges vx))) in *.
  split; [|split; [|split; [|split]]].
  - intros m Hm. simpl in Hm |- *.
    apply lookup_insert_None in Hm as [Hm _]. now apply Hc2.
  - simpl. apply lookup_insert_eq.
  - intros m b Hne Hm. simpl. rewrite lookup_insert_ne by congruence. eauto.
  - intros m Hne Hm. simpl. rewrite lookup_insert_ne by congruence.
    apply N2. rewrite (N1 _ Hm), decide_False; [reflexivity|].
    intros ->%list_elem_of_singleton. congruence.
  - intros x y.
    change (neighbours {| nx_node := <[k:=Some a]> (nx_node graph2);
                          nx_adj := nx_adj graph2 |} x)
      with (neighbours graph2 x).
    now rewrite Hb2, Hb1.
Qed.

Lemma nxGraph_fold items : forall graph graph',
  consistent graph -> NoDup items.*1 ->
  foldM nxGraph_item graph items = Ok graph' ->
  consistent graph' /\
  (forall k vx, (k, vx) ∈ items ->
                exists a, attributes vx = Some a /\
                          nx_node graph' !! k = Some (Some a)) /\
  (forall m b, m ∉ items.*1 -> nx_node graph !! m = Some b ->
               nx_node graph' !! m = Some b) /\
  (forall m, m ∉ items.*1 -> nx_node graph !! m = None ->
             (mentioned items m -> nx_node graph' !! m = Some None) /\
             (~ mentioned items m -> nx_node graph' !! m = None)) /\
  (forall x y, y ∈ neighbours graph' x <->
               y ∈ neighbours graph x \/
               exists k vx, (k, vx) ∈ items /\
                            ((x = k /\ y ∈ edges vx) \/ (y = k /\ x ∈ edges vx))).
Proof.
  induction items as [|[k vx] rest IH]; intros graph graph' Hc Hnd Hrun.
  - injection Hrun as <-. split; [exact Hc|]. split; [|split; [|split]].
    + intros k vx Hin. now apply elem_of_nil in Hin.
    + auto.
    + intros m _ Hm. split; [|auto].
      intros (k & vx & Hin & _). now apply elem_of_nil in Hin.
    + intros x y. split; [auto|].
      intros [Hy|(k & vx & Hin & _)]; [exact Hy|]. now apply elem_of_nil in Hin.
  - assert (Hcons : foldM nxGraph_item graph ((k, vx) :: rest)
                    = nxGraph_item graph (k, vx) ≫= fun g => foldM nxGraph_item g rest)
      by reflexivity.
    rewrite Hcons in Hrun. clear Hcons.
    apply bind_Ok_inv in Hrun as (g1 & Hstep & Hrest).
    rewrite fmap_cons in Hnd. simpl in Hnd.
    apply NoDup_cons in Hnd as [Hk Hnd].
    destruct (nxGraph_item_spec _ _ _ _ Hc Hstep)
      as (a & Ha & Hc1 & Hka & Hkept1 & Hnew1 & Hadj1).
    destruct (IH _ _ Hc1 Hnd Hrest) as (Hc' & Hattrs & Hkept & Hnew & Hadj).
    split; [exact Hc'|]. split; [|split; [|split]].
    + intros k' vx' [Heq|Hin]%elem_of_cons.
      * injection Heq as -> ->. exists a. split; [exact Ha|]. now apply Hkept.
      * now apply Hattrs.
    + intros m b Hm Hb. rewrite fmap_cons in Hm. simpl in Hm.
      apply not_elem_of_cons in Hm as [Hne Hm]. apply Hkept; [exact Hm|].
      now apply Hkept1.
    + intros m Hm Hnone. rewrite fmap_cons in Hm. simpl in Hm.
      apply not_elem_of_cons in Hm as [Hne Hm].
      specialize (Hnew1 m Hne Hnone).
      destruct (decide (m ∈ edges vx)) as [Hin|Hnin].
      * split; [intros _; now apply Hkept|].
        intros Hno. exfalso. apply Hno. exists k, vx.
        split; [apply list_elem_of_here | exact Hin].
      * destruct (Hnew m Hm Hnew1) as [Hyes Hno]. split.
        -- intros (k' & vx' & [Heq|Hin]%elem_of_cons & Hmem).
           ++ injection Heq as -> ->. contradiction.
           ++ apply Hyes. exists k', vx'. auto.
        -- intros Hnot. apply Hno. intros (k' & vx' & Hin & Hmem).
           apply Hnot. exists k', vx'. split; [|exact Hmem].
           now apply list_elem_of_further.
    + intros x y. rewrite Hadj, Hadj1. split.
      * intros [[Hy|Hy]|(k' & vx' & Hin & Hy)].
        -- now left.
        -- right. exists k, vx. split; [apply list_elem_of_here | exact Hy].
        -- right. exists k', vx'. split; [|exact Hy].
           now apply list_elem_of_further.
      * intros [Hy|(k' & vx' & [Heq|Hin]%elem_of_cons & Hy)].
        -- now left; left.
        -- injection Heq as -> ->. now left; right.
        -- right. exists k', vx'. auto.
Qed.

Lemma edgeCount_pos graphDict a b :
  0 < edgeCount graphDict a b <->
  exists vx, graphDict !! a = Some vx /\ b ∈ edges vx.
Proof.
  unfold edgeCount. destruct (graphDict !! a) as [vx|].
  - pose proof (count_occ_In String.string_dec (edges vx) b) as Hocc.
    unfold gt in Hocc. rewrite <- Hocc, <- list_elem_of_In.
    split; [eauto|]. intros (vx' & Heq & Hin). now injection Heq as ->.
  - split; [lia|]. intros (vx' & Heq & _). discriminate.
Qed.

Lemma nx_Graph_consistent : consistent nx_Graph.
Proof. intros n _. apply lookup_empty. Qed.

Lemma mentioned_edgeCount graphDict n :
  mentioned (map_to_list graphDict) n <-> exists k, 0 < edgeCount graphDict k n.
Proof.
  unfold mentioned. split.
  - intros (k & vx & Hin%elem_of_map_to_list & Hn). exists k.
    apply edgeCount_pos. eauto.
  - intros (k & (vx & Hk & Hn)%edgeCount_pos). exists k, vx.
    split; [now apply elem_of_map_to_list | exact Hn].
Qed.

Lemma nxGraph_nodes_and_neighbours_facts graphDict graph :
  nxGraph graphDict = Ok graph ->
  (forall k vx, graphDict !! k = Some vx ->
                exists a, attributes vx = Some a /\
                          nx_node graph !! k = Some (Some a)) /\
  (forall n k, graphDict !! n = None -> 0 < edgeCount graphDict k n ->
               nx_node graph !! n = Some None) /\
  (forall n, graphDict !! n = None ->
             (forall k, edgeCount graphDict k n = 0) ->
             nx_node graph !! n = None) /\
  (forall x y, y ∈ neighbours graph x <->
               0 < edgeCount graphDict x y \/ 0 < edgeCount graphDict y x).
Proof.
  unfold nxGraph. intros Hrun.
  destruct (nxGraph_fold _ _ _ nx_Graph_consistent
              (NoDup_fst_map_to_list graphDict) Hrun)
    as (_ & Hattrs & _ & Hnew & Hadj).
  assert (Hkey : forall n, graphDict !! n = None ->
                           n ∉ (map_to_list graphDict).*1).
  { intros n Hn Hin. apply list_elem_of_fmap in Hin as ([k vx] & -> & Hin).
    apply elem_of_map_to_list in Hin. simpl in Hn. congruence. }
  split; [|split; [|split]].
  - intros k vx Hk. apply Hattrs. now apply elem_of_map_to_list.
  - intros n k Hn Hpos.
    apply (proj1 (Hnew n (Hkey n Hn) (lookup_empty n))).
    apply mentioned_edgeCount. eauto.
  - intros n Hn Hzero.
    apply (proj2 (Hnew n (Hkey n Hn) (lookup_empty n))).
    intros [k Hpos]%mentioned_edgeCount. specialize (Hzero k). lia.
  - intros x y. rewrite Hadj. rewrite !edgeCount_pos. split.
    + intros [Hy|(k & vx & Hin%elem_of_map_to_list & [[-> Hy]|[-> Hx]])].
      * unfold neighbours in Hy. simpl in Hy. rewrite lookup_empty in Hy.
        now apply elem_of_empty in Hy.
      * left. eauto.
      * right. eauto.
    + intros [(vx & Hx & Hy)|(vx & Hy & Hx)]; right.
      * exists x, vx. split; [now apply elem_of_map_to_list | auto].
      * exists y, vx. split; [now apply elem_of_map_to_list | auto].
Qed.

(** X17.  The networkx graph [nxGraph] returns.  Every key of the
    dictionary is a node and carries the attribute dictionary of its
    vertex; a string that is no key is a node exactly when some edge list
    names it, and has no attributes then; and [y] is a neighbour of [x]
    exactly when [y] is listed for [x] or [x] for [y], however often and in
    whichever of the two lists. *)
Theorem nxGraph_nodes_and_neighbours graphDict graph :
  nxGraph graphDict = Ok graph ->
  (forall k vx, graphDict !! k = Some vx ->
                exists a, attributes vx = Some a /\
                          nx_node graph !! k = Some (Some a)) /\
  (forall n k, graphDict !! n = None -> 0 < edgeCount graphDict k n ->
               nx_node graph !! n = Some None) /\
  (forall n, graphDict !! n = None ->
             (forall k, edgeCount graphDict k n = 0) ->
             nx_node graph !! n = None) /\
  (forall x y, y ∈ neighbours graph x <->
               0 < edgeCount graphDict x y \/ 0 < edgeCount graphDict y x).
Proof. apply nxGraph_nodes_and_neighbours_facts. Qed.

Lemma nxGraph_nodes_and_neighbours_witness :
  match nxGraph graph_pqr with
  | Ok graph =>
      nx_node graph !! "r" = Some None /\
      forall x y, y ∈ neighbours graph x <->
                  0 < edgeCount graph_pqr x y \/ 0 < edgeCount graph_pqr y x
  | Err _ => False
  end.
Proof.
  destruct (nxGraph graph_pqr) as [graph|e] eqn:Hrun.
  - destruct (nxGraph_nodes_and_neighbours _ _ Hrun) as (_ & Hnew & _ & Hadj).
    split; [|exact Hadj].
    apply (Hnew "r" "p"); [reflexivity | vm_compute; lia].
  - vm_compute in Hrun. discriminate.
Defined.

Lemma nxGraph_fold_fails items : forall graph,
  consistent graph ->
  foldM nxGraph_item graph items
  = (if decide (Forall (fun item => is_Some (attributes item.2)) items)
     then foldM nxGraph_item graph items
     else Err (KeyError (KStr "attributes"))).
Proof.
  induction items as [|[k vx] rest IH]; intros graph Hc.
  - now rewrite decide_True by constructor.
  - destruct (decide (Forall (fun item => is_Some (attributes item.2))
                        ((k, vx) :: rest))) as [Hall|Hnot]; [reflexivity|].
    assert (Hcons : foldM nxGraph_item graph ((k, vx) :: rest)
                    = nxGraph_item graph (k, vx) ≫= fun g => foldM nxGraph_item g rest)
      by reflexivity.
    rewrite Hcons. clear Hcons.
    destruct (nxGraph_item graph (k, vx)) as [g1|e] eqn:Hstep.
    + destruct (nxGraph_item_spec _ _ _ _ Hc Hstep) as (a & Ha & Hc1 & _).
      cbn [mbind Result_bind]. rewrite (IH _ Hc1).
      rewrite decide_False; [reflexivity|].
      intros Hrest. apply Hnot. constructor; [|exact Hrest].
      simpl. rewrite Ha. eauto.
    + rewrite (nxGraph_item_result _ _ _ Hc) in Hstep. cbn zeta in Hstep.
      destruct (attributes vx); [discriminate|]. now injection Hstep as <-.
Qed.

Lemma nxGraph_fold_total items : forall graph,
  consistent graph ->
  Forall (fun item => is_Some (attributes item.2)) items ->
  exists graph', foldM nxGraph_item graph items = Ok graph'.
Proof.
  induction items as [|[k vx] rest IH]; intros graph Hc Hall.
  - simpl. eauto.
  - apply Forall_cons in Hall as [[a Ha] Hall]. simpl in Ha.
    assert (Hcons : foldM nxGraph_item graph ((k, vx) :: rest)
                    = nxGraph_item graph (k, vx) ≫= fun g => foldM nxGraph_item g rest)
      by reflexivity.
    rewrite Hcons. clear Hcons.
    destruct (nxGraph_item graph (k, vx)) as [g1|e] eqn:Hstep.
    + destruct (nxGraph_item_spec _ _ _ _ Hc Hstep) as (_ & _ & Hc1 & _).
      cbn [mbind Result_bind]. now apply IH.
    + rewrite (nxGraph_item_result _ _ _ Hc) in Hstep. cbn zeta in Hstep.
      rewrite Ha in Hstep. discriminate.
Qed.

Lemma nxGraph_result graphDict :
  (forall k vx, graphDict !! k = Some vx -> is_Some (attributes vx)) /\
  (exists graph, nxGraph graphDict = Ok graph) \/
  (exists k vx, graphDict !! k = Some vx /\ attributes vx = None) /\
  nxGraph graphDict = Err (KeyError (KStr "attributes")).
Proof.
  unfold nxGraph.
  rewrite (nxGraph_fold_fails _ _ nx_Graph_consistent).
  destruct (decide (Forall (fun item => is_Some (attributes item.2))
                      (map_to_list graphDict))) as [Hall|Hnot].
  - left. split.
    + intros k vx Hk%elem_of_map_to_list.
      exact (proj1 (Forall_forall _ _) Hall _ Hk).
    + now apply nxGraph_fold_total; [apply nx_Graph_consistent|].
  - right. split; [|reflexivity].
    apply not_Forall_Exists in Hnot; [|intros x; apply _].
    apply Exists_exists in Hnot as ([k vx] & Hin%elem_of_map_to_list & Hno).
    exists k, vx. split; [exact Hin|]. simpl in Hno.
    destruct (attributes vx); [exfalso; apply Hno; eauto | reflexivity].
Qed.

(** X18.  [nxGraph] raises nothing exactly when every vertex of the
    dictionary has the key ['attributes']; when one has not, it raises
    [KeyError('attributes')] and nothing else. *)
Theorem nxGraph_needs_attributes graphDict :
  match nxGraph graphDict with
  | Ok _ => forall k vx, graphDict !! k = Some vx -> is_Some (attributes vx)
  | Err e => e = KeyError (KStr "attributes") /\
             exists k vx, graphDict !! k = Some vx /\ attributes vx = None
  end.
Proof.
  destruct (nxGraph_result graphDict) as [[Hall [graph ->]]|[Hsome ->]]; auto.
Qed.

(** ** [runInputs] *)

Section RunInputs.
Context `{Host}.

(** X19.  When [buildGraph] returns a dictionary, [nxGraph] raises nothing
    on it: the nodes of the graph [runInputs] builds are the vertex keys,
    each with its attribute dictionary, and [y] is a neighbour of [x]
    exactly when the edge list of [x] names [y]. *)
Theorem runInputs_graph vector field graphDict :
  buildGraph vector field = Ok graphDict ->
  exists graph,
    runInputs vector field = Ok graph /\
    (forall n, is_Some (nx_node graph !! n) <-> is_Some (graphDict !! n)) /\
    (forall k vx, graphDict !! k = Some vx ->
                  exists a, attributes vx = Some a /\
                            nx_node graph !! k = Some (Some a)) /\
    (forall x y, y ∈ neighbours graph x <-> 0 < edgeCount graphDict x y).
Proof.
  intros Hbuild. unfold runInputs. rewrite Hbuild. cbn [mbind Result_bind].
  destruct (buildGraph_facts _ _ _ Hbuild) as (_ & Hclosed & Hsym & Hattrs).
  destruct (nxGraph_result graphDict) as [[_ [graph Hrun]]|[(k & vx & Hk & Hno) _]].
  2:{ destruct (Hattrs k vx Hk) as [a Ha]. congruence. }
  exists graph. split; [exact Hrun|].
  destruct (nxGraph_nodes_and_neighbours_facts _ _ Hrun)
    as (Hnodes & _ & Hnone & Hadj).
  split; [|split; [exact Hnodes|]].
  - intros n. destruct (graphDict !! n) as [vx|] eqn:Hn.
    + destruct (Hnodes n vx Hn) as (a & _ & ->). split; eauto.
    + rewrite Hnone; [split; intros [? ?]; discriminate | exact Hn |].
      intros k. destruct (edgeCount graphDict k n) eqn:Hc; [reflexivity|].
      assert (Hpos : 0 < edgeCount graphDict k n) by lia.
      apply edgeCount_pos in Hpos as (vx & Hk & Hin).
      apply list_elem_of_In in Hin.
      destruct (Hclosed k vx n Hk Hin) as [? Hsome]. congruence.
  - intros x y. rewrite Hadj, (Hsym y x). tauto.
Qed.

End RunInputs.

Lemma runInputs_graph_witness :
  match buildGraph layer_abc "name" with
  | Ok graphDict =>
      exists graph,
        runInputs layer_abc "name" = Ok graph /\
        forall x y, y ∈ neighbours graph x <-> 0 < edgeCount graphDict x y
  | Err _ => False
  end.
Proof.
  destruct (buildGraph layer_abc "name") as [graphDict|e] eqn:Hrun.
  - destruct (runInputs_graph _ _ _ Hrun) as (graph & Hg & _ & _ & Hadj).
    exists graph. split; [exact Hg | exact Hadj].
  - vm_compute in Hrun. discriminate.
Defined.
